(** * gobusybox: the dispatch stub and the busybox builder

    A shallow embedding of
    - [src/pkg/bb/bbmain/cmd/main.go], the [main.go] template that is
      copied into every generated busybox (argv normalisation, symlink
      resolution, dispatch through the [bbmain] registry), and
    - [src/pkg/bb/bb.go], the builder ([checkDuplicate], [BuildBusybox],
      [localModules], [dealWithDeps], ...).

    Go strings are [string]s, Go maps are [gmap]s, slices are [list]s,
    and a function that returns [error] runs in a small state-and-error
    monad over the file system and the log. *)

From Stdlib Require Import Ascii String.
From stdpp Require Import base option list strings gmap fin_maps.

Set Warnings "-register-all".

Local Open Scope string_scope.

(** ** Go's [strings] package *)

Module strings.

(** [strings.HasPrefix(s, prefix)] *)
Definition HasPrefix (s prefix : string) : bool := String.prefix prefix s.

(** [strings.Join(elems, sep)] *)
Fixpoint Join (elems : list string) (sep : string) : string :=
  match elems with
  | [] => ""
  | [e] => e
  | e :: rest => e ++ sep ++ Join rest sep
  end.

(** Splitting at every occurrence of the byte [c]: [splitc] carries
    the element read so far. [Split s "/"] for a one-byte separator. *)
Fixpoint splitc (c : ascii) (cur : string) (s : string) : list string :=
  match s with
  | EmptyString => [cur]
  | String d s' =>
      if Ascii.eqb d c then cur :: splitc c "" s'
      else splitc c (cur ++ String d "") s'
  end.

Definition Split1 (s : string) (c : ascii) : list string := splitc c "" s.

(** [strings.Contains(s, substr)] for a one-byte [substr]. *)
Fixpoint Contains1 (s : string) (c : ascii) : bool :=
  match s with
  | EmptyString => false
  | String d s' => Ascii.eqb d c || Contains1 s' c
  end.

End strings.

(** ** Formatting verbs of [fmt] *)

Definition dquote : string := String (ascii_of_nat 34) "".
Definition nl : string := String (ascii_of_nat 10) "".

(** [%q] of a string (without escapes) and of a slice of strings. *)
Definition quote (s : string) : string := dquote ++ s ++ dquote.
Definition fmt_q (l : list string) : string :=
  "[" ++ strings.Join (quote <$> l) " " ++ "]".

(** ** Go's [path] package (and [path/filepath] on Unix, where the two
    agree: the separator is the slash and there is no volume name) *)

Module path.

Definition slash : ascii := "/"%char.

(** [Clean] works on the slash-separated elements of the path.  The
    library walks the bytes with a write buffer [out] and an index
    [dotdot] below which [..] may not backtrack; here [out] is the
    reversed list of elements written so far and [dotdot] counts the
    leading [..] elements. *)
Definition clean_step (rooted : bool) (st : list string * nat) (e : string)
  : list string * nat :=
  let '(out, dotdot) := st in
  if String.eqb e "" then st                       (* empty path element *)
  else if String.eqb e "." then st                 (* . element *)
  else if String.eqb e ".." then                   (* .. element *)
    if Nat.ltb dotdot (length out) then (tail out, dotdot)   (* can backtrack *)
    else if negb rooted then (".." :: out, S (length out))   (* append .. *)
    else st
  else (e :: out, dotdot).                         (* real path element *)

Definition Clean (p : string) : string :=
  if String.eqb p "" then "."
  else
    let rooted := strings.HasPrefix p "/" in
    let '(out, _) := foldl (clean_step rooted) ([], 0) (strings.Split1 p slash) in
    match out, rooted with
    | [], false => "."
    | _, false => strings.Join (rev out) "/"
    | _, true => "/" ++ strings.Join (rev out) "/"
    end.

(** [Join]: empty elements are ignored, the rest is joined with
    slashes and cleaned; no non-empty element gives the empty string. *)
Fixpoint Join (elem : list string) : string :=
  match elem with
  | [] => ""
  | e :: rest =>
      if String.eqb e "" then Join rest
      else Clean (strings.Join elem "/")
  end.

Definition IsAbs (p : string) : bool := strings.HasPrefix p "/".

(** Bytes of a string, last byte first. *)
Definition rbytes (s : string) : list ascii := rev (list_ascii_of_string s).

Fixpoint drop_slashes (l : list ascii) : list ascii :=
  match l with
  | c :: l' => if Ascii.eqb c slash then drop_slashes l' else l
  | [] => []
  end.

Fixpoint take_elem (l : list ascii) : list ascii :=
  match l with
  | c :: l' => if Ascii.eqb c slash then [] else c :: take_elem l'
  | [] => []
  end.

Fixpoint drop_elem (l : list ascii) : list ascii :=
  match l with
  | c :: l' => if Ascii.eqb c slash then l else drop_elem l'
  | [] => []
  end.

(** [Base]: the last element of the path; trailing slashes are
    removed first; [.] for the empty path, [/] for a path of slashes. *)
Definition Base (p : string) : string :=
  if String.eqb p "" then "."
  else
    let p1 := drop_slashes (rbytes p) in           (* strip trailing slashes *)
    match take_elem p1 with                        (* find the last element *)
    | [] => "/"                                    (* it had only slashes *)
    | last => string_of_list_ascii (rev last)
    end.

(** [Dir]: all but the last element, cleaned. *)
Definition Dir (p : string) : string :=
  Clean (string_of_list_ascii (rev (drop_elem (rbytes p)))).

End path.

Module filepath.

Definition Base := path.Base.
Definition Dir := path.Dir.
Definition Join := path.Join.
Definition IsAbs := path.IsAbs.

(** [filepath.Abs] needs the working directory [wd] of the process. *)
Definition Abs (wd p : string) : string :=
  if IsAbs p then path.Clean p else Join [wd; p].

End filepath.

(** ** The registry package [bbmain]

    Go [func()] values that reach the registry: [Noop] and [ListCmds]
    of [bbmain], the closure [m] that the stub's [init] registers as the
    default, and the functions of a rewritten command, which are opaque
    here and named by a tag. *)

Inductive func : Type :=
  | Noop
  | ListCmds
  | stub_m
  | CommandFunc (tag : string).

(** What a run of the busybox process does, as far as the stub decides
    it: the opaque functions it calls, each with the [os.Args] it sees,
    and how the process ends. *)
Inductive Event : Type :=
  | BBRun (name : string) (args : list string)    (* bbmain.Run(name) is entered *)
  | Call (f : func) (args : list string)
  | LogFatal (msg : string)
  | Exit (code : nat)
  | IndexPanic.

Module bbmain.

(** Modelled from the spec: [bbmain/register.go] is not among the
    sources.  A command is described by two pieces of behaviour, its
    init chain and its entry. *)
Record bbCmd : Type := mkCmd { init : func; main : func }.

(** Modelled from the spec: [bbmain/register.go] is not among the
    sources.  The stub exposes a fixed registry with operations
    [Register(name, initChain, entry)], [RegisterDefault(initChain,
    entry)] and [Run(name)]. *)
Record registry : Type := mkRegistry {
  bbCmds : gmap string bbCmd;
  defaultCmd : option bbCmd
}.

(** Modelled from the spec: [Register(name, initChain, entry)] of the
    missing [bbmain/register.go]; every command registers itself under
    its name. *)
Definition Register (name : string) (i m : func) (r : registry) : registry :=
  {| bbCmds := <[name := mkCmd i m]> (bbCmds r); defaultCmd := defaultCmd r |}.

(** Modelled from the spec: [RegisterDefault(initChain, entry)] of the
    missing [bbmain/register.go]. *)
Definition RegisterDefault (i m : func) (r : registry) : registry :=
  {| bbCmds := bbCmds r; defaultCmd := Some (mkCmd i m) |}.

(** Modelled from the spec: the lookup of [Run] in the missing
    [bbmain/register.go]; [Run] looks up by name, and misses fall
    through to the default handler. *)
Definition find (r : registry) (name : string) : option bbCmd :=
  match bbCmds r !! name with
  | Some c => Some c
  | None => defaultCmd r
  end.

Definition ErrNotRegistered : string := "command is not present in busybox".

(** Modelled from the spec: [Run(name)] of the missing
    [bbmain/register.go] runs the init chain and then the entry of the
    command it finds, after which the process ends; it returns an
    error when there is nothing to run.  [call f k] runs [f] and
    continues with [k] when [f] returns. *)
Definition Run (call : func -> list Event -> list Event)
    (r : registry) (name : string) : list Event + string :=
  match find r name with
  | Some cmd => inl (call (init cmd) (call (main cmd) [Exit 0]))
  | None => inr (ErrNotRegistered ++ ": " ++ name)
  end.

End bbmain.

(** ** The dispatch stub, [bbmain/cmd/main.go] *)

Module stub.

(** What the stub sees of the operating system: the working
    directory and the symbolic links ([path -> target]). *)
Record OS : Type := mkOS {
  Getwd : string;
  symlinks : gmap string string
}.

Definition Readlink (os : OS) (p : string) : option string := symlinks os !! p.

(** [Lstat(p)] succeeds with [ModeSymlink] set. *)
Definition Lstat_symlink (os : OS) (p : string) : bool :=
  bool_decide (is_Some (symlinks os !! p)).

Definition AbsSymlink (os : OS) (originalFile target : string) : string :=
  let originalFile :=
    if negb (filepath.IsAbs originalFile)
    then filepath.Abs (Getwd os) originalFile
    else originalFile in
  if negb (filepath.IsAbs target)
  then filepath.Join [filepath.Dir originalFile; target]
  else target.

Definition IsTargetSymlink (os : OS) (originalFile target : string) : bool :=
  Lstat_symlink os (AbsSymlink os originalFile target).

(** The loop follows links while the target is a link itself; on a
    cycle of links it does not end, so the model counts steps. *)
Fixpoint ResolveUntilLastSymlink (fuel : nat) (os : OS) (p : string)
  : option string :=
  match fuel with
  | 0 => None
  | S n =>
      match Readlink os p with
      | Some target =>
          if IsTargetSymlink os p target
          then ResolveUntilLastSymlink n os (AbsSymlink os p target)
          else Some p
      | None => Some p
      end
  end.

(** The closure [m] of [init], over [run]. *)
Definition m (run : list string -> list Event) (Args : list string)
  : list Event :=
  match Args with
  | [] => [IndexPanic]
  | [a] => [LogFatal ("Invalid busybox command: " ++ fmt_q [a])]
  | _ :: Args1 => run Args1                 (* os.Args = os.Args[1:]; run() *)
  end.

(** Running a registered function with [os.Args = Args]: [Noop]
    returns, [m] never does, the others are recorded. *)
Definition call (run : list string -> list Event) (Args : list string)
    (f : func) (k : list Event) : list Event :=
  match f with
  | Noop => k
  | stub_m => m run Args
  | _ => Call f Args :: k
  end.

Fixpoint run (r : bbmain.registry) (Args : list string) {struct Args}
  : list Event :=
  match Args with
  | [] => [IndexPanic]                      (* os.Args[0] *)
  | a0 :: _ =>
      let name := filepath.Base a0 in
      BBRun name Args ::
      match bbmain.Run (call (run r) Args) r name with
      | inl t => t
      | inr err => [LogFatal (name ++ ": " ++ err)]
      end
  end.

(** The argv part of [init]. *)
Definition init_args (Args : list string) : list string :=
  match Args with
  | _ :: a1 :: _ :: _ =>
      if strings.HasPrefix a1 "#!" then drop 2 Args else Args
  | _ => Args
  end.

Definition init (Args : list string) (r : bbmain.registry)
  : list string * bbmain.registry :=
  (init_args Args,
   bbmain.RegisterDefault Noop stub_m
     (bbmain.Register "bbdiagnose" Noop ListCmds r)).

Definition main (fuel : nat) (os : OS) (r : bbmain.registry)
    (Args : list string) : option (list Event) :=
  match Args with
  | [] => Some [IndexPanic]
  | a0 :: rest =>
      a0' ← ResolveUntilLastSymlink fuel os a0;
      Some (run r (a0' :: rest))
  end.

(** The process: the command packages' [init]s have filled the
    registry [r0]; then the stub's [init] runs, then [main]. *)
Definition process (fuel : nat) (os : OS) (r0 : bbmain.registry)
    (argv : list string) : option (list Event) :=
  let '(Args, r) := init argv r0 in
  main fuel os r Args.

End stub.

(** ** Errors, the file system, and the monad of the builder *)

Inductive errno : Type := ENOENT | EEXIST | ENOTDIR | EISDIR.

Inductive error : Type :=
  | errorString (msg : string)                        (* fmt.Errorf, errors.New *)
  | PathError (op path : string) (e : errno)          (* *os.PathError *)
  | nilDeref                        (* runtime error: nil pointer dereference *)
  | ErrGopathBuild (CmdDir GOPATH : string) (Err : error)
  | ErrModuleBuild (CmdDir : string) (Err : error).

Definition errno_string (e : errno) : string :=
  match e with
  | ENOENT => "no such file or directory"
  | EEXIST => "file exists"
  | ENOTDIR => "not a directory"
  | EISDIR => "is a directory"
  end.

(** The [Error()] method, which is what [%v] prints. *)
Fixpoint Error (e : error) : string :=
  match e with
  | errorString msg => msg
  | PathError op p no => op ++ " " ++ p ++ ": " ++ errno_string no
  | nilDeref => "runtime error: invalid memory address or nil pointer dereference"
  | ErrGopathBuild _ _ err => "non-module go build failed: " ++ Error err
  | ErrModuleBuild _ err => "go build with modules failed: " ++ Error err
  end.

Module os.

Definition IsNotExist (e : error) : bool :=
  match e with PathError _ _ ENOENT => true | _ => false end.

Definition IsExist (e : error) : bool :=
  match e with PathError _ _ EEXIST => true | _ => false end.

End os.

(** The file system: the directories and the regular files with their
    contents, under cleaned paths. *)
Record FS : Type := mkFS {
  dirs : gset string;
  files : gmap string string
}.

(** The world of a build: the file system and what was written to
    standard error ([log.Printf] and [fmt.Fprintln(os.Stderr, ...)]),
    one entry per call, oldest first. *)
Record World : Type := mkWorld {
  fs : FS;
  stderr : list string
}.

(** How a call ends: it returns a value, it returns an error, or it
    panics with the value [v]; a panic unwinds the stack and is no
    return at all. *)
Inductive result (A : Type) : Type :=
  | Ok (a : A)
  | Err (e : error)
  | Panic (v : error).
Arguments Ok {A} a.
Arguments Err {A} e.
Arguments Panic {A} v.

(** A Go function with side effects that returns [(A, error)]; the
    world is kept when it fails. *)
Definition M (A : Type) : Type := World -> result A * World.

Definition ret {A} (a : A) : M A := fun w => (Ok a, w).
Definition fail {A} (e : error) : M A := fun w => (Err e, w).
Definition panic {A} (v : error) : M A := fun w => (Panic v, w).
Definition bind {A B} (k : A -> M B) (c : M A) : M B :=
  fun w => match c w with
           | (Ok a, w') => k a w'
           | (Err e, w') => (Err e, w')
           | (Panic v, w') => (Panic v, w')
           end.

#[global] Instance M_ret : MRet M := @ret.
#[global] Instance M_bind : MBind M := @bind.

(** [err := f()]: the error as a value, [None] for [nil]; a panic of
    [f] goes on. *)
Definition errOf {A} (c : M A) : M (option error) :=
  fun w => match c w with
           | (Ok _, w') => (Ok None, w')
           | (Err e, w') => (Ok (Some e), w')
           | (Panic v, w') => (Panic v, w')
           end.

(** [if err := f(); err != nil { return wrap(err) }]; a panic of [f]
    is not an error that is returned: it goes on as it is. *)
Definition orReturn {A} (c : M A) (wrap : error -> error) : M A :=
  fun w => match c w with
           | (Ok a, w') => (Ok a, w')
           | (Err e, w') => (Err (wrap e), w')
           | (Panic v, w') => (Panic v, w')
           end.

(** [x, err := f(); if err != nil { x = a }] *)
Definition orDefault {A} (c : M A) (a : A) : M A :=
  fun w => match c w with
           | (Ok x, w') => (Ok x, w')
           | (Err _, w') => (Ok a, w')
           | (Panic v, w') => (Panic v, w')
           end.

(** A [for _, x := range l] loop that threads a value and may return
    an error from its body. *)
Fixpoint foldM {A B} (f : B -> A -> M B) (b : B) (l : list A) : M B :=
  match l with
  | [] => ret b
  | x :: l' => b' ← f b x; foldM f b' l'
  end.

(** [p.field] through a pointer that may be nil: a nil pointer makes
    the program panic. *)
Definition deref {A} (p : option A) : M A :=
  match p with
  | Some a => ret a
  | None => panic nilDeref
  end.

Definition getFS : M FS := fun w => (Ok (fs w), w).
Definition putFS (f : FS) : M unit := fun w => (Ok tt, mkWorld f (stderr w)).

(** [log.Printf] (without the time stamp) and [fmt.Fprintln(os.Stderr, _)]. *)
Definition logPrintf (line : string) : M unit :=
  fun w => (Ok tt, mkWorld (fs w) (stderr w ++ [line])).

Module fsys.

(** The path itself and the directories above it: [/a/b] gives [/],
    [/a], [/a/b]. *)
Fixpoint prefixes (acc s : string) : list string :=
  match s with
  | EmptyString => [acc]
  | String c s' =>
      if Ascii.eqb c path.slash
      then (if String.eqb acc "" then ["/"] else [acc])
             ++ prefixes (acc ++ "/") s'
      else prefixes (acc ++ String c "") s'
  end.

Definition ancestors (p : string) : list string := prefixes "" (path.Clean p).

Definition isFile (f : FS) (p : string) : bool :=
  bool_decide (is_Some (files f !! path.Clean p)).
Definition isDir (f : FS) (p : string) : bool :=
  bool_decide (path.Clean p ∈ dirs f).

(** [os.MkdirAll]: nothing to do for a directory that exists; fails
    when a file is in the way. *)
Definition MkdirAll (p : string) : M unit :=
  f ← getFS;
  if existsb (isFile f) (ancestors p)
  then fail (PathError "mkdir" p ENOTDIR)
  else putFS (mkFS (list_to_set (ancestors p) ∪ dirs f) (files f)).

(** The entries of a directory. *)
Definition children (f : FS) (d : string) : list string :=
  filter (fun q => path.Dir q = path.Clean d ∧ q ≠ path.Clean d)
         (elements (dirs f ∪ dom (files f))).

(** [ioutil.ReadDir] *)
Definition ReadDir (d : string) : M (list string) :=
  f ← getFS;
  if isDir f d then ret (path.Base <$> children f d)
  else if isFile f d then fail (PathError "readdirent" d ENOTDIR)
  else fail (PathError "open" d ENOENT).

(** [ioutil.ReadFile] *)
Definition ReadFile (p : string) : M string :=
  f ← getFS;
  match files f !! path.Clean p with
  | Some data => ret data
  | None =>
      if isDir f p then fail (PathError "read" p EISDIR)
      else fail (PathError "open" p ENOENT)
  end.

(** [ioutil.WriteFile]: the directory must be there. *)
Definition WriteFile (p data : string) : M unit :=
  f ← getFS;
  if isDir f p then fail (PathError "open" p EISDIR)
  else if negb (isDir f (path.Dir (path.Clean p)))
  then fail (PathError "open" p ENOENT)
  else putFS (mkFS (dirs f) (<[path.Clean p := data]> (files f))).

(** Opening with [O_CREATE|O_APPEND] and copying [data] in. *)
Definition AppendFile (p data : string) : M unit :=
  f ← getFS;
  if isDir f p then fail (PathError "open" p EISDIR)
  else if negb (isDir f (path.Dir (path.Clean p)))
  then fail (PathError "open" p ENOENT)
  else putFS (mkFS (dirs f)
                (<[path.Clean p := default "" (files f !! path.Clean p) ++ data]>
                   (files f))).

(** [cp.Copy] of a regular file. *)
Definition Copy (src dst : string) : M unit :=
  data ← ReadFile src; WriteFile dst data.

(** [os.RemoveAll] *)
Definition under (d q : string) : bool :=
  String.eqb q (path.Clean d) || strings.HasPrefix q (path.Clean d ++ "/").

Definition RemoveAll (d : string) : M unit :=
  f ← getFS;
  putFS (mkFS (filter (fun q => under d q = false) (dirs f))
              (filter (fun kv => under d kv.1 = false) (files f))).

End fsys.

(** ** [golang.org/x/tools/go/packages]: the loaded package graph *)

Module packages.

(** [packages.Module]; [Replace] is the module that replaces this one,
    if any ([Module] is a keyword, hence the underscore). *)
Inductive Module_ : Type := mkModule {
  Path : string;
  Version : string;
  Dir : string;
  GoMod : string;
  Replace : option Module_
}.

(** [packages.Package].  [Imports] is the import map, listed in
    ascending order of import path, the order in which [Visit] walks
    it. *)
Inductive Package : Type := mkPackage {
  ID : string;
  PkgPath : string;
  Module : option Module_;
  Imports : list (string * Package)
}.

(** [Visit(pkgs, nil, post)]: depth first over the import graph, every
    package once ([seen]), [post] after the imports of a package.
    The result lists the packages in the order [post] is called. *)
Fixpoint visit (pkg : Package) (st : gset string * list Package)
  {struct pkg} : gset string * list Package :=
  match pkg with
  | mkPackage id _ _ imports =>
      if decide (id ∈ st.1) then st
      else
        let st2 :=
          (fix visit_imports (l : list (string * Package))
               (st : gset string * list Package) :=
             match l with
             | [] => st
             | (_, q) :: l' => visit_imports l' (visit q st)
             end) imports ({[id]} ∪ st.1, st.2) in
        (st2.1, (st2.2 ++ [pkg])%list)
  end.

Definition Visit (pkgs : list Package) : list Package :=
  (foldl (fun st p => visit p st) (∅, []) pkgs).2.

End packages.

Import packages.

(** ** [bbinternal]: a command to be compiled into the busybox *)

Module bbinternal.

(** Modelled from the spec: the package [bbinternal] is not among the
    sources.  A command is exactly one program-entry package plus a
    chosen short name; the builder reads [cmd.Name] and [cmd.Pkg]. *)
Record Package : Type := mkPackage {
  Name : string;
  Pkg : packages.Package
}.

End bbinternal.

(** ** [golang.org/x/mod/modfile]: the [go.mod] under construction

    The library keeps the directives as lists of pointers and edits
    them in place; here a file is the list of its requirements and the
    list of its replacements, in the order of those lists.  [AddRequire]
    and [AddReplace] always return a nil error, so they are functions
    from file to file. *)

Module modfile.

(** [module.Version] *)
Record Version : Type := mkVersion { VPath : string; VVersion : string }.

Record Require : Type := mkRequire { Mod : Version }.

(** A [replace] directive; [Syntax] holds the tokens of its line, and
    is empty once the line is removed. *)
Record Replace : Type := mkReplace {
  Old : Version;
  New : Version;
  Syntax : list string
}.

Record File : Type := mkFile {
  Module : option string;
  Requires : list Require;
  Replaces : list Replace
}.

Definition empty : File := mkFile None [] [].

Definition AddModuleStmt (p : string) (f : File) : File :=
  mkFile (Some p) (Requires f) (Replaces f).

(** [AddRequire]: the first line for [path] gets the version, further
    lines for it are blanked, and without any a line is added. *)
Fixpoint setRequire (p vers : string) (need : bool) (l : list Require)
  : list Require * bool :=
  match l with
  | [] => ([], need)
  | r :: l' =>
      if String.eqb (VPath (Mod r)) p then
        if need then
          let '(l'', n) := setRequire p vers false l' in
          (mkRequire (mkVersion p vers) :: l'', n)
        else
          let '(l'', n) := setRequire p vers need l' in
          (mkRequire (mkVersion "" "") :: l'', n)
      else
        let '(l'', n) := setRequire p vers need l' in (r :: l'', n)
  end.

Definition AddRequire (p vers : string) (f : File) : File :=
  let '(l, need) := setRequire p vers true (Requires f) in
  mkFile (Module f)
    (if need then l ++ [mkRequire (mkVersion p vers)] else l)
    (Replaces f).

Definition replaceTokens (oldPath oldVers newPath newVers : string)
  : list string :=
  ["replace"; oldPath] ++ (if String.eqb oldVers "" then [] else [oldVers])
    ++ ["=>"; newPath] ++ (if String.eqb newVers "" then [] else [newVers]).

(** [AddReplace]: the first directive for the old path (and version,
    unless none is asked for) is updated in place to the new target,
    further ones are blanked, and without any a directive is added. *)
Fixpoint setReplace (oldPath oldVers : string) (new : Version)
    (tokens : list string) (need : bool) (l : list Replace)
  : list Replace * bool :=
  match l with
  | [] => ([], need)
  | r :: l' =>
      if String.eqb (VPath (Old r)) oldPath
         && (String.eqb oldVers "" || String.eqb (VVersion (Old r)) oldVers)
      then
        if need then
          let '(l'', n) := setReplace oldPath oldVers new tokens false l' in
          (mkReplace (Old r) new tokens :: l'', n)
        else
          let '(l'', n) := setReplace oldPath oldVers new tokens need l' in
          (mkReplace (mkVersion "" "") (mkVersion "" "") [] :: l'', n)
      else
        let '(l'', n) := setReplace oldPath oldVers new tokens need l' in
        (r :: l'', n)
  end.

Definition AddReplace (oldPath oldVers newPath newVers : string) (f : File)
  : File :=
  let new := mkVersion newPath newVers in
  let tokens := replaceTokens oldPath oldVers newPath newVers in
  let '(l, need) := setReplace oldPath oldVers new tokens true (Replaces f) in
  mkFile (Module f) (Requires f)
    (if need then l ++ [mkReplace (mkVersion oldPath oldVers) new tokens]
     else l).

(** [Format]: one line per directive that is left, the module
    statement first, then the requirements, then the replacements
    (the library's printer also puts the lines of one kind in a
    parenthesised block). *)
Definition requireLine (r : Require) : list string :=
  if String.eqb (VPath (Mod r)) "" then []
  else ["require " ++ VPath (Mod r) ++ " " ++ VVersion (Mod r)].

Definition replaceLine (r : Replace) : list string :=
  match Syntax r with
  | [] => []
  | tokens => [strings.Join tokens " "]
  end.

Definition lines (f : File) : list string :=
  match Module f with Some p => ["module " ++ p] | None => [] end
    ++ (Requires f ≫= requireLine) ++ (Replaces f ≫= replaceLine).

Definition Format (f : File) : string :=
  strings.Join ((fun l => l ++ nl) <$> lines f) "".

End modfile.

(** ** What the builder takes from outside *)

Module golang.

(** Modelled from the spec: the package [golang] is not among the
    sources.  The toolchain environment holds build settings, among
    them the module-mode toggle; the builder reads [GO111MODULE] and
    sets [GOPATH]. *)
Record Environ : Type := mkEnviron {
  GO111MODULE : string;
  GOPATH : string
}.

End golang.

(** What the builder calls and does not define: [findpkg], [bbinternal]
    and [golang] of this repository, which are not among the sources,
    the libraries [modfile], [astutil] and [term], the operating
    system, and the two embedded source texts.  [rangeOrder] is the
    order in which one [for ... range] statement walks a map: some
    permutation of its entries, which Go does not fix. *)
Class Collaborators : Type := {
  rangeOrder : forall A : Type, list A -> list A;
  rangeOrder_perm : forall (A : Type) (l : list A), rangeOrder A l ≡ₚ l;
  (* golang.Environ *)
  Env_Valid : golang.Environ -> option error;
  Env_BuildDir : golang.Environ -> string -> string -> list string -> M unit;
  (* findpkg, bbinternal *)
  findpkg_NewPackages :
    golang.Environ -> list string -> result (list bbinternal.Package);
  Rewrite : bbinternal.Package -> string -> string -> M unit;
  WritePkg : packages.Package -> string -> M unit;
  astFile : Type;
  ParseAST : string -> list string -> M (list astFile);
  RewriteImport : astFile -> string -> string -> bool * astFile;
  CreateBBMainSource : list astFile -> list string -> string -> M unit;
  bbRegisterSource : string;
  bbMainSource : string;
  (* the operating system *)
  Getwd : string;
  tempName : string -> string -> FS -> string;
  filepath_Rel : string -> string -> result string;
  (* modfile.Parse, term.Bold *)
  modfile_Parse : string -> string -> result modfile.File;
  term_Bold : string -> string
}.

(** The same collaborators, with maps walked in another order. *)
Definition withOrder (C : Collaborators)
    (order : forall A : Type, list A -> list A)
    (order_perm : forall (A : Type) (l : list A), order A l ≡ₚ l)
  : Collaborators := {|
  rangeOrder := order;
  rangeOrder_perm := order_perm;
  Env_Valid := @Env_Valid C;
  Env_BuildDir := @Env_BuildDir C;
  findpkg_NewPackages := @findpkg_NewPackages C;
  Rewrite := @Rewrite C;
  WritePkg := @WritePkg C;
  astFile := @astFile C;
  ParseAST := @ParseAST C;
  RewriteImport := @RewriteImport C;
  CreateBBMainSource := @CreateBBMainSource C;
  bbRegisterSource := @bbRegisterSource C;
  bbMainSource := @bbMainSource C;
  Getwd := @Getwd C;
  tempName := @tempName C;
  filepath_Rel := @filepath_Rel C;
  modfile_Parse := @modfile_Parse C;
  term_Bold := @term_Bold C
|}.

(** The same collaborators, with another [go build]. *)
Definition withBuildDir (C : Collaborators)
    (build : golang.Environ -> string -> string -> list string -> M unit)
  : Collaborators := {|
  rangeOrder := @rangeOrder C;
  rangeOrder_perm := @rangeOrder_perm C;
  Env_Valid := @Env_Valid C;
  Env_BuildDir := build;
  findpkg_NewPackages := @findpkg_NewPackages C;
  Rewrite := @Rewrite C;
  WritePkg := @WritePkg C;
  astFile := @astFile C;
  ParseAST := @ParseAST C;
  RewriteImport := @RewriteImport C;
  CreateBBMainSource := @CreateBBMainSource C;
  bbRegisterSource := @bbRegisterSource C;
  bbMainSource := @bbMainSource C;
  Getwd := @Getwd C;
  tempName := @tempName C;
  filepath_Rel := @filepath_Rel C;
  modfile_Parse := @modfile_Parse C;
  term_Bold := @term_Bold C
|}.

Module bb.
Section bb.

Context `{C : Collaborators}.

(** [for k, v := range m] *)
Definition range {V} (m : gmap string V) : list (string * V) :=
  rangeOrder _ (map_to_list m).

Definition Errorf (msg : string) : error := errorString msg.

Definition liftResult {A} (r : result A) : M A :=
  match r with Ok a => ret a | Err e => fail e | Panic v => panic v end.

(** [(a, err) := f()]; a panic of [f] goes on. *)
Definition attempt {A} (c : M A) : M (result A) :=
  fun w => match c w with
           | (Panic v, w') => (Panic v, w')
           | (r, w') => (Ok r, w')
           end.

(** A deferred function that reads the named result [nerr].  It runs
    when the function returns and also when it panics; a [return]
    statement sets [nerr] before it runs, a panic does not, so that
    [nerr] is still nil then. *)
Definition defer {A} (d : option error -> M unit) (c : M A) : M A :=
  fun w =>
    let '(r, w1) := c w in
    let nerr := match r with Err e => Some e | Ok _ | Panic _ => None end in
    (r, (d nerr w1).2).

Definition TempDir (dir pattern : string) : M string :=
  f ← getFS;
  let name := tempName dir pattern f in
  fsys.MkdirAll name;; ret name.

(** [listStrings]: the keys of a [map[string]struct{}]. *)
Definition listStrings (m : gset string) : list string :=
  rangeOrder _ (elements m).

Fixpoint checkDuplicate_from (seen : gmap string string)
    (cmds : list bbinternal.Package) : option error :=
  match cmds with
  | [] => None
  | cmd :: rest =>
      match seen !! bbinternal.Name cmd with
      | Some path =>
          Some (Errorf ("failed to build with bb: found duplicate command "
                          ++ bbinternal.Name cmd ++ " (" ++ path ++ " and "
                          ++ PkgPath (bbinternal.Pkg cmd) ++ ")"))
      | None =>
          checkDuplicate_from
            (<[bbinternal.Name cmd := PkgPath (bbinternal.Pkg cmd)]> seen) rest
      end
  end.

Definition checkDuplicate (cmds : list bbinternal.Package) : option error :=
  checkDuplicate_from ∅ cmds.

Record Opts : Type := mkOpts {
  Env : golang.Environ;
  GenSrcDir : string;
  CommandPaths : list string;
  BinaryPath : string;
  GoBuildOpts : list string;
  AllowMixedMode : bool;
  GenerateOnly : bool
}.

Definition isReplacedModuleLocal (m : Module_) : bool :=
  strings.HasPrefix (Path m) "./" || strings.HasPrefix (Path m) "../"
  || strings.HasPrefix (Path m) "/".

Definition moduleIdentifier (m : Module_) : string :=
  match Replace m with
  | Some r =>
      if isReplacedModuleLocal r then "directory " ++ Path r
      else "version " ++ Version m
  | None => "version " ++ Version m
  end.

(** [deps]: the packages of the import graph of [p] that pass [filter]. *)
Definition deps (p : Package) (filter : Package -> bool) : list Package :=
  List.filter filter (Visit [p]).

Definition locallyReplaced (pkg : Package) : bool :=
  match Module pkg with
  | Some pm =>
      match Replace pm with
      | Some r => isReplacedModuleLocal r
      | None => false
      end
  | None => false
  end.

Definition locallyReplacedModules (p : Package) : gmap string Module_ :=
  match Module p with
  | None => ∅
  | Some _ =>
      foldl (fun m pkg =>
               if locallyReplaced pkg then
                 match Module pkg with
                 | Some pm => <[Path pm := pm]> m
                 | None => m
                 end
               else m)
            ∅ (Visit [p])
  end.

Definition collectDeps (p : Package) (localModules : gmap string Module_)
  : list Package :=
  match Module p with
  | Some _ =>
      deps p (fun pkg =>
        (* Replaced modules can be local on the file system. *)
        locallyReplaced pkg
        (* Is this a dependency within a local module? *)
        || existsb (fun kv => strings.HasPrefix (PkgPath pkg) kv.1)
                   (range localModules))
  | None =>
      (* First component of package path contains a dot? *)
      deps p (fun pkg =>
        let firstComp := strings.Split1 (PkgPath pkg) path.slash in
        strings.Contains1 (hd "" firstComp) "."%char)
  end.

(** The closure [copyGoMod] of [localModules]. *)
Definition copyGoMod (pkgDir bbDir : string) (md : option Module_) : M unit :=
  match md with
  | None => ret tt
  | Some md =>
      err ← errOf (fsys.MkdirAll (filepath.Join [pkgDir; Path md]));
      match err with
      | Some e => if os.IsExist e then ret tt else fail e
      | None =>
          (* Use the module file for all outside dependencies. *)
          fsys.Copy (GoMod md) (filepath.Join [pkgDir; Path md; "go.mod"]);;
          let gosum := filepath.Join [filepath.Dir (GoMod md); "go.sum"] in
          err ← errOf (fsys.Copy gosum (filepath.Join [pkgDir; Path md; "go.sum"]));
          match err with
          | Some e =>
              (* Modules without dependencies don't have or need a go.sum. *)
              if os.IsNotExist e then ret tt else fail e
          | None =>
              data ← fsys.ReadFile gosum;
              fsys.AppendFile (filepath.Join [bbDir; "go.sum"]) data
          end
      end
  end.

Record localModule : Type := mkLocalModule {
  m : Module_;
  provenance : string
}.

(** First loop of [localModules]: all top-level modules. *)
Definition topLevelModule (pkgDir bbDir : string)
    (localModules : gmap string localModule) (p : bbinternal.Package)
  : M (gmap string localModule) :=
  match Module (bbinternal.Pkg p) with
  | Some pm =>
      match localModules !! Path pm with
      | Some _ => ret localModules
      | None =>
          let localModules :=
            <[Path pm := mkLocalModule pm
                ("your request to compile " ++ Path pm ++ " from " ++ Dir pm)]>
              localModules in
          orReturn (copyGoMod pkgDir bbDir (Some pm))
            (fun err => Errorf ("failed to copy go.mod for " ++ Path pm
                                  ++ ": " ++ Error err));;
          ret localModules
      end
  | None => ret localModules
  end.

(** Body of the second loop: one locally replaced module of [p]. *)
Definition replacedModule (pkgDir bbDir : string) (p : bbinternal.Package)
    (localModules : gmap string localModule) (kv : string * Module_)
  : M (gmap string localModule) :=
  let '(modPath, module) := kv in
  match localModules !! modPath with
  | Some original =>
      (* Is this module different from one that a previous definition provided? *)
      if negb (String.eqb (Dir (m original)) (Dir module)) then
        pm ← deref (Module (bbinternal.Pkg p));
        fail (Errorf ("two conflicting versions of module " ++ modPath
                        ++ " have been requested; one from "
                        ++ provenance original ++ ", the other from "
                        ++ Path pm ++ "'s go.mod"))
      else ret localModules
  | None =>
      pm ← deref (Module (bbinternal.Pkg p));
      let localModules :=
        <[modPath := mkLocalModule module
            (Path pm ++ "'s go.mod (" ++ GoMod pm ++ ")")]> localModules in
      orReturn (copyGoMod pkgDir bbDir (Some module))
        (fun err => Errorf ("failed to copy go.mod for " ++ Path pm
                              ++ ": " ++ Error err));;
      ret localModules
  end.

(** Body of the third loop: one package [p] in the import graph of
    [mainPkg]; the result is the [conflict] flag. *)
Definition remoteConflict (localModules : gmap string localModule)
    (mainPkg : bbinternal.Package) (conflict : bool) (p : Package) : M bool :=
  match Module p with
  | None => ret conflict
  | Some pmod =>
      match localModules !! Path pmod with
      | Some l =>
          if negb (String.eqb (Dir (m l)) (Dir pmod)) then
            logPrintf "";;
            logPrintf ("Conflicting module dependencies on " ++ Path pmod ++ ":");;
            mm ← deref (Module (bbinternal.Pkg mainPkg));
            logPrintf ("  " ++ Path mm ++ " uses " ++ moduleIdentifier pmod);;
            logPrintf ("  " ++ provenance l ++ " uses " ++ moduleIdentifier (m l));;
            replacePath ←
              orDefault (liftResult (filepath_Rel (Dir mm) (Dir (m l))))
                        (Dir (m l));
            logPrintf "";;
            logPrintf (term_Bold "Suggestion to resolve" ++ ": add `replace "
                         ++ Path pmod ++ " => " ++ replacePath ++ "` to "
                         ++ GoMod mm);;
            logPrintf "";;
            ret true
          else ret conflict
      | None => ret conflict
      end
  end.

Definition localModules (pkgDir bbDir : string)
    (mainPkgs : list bbinternal.Package) : M (gmap string Module_) :=
  (* Find all top-level modules. *)
  lm ← foldM (topLevelModule pkgDir bbDir) ∅ mainPkgs;
  lm ← foldM (fun lm p =>
                foldM (replacedModule pkgDir bbDir p) lm
                      (range (locallyReplacedModules (bbinternal.Pkg p))))
             lm mainPkgs;
  (* Look for conflicts between remote and local modules. *)
  conflict ← foldM (fun conflict mainPkg =>
                      foldM (remoteConflict lm mainPkg) conflict
                            (Visit [bbinternal.Pkg mainPkg]))
                   false mainPkgs;
  if conflict : bool then fail (Errorf "conflicting module dependencies found")
  else ret (m <$> lm).

(** The [go.mod] lines of one local module: the requirement, the
    local replacement into the generated tree, and the replace
    directives of the module's own [go.mod] that are not local. *)
Definition isLocalPath (p : string) : bool :=
  strings.HasPrefix p "./" || strings.HasPrefix p "../"
  || strings.HasPrefix p "/".

Definition copyReplace (md : modfile.File) (r : modfile.Replace)
  : modfile.File :=
  if isLocalPath (modfile.VPath (modfile.New r)) then md
  else modfile.AddReplace
         (modfile.VPath (modfile.Old r)) (modfile.VVersion (modfile.Old r))
         (modfile.VPath (modfile.New r)) (modfile.VVersion (modfile.New r)) md.

Definition requiredVersion (module : Module_) : string :=
  let v := Version module in
  if Nat.eqb (String.length v) 0 then "v0.0.0" else v.

Definition addLocalModule (md : modfile.File) (kv : string * Module_)
  : M modfile.File :=
  let '(mpath, module) := kv in
  let v := requiredVersion module in
  let md := modfile.AddRequire mpath v md in
  let md := modfile.AddReplace mpath "" (path.Join [".."; ".."; mpath]) "" md in
  (* Also copy over every replace directive *)
  if negb (String.eqb (GoMod module) "") then
    gomodData ← fsys.ReadFile (GoMod module);
    gomod ← liftResult (modfile_Parse (GoMod module) gomodData);
    ret (foldl copyReplace md (modfile.Replaces gomod))
  else ret md.

(** The [go.mod] of the busybox, as [dealWithDeps] builds it from the
    local modules. *)
Definition bbGoMod (localModules : gmap string Module_) : M modfile.File :=
  foldM addLocalModule
        (modfile.AddModuleStmt "bb.u-root.com/bb" modfile.empty)
        (range localModules).

Definition dealWithDeps (env : golang.Environ)
    (bbDir tmpDir pkgDir : string) (mainPkgs : list bbinternal.Package)
  : M unit :=
  localModules ← localModules pkgDir bbDir mainPkgs;
  let localDepPkgs :=
    mainPkgs ≫= (fun p => collectDeps (bbinternal.Pkg p) localModules) in
  (* Copy local dependency packages into module directories at tmpDir/src. *)
  foldM (fun (seenIDs : gset string) p =>
           if decide (ID p ∈ seenIDs) then ret seenIDs
           else
             orReturn (WritePkg p (filepath.Join [pkgDir; PkgPath p]))
               (fun err => Errorf ("writing package " ++ ID p ++ " failed: "
                                     ++ Error err));;
             ret ({[ID p]} ∪ seenIDs))
        ∅ localDepPkgs;;
  (* Avoid go.mod in the case of GO111MODULE=(auto|off) if there are no modules. *)
  if String.eqb (golang.GO111MODULE env) "on" || Nat.ltb 0 (size localModules)
  then
    md ← bbGoMod localModules;
    fsys.WriteFile (filepath.Join [bbDir; "go.mod"]) (modfile.Format md)
  else ret tt.

Definition writeBBMain (bbDir tmpDir : string) (bbImports : list string)
  : M unit :=
  fsys.MkdirAll (filepath.Join [bbDir; "pkg/bbmain"]);;
  fsys.WriteFile (filepath.Join [bbDir; "pkg/bbmain/register.go"]) bbRegisterSource;;
  fsys.WriteFile (filepath.Join [bbDir; "main.go"]) bbMainSource;;
  bbFiles ← ParseAST "main" [filepath.Join [bbDir; "main.go"]];
  match bbFiles with
  | [] => fail (Errorf "bb package not found")
  | f0 :: others =>
      (* Fix the import path for bbmain. *)
      let '(ok, f0') :=
        RewriteImport f0 "github.com/u-root/gobusybox/src/pkg/bb/bbmain"
                      "bb.u-root.com/bb/pkg/bbmain" in
      if negb ok then fail (Errorf "could not rewrite import")
      else
        orReturn (CreateBBMainSource (f0' :: others) bbImports bbDir)
          (fun err => Errorf ("creating bb main.go file failed: " ++ Error err))
  end.

(** The modules of the commands and the number of commands without
    one (lines 356-364 of [BuildBusybox]). *)
Definition countModules (cmds : list bbinternal.Package) : gset string * nat :=
  foldl (fun '(modules, numNoModule) cmd =>
           match Module (bbinternal.Pkg cmd) with
           | Some pm => ({[Path pm]} ∪ modules, numNoModule)
           | None => (modules, S numNoModule)
           end)
        (∅, 0) cmds.

Definition mixedModeCheck (allowMixedMode : bool)
    (cmds : list bbinternal.Package) : option error :=
  let '(modules, numNoModule) := countModules cmds in
  if negb allowMixedMode && Nat.ltb 0 (size modules) && Nat.ltb 0 numNoModule
  then Some (Errorf ("busybox does not support mixed module/non-module compilation -- commands contain main modules "
                       ++ strings.Join (listStrings modules) ", "))
  else None.

(** [BuildBusybox] once the directory [tmpDir] of the generated tree
    is there (from line 336 on). *)
Definition buildIn (opts : Opts) (tmpDir : string) : M unit :=
  let bbDir := filepath.Join [tmpDir; "src/bb.u-root.com/bb"] in
  fsys.MkdirAll bbDir;;
  let pkgDir := filepath.Join [tmpDir; "src"] in
  (* Ask go about all the commands in one batch for dependency caching. *)
  cmds ← orReturn (liftResult (findpkg_NewPackages (Env opts) (CommandPaths opts)))
           (fun err => Errorf ("finding packages failed: " ++ Error err));
  if Nat.eqb (length cmds) 0 then fail (Errorf "no valid commands given")
  else
    (* Collect all packages that we need to actually re-write. *)
    match checkDuplicate cmds with
    | Some err => fail err
    | None =>
        match mixedModeCheck (AllowMixedMode opts) cmds with
        | Some err => fail err
        | None =>
            let numNoModule := (countModules cmds).2 in
            (* Rewrite commands to packages. *)
            bbImports ←
              foldM (fun (bbImports : list string) cmd =>
                       let pkgPath := PkgPath (bbinternal.Pkg cmd) in
                       let destination := filepath.Join [pkgDir; pkgPath] in
                       orReturn (Rewrite cmd destination "bb.u-root.com/bb/pkg/bbmain")
                         (fun err => Errorf ("rewriting command " ++ quote pkgPath
                                               ++ " failed: " ++ Error err));;
                       ret ((bbImports ++ [pkgPath])%list))
                    [] cmds;
            (* Collect and write dependencies into pkgDir. *)
            orReturn (dealWithDeps (Env opts) bbDir tmpDir pkgDir cmds)
              (fun err => Errorf ("collecting and putting dependencies in place failed: "
                                    ++ Error err));;
            orReturn (writeBBMain bbDir tmpDir bbImports)
              (fun err => Errorf ("failed to write main.go: " ++ Error err));;
            if GenerateOnly opts then ret tt
            else
              (* Compile bb. *)
              let gopath :=
                String.eqb (golang.GO111MODULE (Env opts)) "off"
                || Nat.ltb 0 numNoModule in
              let env :=
                if gopath
                then golang.mkEnviron (golang.GO111MODULE (Env opts)) tmpDir
                else Env opts in
              orReturn (Env_BuildDir env bbDir (BinaryPath opts) (GoBuildOpts opts))
                (fun err => if gopath then ErrGopathBuild bbDir tmpDir err
                            else ErrModuleBuild bbDir err)
        end
    end.

(** The directory given as [GenSrcDir] (lines 298-317). *)
Definition useGenSrcDir (opts : Opts) : M string :=
  r ← attempt (fsys.ReadDir (GenSrcDir opts));
  relTmpDir ←
    match r with
    | Err err =>
        if os.IsNotExist err then
          orReturn (fsys.MkdirAll (GenSrcDir opts))
            (fun err => Errorf ("could not create directory for busybox generated source: "
                                  ++ Error err));;
          ret (GenSrcDir opts)
        else fail (Errorf ("could not read directory supplied for busybox generated source: "
                             ++ Error err))
    | Ok dirents =>
        if Nat.ltb 0 (length dirents)
        then fail (Errorf "directory supplied for busybox generated source is not an empty directory")
        else ret (GenSrcDir opts)
    | Panic v => panic v
    end;
  ret (filepath.Abs Getwd relTmpDir).

(** The directory of the generated tree (lines 297-334): the one given,
    or else a temporary one, for which a deferred function is set up. *)
Definition genDir (opts : Opts) : M (string * bool) :=
  if negb (String.eqb (GenSrcDir opts) "") then
    tmpDir ← useGenSrcDir opts;
    ret (tmpDir, false)
  else if GenerateOnly opts then
    fail (Errorf "generate switch requires that generate directory be supplied")
  else
    tmpDir ← TempDir "" "bb-";
    ret (tmpDir, true).

(** The deferred function of the temporary directory. *)
Definition preserveOrRemove (tmpDir : string) (nerr : option error) : M unit :=
  match nerr with
  | Some _ =>
      logPrintf ("Preserving bb generated source directory at "
                   ++ tmpDir ++ " due to error")
  | None => fsys.RemoveAll tmpDir
  end.

Definition BuildBusybox (opts : option Opts) : M unit :=
  match opts with
  | None => fail (Errorf "no options given for busybox build")
  | Some opts =>
      match Env_Valid (Env opts) with
      | Some err => fail err
      | None =>
          d ← genDir opts;
          let '(tmpDir, temporary) := d in
          if temporary : bool
          then defer (preserveOrRemove tmpDir) (buildIn opts tmpDir)
          else buildIn opts tmpDir
      end
  end.

(** [Unwrap] of [*ErrModuleBuild] and of [*ErrGopathBuild]. *)
Definition Unwrap (e : error) : option error :=
  match e with
  | ErrGopathBuild _ _ err => Some err
  | ErrModuleBuild _ err => Some err
  | _ => None
  end.

(** A decimal digit, [[0-9]]. *)
Definition isDigit (c : ascii) : bool :=
  Nat.leb 48 (nat_of_ascii c) && Nat.leb (nat_of_ascii c) 57.

(** [regexp.Match("v[0-9]+", s)]: the pattern is not anchored, so it
    matches when some [v] of [s] is followed by a digit. *)
Fixpoint matchVersion (s : string) : bool :=
  match s with
  | EmptyString => false
  | String c s' =>
      (Ascii.eqb c "v"
       && match s' with String d _ => isDigit d | EmptyString => false end)
      || matchVersion s'
  end.

Definition versionNum (mpath : string) : string :=
  let last := path.Base mpath in
  if Nat.eqb (String.length last) 0 then "v0"
  else if matchVersion last then last
  else "v0".

End bb.
End bb.

(** ** A small world to run the builder in

    Stand-ins for the collaborators: a reader of [go.mod] files in
    line form, a loader that answers from a table, and writers that
    put one file per package. *)

Module demo.

Definition words (s : string) : list string :=
  List.filter (fun t => negb (String.eqb t "")) (strings.Split1 s " "%char).

(** The tokens before and after the arrow of a [replace] line. *)
Fixpoint atArrow (l : list string) : list string * list string :=
  match l with
  | [] => ([], [])
  | t :: l' =>
      if String.eqb t "=>" then ([], l')
      else let '(a, b) := atArrow l' in (t :: a, b)
  end.

Definition version (l : list string) : option modfile.Version :=
  match l with
  | [p] => Some (modfile.mkVersion p "")
  | [p; v] => Some (modfile.mkVersion p v)
  | _ => None
  end.

Definition parseLine (f : modfile.File) (line : string)
  : result modfile.File :=
  let bad := Err (errorString ("go.mod: malformed line: " ++ line)) in
  match words line with
  | [] => Ok f
  | verb :: args =>
      if String.eqb verb "module" then
        match args with
        | [p] => Ok (modfile.AddModuleStmt p f)
        | _ => bad
        end
      else if String.eqb verb "require" then
        match args with
        | [p; v] => Ok (modfile.AddRequire p v f)
        | _ => bad
        end
      else if String.eqb verb "replace" then
        let '(old, new) := atArrow args in
        match version old, version new with
        | Some o, Some n =>
            Ok (modfile.mkFile (modfile.Module f) (modfile.Requires f)
                  (modfile.Replaces f
                     ++ [modfile.mkReplace o n (verb :: args)]))
        | _, _ => bad
        end
      else bad
  end.

Definition Parse (file data : string) : result modfile.File :=
  foldl (fun r line =>
           match r with
           | Ok f => parseLine f line
           | Err e => Err e
           | Panic v => Panic v
           end)
        (Ok modfile.empty) (strings.Split1 data (ascii_of_nat 10)).

(** [filepath.Rel] for two paths that are both absolute or both
    relative: up from [base] past what the two do not share, then down
    to [targ]. *)
Fixpoint dropShared (a b : list string) : list string * list string :=
  match a, b with
  | x :: a', y :: b' => if String.eqb x y then dropShared a' b' else (a, b)
  | _, _ => (a, b)
  end.

Definition Rel (base targ : string) : result string :=
  if negb (Bool.eqb (path.IsAbs base) (path.IsAbs targ))
  then Err (errorString ("Rel: can't make " ++ targ ++ " relative to " ++ base))
  else
    let elems p :=
      List.filter (fun e => negb (String.eqb e "") && negb (String.eqb e "."))
                  (strings.Split1 (path.Clean p) path.slash) in
    let '(up, down) := dropShared (elems base) (elems targ) in
    match ((fun _ => "..") <$> up) ++ down with
    | [] => Ok "."
    | l => Ok (strings.Join l "/")
    end%list.

(** One file per package directory. *)
Definition writeOne (dir data : string) : M unit :=
  fsys.MkdirAll dir;; fsys.WriteFile (filepath.Join [dir; "pkg.go"]) data.

Definition collaborators
    (order : forall A : Type, list A -> list A)
    (order_perm : forall (A : Type) (l : list A), order A l ≡ₚ l)
    (load : list string -> result (list bbinternal.Package))
  : Collaborators := {|
  rangeOrder := order;
  rangeOrder_perm := order_perm;
  Env_Valid := fun _ => None;
  Env_BuildDir := fun _ _ out _ => fsys.WriteFile out "bb";
  findpkg_NewPackages := fun _ paths => load paths;
  Rewrite := fun cmd dir _ =>
    writeOne dir ("package " ++ bbinternal.Name cmd);
  WritePkg := fun p dir => writeOne dir ("package " ++ path.Base (PkgPath p));
  astFile := string;
  ParseAST := fun _ fs => foldM (fun l f => d ← fsys.ReadFile f; ret (l ++ [d])%list) [] fs;
  RewriteImport := fun f _ _ => (true, f);
  CreateBBMainSource := fun _ _ _ => ret tt;
  bbRegisterSource := "package bbmain";
  bbMainSource := "package main";
  Getwd := "/";
  tempName := fun _ pattern _ => "/tmp/" ++ pattern ++ "0";
  filepath_Rel := Rel;
  modfile_Parse := Parse;
  term_Bold := fun s => s
|}.

(** Two ways a [range] statement may walk a map. *)
Definition inOrder : forall A : Type, list A -> list A := fun _ l => l.
Definition reversed : forall A : Type, list A -> list A := fun _ l => reverse l.

Definition inOrder_perm (A : Type) (l : list A) : inOrder A l ≡ₚ l :=
  Permutation_refl l.
Definition reversed_perm (A : Type) (l : list A) : reversed A l ≡ₚ l :=
  reverse_Permutation l.

End demo.

(** ** Inputs for the examples *)

Module ex.

(** A registry as the [init]s of two rewritten commands leave it. *)
Definition r0 : bbmain.registry :=
  bbmain.Register "cat" (CommandFunc "cat.init") (CommandFunc "cat.main")
    (bbmain.Register "ls" (CommandFunc "ls.init") (CommandFunc "ls.main")
       (bbmain.mkRegistry ∅ None)).

(** No symbolic links at all. *)
Definition plainOS : stub.OS := stub.mkOS "/" ∅.

Definition shebangArgv : list string := ["/bbin/bb"; "#!ls"; "/tmp/ls"; "-la"].

(** Two commands with the same last path element, outside any module. *)
Definition fooLs : bbinternal.Package :=
  bbinternal.mkPackage "ls"
    (mkPackage "example.com/foo/ls" "example.com/foo/ls" None []).
Definition barLs : bbinternal.Package :=
  bbinternal.mkPackage "ls"
    (mkPackage "example.com/bar/ls" "example.com/bar/ls" None []).

(** An empty directory [/gen] for the generated tree. *)
Definition emptyGen : World :=
  mkWorld (mkFS (list_to_set ["/"; "/gen"; "/tmp"]) ∅) [].

Definition load (cmds : list bbinternal.Package)
  : list string -> result (list bbinternal.Package) := fun _ => Ok cmds.

Definition dupC : Collaborators :=
  demo.collaborators demo.inOrder demo.inOrder_perm (load [fooLs; barLs]).

(** Two modules on disk, each with one command. *)
Definition modA : Module_ :=
  mkModule "example.com/a" "" "/src/a" "/src/a/go.mod" None.
Definition modB : Module_ :=
  mkModule "example.com/b" "" "/src/b" "/src/b/go.mod" None.
Definition cmdA : bbinternal.Package :=
  bbinternal.mkPackage "ls"
    (mkPackage "example.com/a/cmd/ls" "example.com/a/cmd/ls" (Some modA) []).
Definition cmdB : bbinternal.Package :=
  bbinternal.mkPackage "cat"
    (mkPackage "example.com/b/cmd/cat" "example.com/b/cmd/cat" (Some modB) []).

Definition mixedC : Collaborators :=
  demo.collaborators demo.inOrder demo.inOrder_perm (load [cmdB; fooLs]).

(** The sources of the two modules on disk, and an empty [/gen]. *)
Definition goModA : string := "module example.com/a" ++ nl.
Definition goModB : string := "module example.com/b" ++ nl.

Definition sources (goModA goModB : string) : World :=
  mkWorld (mkFS (list_to_set ["/"; "/gen"; "/tmp"; "/src"; "/src/a"; "/src/b"])
                (list_to_map [("/src/a/go.mod", goModA);
                              ("/src/b/go.mod", goModB)]))
          [].

(** The commands of both modules, with maps walked in one order and in
    the opposite one. *)
Definition abC : Collaborators :=
  demo.collaborators demo.inOrder demo.inOrder_perm (load [cmdA; cmdB]).
Definition abC' : Collaborators :=
  withOrder abC demo.reversed demo.reversed_perm.

(** The local modules of that build. *)
Definition abModules : gmap string Module_ :=
  <["example.com/a" := modA]> (<["example.com/b" := modB]> ∅).

(** Where the [go.mod] of the busybox goes under [/gen]. *)
Definition genGoMod : string := "/gen/src/bb.u-root.com/bb/go.mod".

Definition text (lines : list string) : string :=
  strings.Join ((fun l => l ++ nl) <$> lines) "".

(** The [go.mod] built for the two modules. *)
Definition abGoMod : modfile.File :=
  match (@bb.bbGoMod abC abModules (sources goModA goModB)).1 with
  | Ok md => md
  | _ => modfile.empty
  end.

(** The [go.mod] built for the two modules when the map of local
    modules is walked in the opposite order. *)
Definition abGoMod' : modfile.File :=
  match (@bb.bbGoMod ex.abC' ex.abModules (ex.sources ex.goModA ex.goModB)).1 with
  | Ok md => md
  | _ => modfile.empty
  end.

(** A command in a module of major version 2; as for every module
    that is built from its directory, the loader gives no version. *)
Definition modV2 : Module_ :=
  mkModule "example.com/m/v2" "" "/src/a" "/src/a/go.mod" None.
Definition cmdV2 : bbinternal.Package :=
  bbinternal.mkPackage "tool"
    (mkPackage "example.com/m/v2/cmd/tool" "example.com/m/v2/cmd/tool"
       (Some modV2) []).
Definition goModV2 : string := "module example.com/m/v2" ++ nl.
Definition v2C : Collaborators :=
  demo.collaborators demo.inOrder demo.inOrder_perm (load [cmdV2]).

(** Module [a] replaces module [b] by a fork. *)
Definition goModAfork : string :=
  "module example.com/a" ++ nl
    ++ "replace example.com/b => example.com/fork/b v1.2.3" ++ nl.

(** The [go.mod] built for the two modules then, with the map of local
    modules walked in one order and in the opposite one. *)
Definition abForkGoMod : modfile.File :=
  match (@bb.bbGoMod abC abModules (sources goModAfork goModB)).1 with
  | Ok md => md
  | _ => modfile.empty
  end.
Definition abForkGoMod' : modfile.File :=
  match (@bb.bbGoMod abC' abModules (sources goModAfork goModB)).1 with
  | Ok md => md
  | _ => modfile.empty
  end.

(** Both modules replace [example.com/x], by different modules; module
    [a] also has a replacement by a directory. *)
Definition goModAx : string :=
  "module example.com/a" ++ nl
    ++ "replace example.com/x => example.com/y1 v1.0.0" ++ nl
    ++ "replace example.com/l => ../l" ++ nl.
Definition goModBx : string :=
  "module example.com/b" ++ nl
    ++ "replace example.com/x => example.com/y2 v1.0.0" ++ nl.

(** The directives for [example.com/x] in the [go.mod] files of the
    modules [a] and [b], and the [go.mod] built for the two modules. *)
Definition xToY1 : modfile.Replace :=
  modfile.mkReplace (modfile.mkVersion "example.com/x" "")
    (modfile.mkVersion "example.com/y1" "v1.0.0")
    ["replace"; "example.com/x"; "=>"; "example.com/y1"; "v1.0.0"].
Definition xToY2 : modfile.Replace :=
  modfile.mkReplace (modfile.mkVersion "example.com/x" "")
    (modfile.mkVersion "example.com/y2" "v1.0.0")
    ["replace"; "example.com/x"; "=>"; "example.com/y2"; "v1.0.0"].
Definition abxGoMod : modfile.File :=
  match (@bb.bbGoMod ex.abC ex.abModules
           (ex.sources ex.goModAx ex.goModBx)).1 with
  | Ok md => md
  | _ => modfile.empty
  end.

(** The module [example.com/m2] in three places: replaced by a
    directory of module [a], replaced by a directory of module [b], and
    as downloaded. *)
Definition m2 (dir : string) (replace : option Module_) : Module_ :=
  mkModule "example.com/m2" "v1.0.0" dir (dir ++ "/go.mod") replace.
Definition m2inA : Module_ :=
  m2 "/src/a/vendor/m2"
     (Some (mkModule "./vendor/m2" "" "/src/a/vendor/m2"
                     "/src/a/vendor/m2/go.mod" None)).

Definition m2pkg (md : Module_) : Package :=
  mkPackage "example.com/m2/pkg" "example.com/m2/pkg" (Some md) [].

(** The commands of [a] and [b] again, now importing a package of
    [example.com/m2]. *)
Definition cmdAwith (md : Module_) : bbinternal.Package :=
  bbinternal.mkPackage "ls"
    (mkPackage "example.com/a/cmd/ls" "example.com/a/cmd/ls" (Some modA)
       [("example.com/m2/pkg", m2pkg md)]).



(** Module [a] as downloaded, and a command outside any module that
    imports a package of it. *)
Definition modAremote : Module_ :=
  mkModule "example.com/a" "v1.0.0" "/go/pkg/mod/example.com/a@v1.0.0"
           "/go/pkg/mod/example.com/a@v1.0.0/go.mod" None.
Definition cmdNoModule : bbinternal.Package :=
  bbinternal.mkPackage "tool"
    (mkPackage "tool" "tool" None
       [("example.com/a/pkg",
         mkPackage "example.com/a/pkg" "example.com/a/pkg" (Some modAremote) [])]).
Definition noModuleC : Collaborators :=
  demo.collaborators demo.inOrder demo.inOrder_perm (load [cmdA; cmdNoModule]).

(** A build of both in a temporary directory that lets commands with
    and without a module go together. *)
Definition mixedOpts : bb.Opts :=
  bb.mkOpts (golang.mkEnviron "on" "") "" ["a/cmd/ls"; "tool"] "/src/bb" []
            true false.

Definition genOpts (allowMixedMode : bool) : bb.Opts :=
  bb.mkOpts (golang.mkEnviron "on" "") "/gen" ["foo/ls"; "bar/ls"] "/out/bb" []
            allowMixedMode true.

(** The links of the comment on [ResolveUntilLastSymlink]:
    [/foo/bar -> ../baz/foo] and [/baz/foo -> bla]; every link is
    nearer to the end of its chain than the link that leads to it. *)
Definition docOS : stub.OS :=
  stub.mkOS "/" (list_to_map [("/foo/bar", "../baz/foo"); ("/baz/foo", "bla")]).
Definition docRank (p : string) : nat :=
  if String.eqb p "/foo/bar" then 1 else 0.

(** Two links that lead to each other. *)
Definition loopOS : stub.OS :=
  stub.mkOS "/" (list_to_map [("/bin/a", "b"); ("/bin/b", "/bin/a")]).

(** The registry after the stub's [init]. *)
Definition r1 : bbmain.registry := (stub.init [] r0).2.

(** Builds of the commands of [a] and [b]: into the directory [/src],
    which is not empty, into [/gen/new], which is not there, into a
    temporary directory, and into [/gen]. *)
Definition buildOpts (genSrcDir : string) : bb.Opts :=
  bb.mkOpts (golang.mkEnviron "on" "") genSrcDir ["a/cmd/ls"; "b/cmd/cat"]
            "/src/bb" [] false false.

(** A [go build] that fails. *)
Definition failingC : Collaborators :=
  withBuildDir abC (fun _ _ _ _ => fail (errorString "exit status 1")).

(** A loader that finds no command. *)
Definition noneC : Collaborators :=
  demo.collaborators demo.inOrder demo.inOrder_perm (load []).

(** The sources of module [a] with a [go.sum], and the directory of the
    busybox with a [go.sum] that has a line already. *)
Definition goSumA : string := "example.com/x v1.0.0 h1:xxxx" ++ nl.
Definition goSumB : string := "example.com/y v1.0.0 h1:yyyy" ++ nl.
Definition sumSources : World :=
  mkWorld (mkFS (list_to_set ["/"; "/gen"; "/gen/src"; "/gen/src/bb.u-root.com";
                              "/gen/src/bb.u-root.com/bb"; "/src"; "/src/a"])
                (list_to_map [("/src/a/go.mod", goModA);
                              ("/src/a/go.sum", goSumA);
                              ("/gen/src/bb.u-root.com/bb/go.sum", goSumB)]))
          [].

End ex.

(** * The vocabulary of the statements *)

Section vocabulary.

Context `{C : Collaborators}.

Import bbinternal.

(** What [checkDuplicate] returns for the commands [ci] and [cj]. *)
Definition duplicateError (ci cj : bbinternal.Package) : error :=
  bb.Errorf ("failed to build with bb: found duplicate command "
               ++ Name cj ++ " (" ++ PkgPath (Pkg ci) ++ " and "
               ++ PkgPath (Pkg cj) ++ ")").

(** [seen] holds the names of the commands [pre] looked at so far, each
    with the package path of its command. *)
Definition seenOf (pre : list bbinternal.Package) (seen : gmap string string)
  : Prop :=
  forall n p, seen !! n = Some p <->
              exists i c, pre !! i = Some c /\ Name c = n /\ PkgPath (Pkg c) = p.

(** The world in which [BuildBusybox] returns when [buildIn] returns
    the error [err] in the world [w]. *)
Definition afterError (tmpDir : string) (temporary : bool) (w : World)
  : World :=
  if temporary
  then mkWorld (fs w)
         (stderr w ++ ["Preserving bb generated source directory at "
                         ++ tmpDir ++ " due to error"])
  else w.

(** The paths of the modules of the commands that have one. *)
Definition mainModules (cmds : list bbinternal.Package) : list string :=
  omap (fun c => Path <$> Module (bbinternal.Pkg c)) cmds.

Definition hasModule (c : bbinternal.Package) : bool :=
  match Module (bbinternal.Pkg c) with Some _ => true | None => false end.

Definition mixedModeError (l : list string) : error :=
  bb.Errorf ("busybox does not support mixed module/non-module compilation -- commands contain main modules "
               ++ strings.Join l ", ").

(** An element of a path that [Clean] keeps as it is. *)
Definition isRealElem (e : string) : bool :=
  negb (String.eqb e "") && negb (String.eqb e ".") && negb (String.eqb e "..").

(** A relative path that is clean already and does not start with
    [..]: all its elements are real ones. *)
Definition isPlainPath (p : string) : bool :=
  forallb isRealElem (strings.Split1 p path.slash).

(** A computation that writes nothing to standard error. *)
Definition quiet {A} (c : M A) : Prop := forall w, stderr (c w).2 = stderr w.

(** A computation that comes back, with a value or with an error: it
    does not panic. *)
Definition returns {A} (c : M A) : Prop := forall w v, (c w).1 <> Panic v.

End vocabulary.

Section go_mod_vocabulary.

Context `{C : Collaborators}.

Import modfile.

(** Does the directive [r] answer to the old path and version asked for? *)
Definition answers (o ov : string) (r : Replace) : bool :=
  String.eqb (VPath (Old r)) o
  && (String.eqb ov "" || String.eqb (VVersion (Old r)) ov).

(** The replace directives of the module's own [go.mod], as
    [addLocalModule] reads them in the world [w]. *)
Definition moduleReplaces (w : World) (module : Module_)
  : result (list Replace) :=
  if String.eqb (GoMod module) "" then Ok []
  else
    match (fsys.ReadFile (GoMod module) w).1 with
    | Ok data =>
        match modfile_Parse (GoMod module) data with
        | Ok gomod => Ok (Replaces gomod)
        | Err e => Err e
        | Panic v => Panic v
        end
    | Err e => Err e
    | Panic v => Panic v
    end.

(** The requirement and the local replacement of one local module. *)
Definition requireOf (kv : string * Module_) : Require :=
  mkRequire (mkVersion kv.1 (bb.requiredVersion kv.2)).

Definition localReplaceOf (mpath : string) : Replace :=
  mkReplace (mkVersion mpath "")
            (mkVersion (path.Join [".."; ".."; mpath]) "")
            (replaceTokens mpath "" (path.Join [".."; ".."; mpath]) "").

(** One step of the loop, without the monad. *)
Definition addedTo (md : File) (kv : string * Module_) (rs : list Replace)
  : File :=
  foldl bb.copyReplace
        (AddReplace kv.1 "" (path.Join [".."; ".."; kv.1]) ""
           (AddRequire kv.1 (bb.requiredVersion kv.2) md))
        rs.

Fixpoint goModOf (w : World) (md : File) (l : list (string * Module_))
  : result File :=
  match l with
  | [] => Ok md
  | kv :: l' =>
      match moduleReplaces w kv.2 with
      | Ok rs => goModOf w (addedTo md kv rs) l'
      | Err e => Err e
      | Panic v => Panic v
      end
  end.

(** [AddReplace] as the loop calls it for the directive [c], and what
    it does to the list of directives. *)
Definition addCall (md : File) (c : Replace) : File :=
  AddReplace (VPath (Old c)) (VVersion (Old c))
             (VPath (New c)) (VVersion (New c)) md.

Definition putReplace (l : list Replace) (c : Replace) : list Replace :=
  Replaces (addCall (mkFile None [] l) c).

(** The directive that [AddReplace] adds for the old and the new
    version of [r]: the tokens of its line are made anew. *)
Definition written (r : Replace) : Replace :=
  mkReplace (mkVersion (VPath (Old r)) (VVersion (Old r)))
            (mkVersion (VPath (New r)) (VVersion (New r)))
            (replaceTokens (VPath (Old r)) (VVersion (Old r))
                           (VPath (New r)) (VVersion (New r))).

(** The calls of [AddReplace] for one local module, in their order:
    the local replacement, then the directives of the module's own
    [go.mod] whose target is not a local path. *)
Definition replaceCalls (w : World) (kv : string * Module_) : list Replace :=
  localReplaceOf kv.1
  :: match moduleReplaces w kv.2 with
     | Ok rs =>
         written <$> List.filter
                       (fun r => negb (bb.isLocalPath (VPath (New r)))) rs
     | _ => []
     end.

(** No local module's own [go.mod] has a replace directive for [p] that
    is copied (one with a target that is not a local path). *)
Definition noCopiedFor (w : World) (l : list (string * Module_)) (p : string)
  : Prop :=
  forall kv rs r,
    kv ∈ l -> moduleReplaces w kv.2 = Ok rs -> r ∈ rs ->
    bb.isLocalPath (VPath (New r)) = false -> VPath (Old r) <> p.

Definition noneFor (p : string) (rs : list Replace) : Prop :=
  forall r, r ∈ rs -> bb.isLocalPath (VPath (New r)) = false ->
            VPath (Old r) <> p.

End go_mod_vocabulary.

Section conflict_vocabulary.

Context `{C : Collaborators}.

(** The modules met in the import graphs of the commands. *)
Definition sightings (mainPkgs : list bbinternal.Package) : list Module_ :=
  mainPkgs ≫= (fun p => omap Module (Visit [bbinternal.Pkg p])).

(** The local-module entries: the modules of the commands, and the
    locally replaced modules of each command. *)
Definition localEntries (mainPkgs : list bbinternal.Package) : list Module_ :=
  (omap (fun p => Module (bbinternal.Pkg p)) mainPkgs
     ++ (mainPkgs ≫= fun p =>
           (map_to_list (bb.locallyReplacedModules (bbinternal.Pkg p))).*2))%list.

(** A local-module entry and a module met somewhere have the same path
    and different directories. *)
Definition conflicting (mainPkgs : list bbinternal.Package) : Prop :=
  exists l s,
    l ∈ localEntries mainPkgs /\ s ∈ sightings mainPkgs
    /\ Path l = Path s /\ Dir l <> Dir s.


(** The error of a [go.mod] that could not be copied. *)
Definition isCopyError (e : error) : Prop :=
  exists p err,
    e = bb.Errorf ("failed to copy go.mod for " ++ p ++ ": " ++ Error err).

(** The error of the second loop of [localModules]. *)
Definition conflictError (modPath : string) (original : bb.localModule)
    (pm : Module_) : error :=
  bb.Errorf ("two conflicting versions of module " ++ modPath
               ++ " have been requested; one from "
               ++ bb.provenance original ++ ", the other from "
               ++ Path pm ++ "'s go.mod").

(** What [remoteConflict] writes to standard error on a conflict. *)
Definition conflictLog (l : bb.localModule) (mm pmod : Module_) : list string :=
  [""; "Conflicting module dependencies on " ++ Path pmod ++ ":";
   "  " ++ Path mm ++ " uses " ++ bb.moduleIdentifier pmod;
   "  " ++ bb.provenance l ++ " uses " ++ bb.moduleIdentifier (bb.m l);
   "";
   term_Bold "Suggestion to resolve" ++ ": add `replace " ++ Path pmod
     ++ " => "
     ++ match filepath_Rel (Dir mm) (Dir (bb.m l)) with
        | Ok rel => rel
        | _ => Dir (bb.m l)
        end
     ++ "` to " ++ GoMod mm;
   ""].

(** The map after the first loop of [localModules]: under each module
    path, the module of the first command that has it. *)
Definition topStep (lm : gmap string Module_) (p : bbinternal.Package)
  : gmap string Module_ :=
  match Module (bbinternal.Pkg p) with
  | Some pm =>
      match lm !! Path pm with
      | Some _ => lm
      | None => <[Path pm := pm]> lm
      end
  | None => lm
  end.

Definition topLevel (mainPkgs : list bbinternal.Package) : gmap string Module_ :=
  foldl topStep ∅ mainPkgs.

(** The locally replaced modules of all the commands, each under its
    module path. *)
Definition replacedOf (mainPkgs : list bbinternal.Package)
  : list (string * Module_) :=
  mainPkgs ≫= fun p =>
    map_to_list (bb.locallyReplacedModules (bbinternal.Pkg p)).

(** A locally replaced module clashes with a local module: it is at
    another directory than the top-level module of its path, or than
    another locally replaced module of its path. *)
Definition clashes (mainPkgs : list bbinternal.Package)
    (kv : string * Module_) : bool :=
  match topLevel mainPkgs !! kv.1 with
  | Some l => negb (String.eqb (Dir l) (Dir kv.2))
  | None => false
  end
  || existsb (fun kv' => String.eqb kv'.1 kv.1
                         && negb (String.eqb (Dir kv'.2) (Dir kv.2)))
             (replacedOf mainPkgs).

Definition localClash (mainPkgs : list bbinternal.Package) : bool :=
  existsb (clashes mainPkgs) (replacedOf mainPkgs).

(** Where an entry of the map of local modules comes from: it is the
    top-level module of its path, recorded as the request to compile
    it, or a locally replaced module of a command, recorded with the
    [go.mod] of that command's module. *)
Definition isOrigin (mainPkgs : list bbinternal.Package) (k : string)
    (l : bb.localModule) : Prop :=
  Path (bb.m l) = k
  /\ ((topLevel mainPkgs !! k = Some (bb.m l)
       /\ bb.provenance l
          = "your request to compile " ++ k ++ " from " ++ Dir (bb.m l))
      \/ (exists p pm,
            p ∈ mainPkgs /\ Module (bbinternal.Pkg p) = Some pm
            /\ bb.locallyReplacedModules (bbinternal.Pkg p) !! k = Some (bb.m l)
            /\ bb.provenance l = Path pm ++ "'s go.mod (" ++ GoMod pm ++ ")")).


Definition originsOk (mainPkgs : list bbinternal.Package)
    (lm : gmap string bb.localModule) : Prop :=
  forall k l, lm !! k = Some l -> isOrigin mainPkgs k l.

(** The error of two local modules that clash.  It names the module
    path, where the module recorded first for it comes from, and the
    module of the command whose locally replaced module is at another
    directory. *)
Definition isClashError (mainPkgs : list bbinternal.Package) (e : error)
  : Prop :=
  exists p pm k v original,
    p ∈ mainPkgs /\ Module (bbinternal.Pkg p) = Some pm
    /\ bb.locallyReplacedModules (bbinternal.Pkg p) !! k = Some v
    /\ isOrigin mainPkgs k original /\ Dir (bb.m original) <> Dir v
    /\ e = conflictError k original pm.

(** The conflicts the third loop finds among the packages [pkgs]: the
    local module and the module of a package that have the same path
    and different directories, in the order of the packages. *)
Definition conflictsOf (lm : gmap string bb.localModule) (pkgs : list Package)
  : list (bb.localModule * Module_) :=
  omap (fun pkg =>
          match Module pkg with
          | Some pmod =>
              match lm !! Path pmod with
              | Some l =>
                  if String.eqb (Dir (bb.m l)) (Dir pmod) then None
                  else Some (l, pmod)
              | None => None
              end
          | None => None
          end)
       pkgs.


(** The keys of a map of local modules only grow. *)
Definition keysLe (lm lm' : gmap string bb.localModule) : Prop :=
  forall k, is_Some (lm !! k) -> is_Some (lm' !! k).

(** Every entry of the map is a local-module entry under its own path. *)
Definition entriesOk (mainPkgs : list bbinternal.Package)
    (lm : gmap string bb.localModule) : Prop :=
  forall k e, lm !! k = Some e ->
              Path (bb.m e) = k /\ bb.m e ∈ localEntries mainPkgs.

(** The three loops of [localModules]. *)
Definition loop1 (mainPkgs : list bbinternal.Package) (pkgDir bbDir : string)
  : M (gmap string bb.localModule) :=
  foldM (bb.topLevelModule pkgDir bbDir) ∅ mainPkgs.

Definition loop2 (mainPkgs : list bbinternal.Package) (pkgDir bbDir : string)
    (lm : gmap string bb.localModule) : M (gmap string bb.localModule) :=
  foldM (fun lm p =>
           foldM (bb.replacedModule pkgDir bbDir p) lm
                 (bb.range (bb.locallyReplacedModules (bbinternal.Pkg p))))
        lm mainPkgs.

Definition loop3 (mainPkgs : list bbinternal.Package)
    (lm : gmap string bb.localModule) : M bool :=
  foldM (fun conflict mainPkg =>
           foldM (bb.remoteConflict lm mainPkg) conflict
                 (Visit [bbinternal.Pkg mainPkg]))
        false mainPkgs.

End conflict_vocabulary.

Section tree_vocabulary.

Context `{C : Collaborators}.

(** The calls of [bbmain.Run] while [run] shifts [os.Args] entry by entry. *)
Fixpoint suffixRuns (Args : list string) : list Event :=
  match Args with
  | [] => []
  | a :: rest => BBRun (filepath.Base a) Args :: suffixRuns rest
  end.

(** The two errors of a failed [go build]. *)
Definition isBuildError (e : error) : bool :=
  match e with
  | ErrGopathBuild _ _ _ | ErrModuleBuild _ _ => true
  | _ => false
  end.

(** From the world [w] to the world [w'] no directory and no file was
    removed; a computation [grows] the file system when that holds of
    every run of it. *)
Definition keeps (w w' : World) : Prop :=
  dirs (fs w) ⊆ dirs (fs w')
  /\ forall p, is_Some (files (fs w) !! p) -> is_Some (files (fs w') !! p).

Definition grows {A} (c : M A) : Prop := forall w, keeps w (c w).2.

(** The directory of the module [k] is in the tree under [pkgDir], and
    holds a [go.mod]. *)
Definition inTree (pkgDir : string) (w : World) (k : string) : Prop :=
  path.Clean (filepath.Join [pkgDir; k]) ∈ dirs (fs w)
  /\ is_Some (files (fs w) !! path.Clean (filepath.Join [pkgDir; k; "go.mod"])).

(** [bbinternal.WritePkg] as [dealWithDeps] calls it. *)
Definition writePkg (pkgDir : string) (p : Package) : M unit :=
  orReturn (WritePkg p (filepath.Join [pkgDir; PkgPath p]))
    (fun err => bb.Errorf ("writing package " ++ ID p ++ " failed: "
                             ++ Error err)).

(** The packages of a list whose ID is met for the first time. *)
Fixpoint firstByID (seenIDs : gset string) (l : list Package) : list Package :=
  match l with
  | [] => []
  | p :: l' =>
      if decide (ID p ∈ seenIDs) then firstByID seenIDs l'
      else p :: firstByID ({[ID p]} ∪ seenIDs) l'
  end.

(** One call of [WritePkg] for every package of the list. *)
Definition writeEach (pkgDir : string) (l : list Package) : M unit :=
  foldM (fun _ p => writePkg pkgDir p) tt l.

(** The local dependency packages of all the commands, [localDepPkgs]
    of [dealWithDeps]. *)
Definition localDepPkgs (mainPkgs : list bbinternal.Package)
    (localModules : gmap string Module_) : list Package :=
  mainPkgs ≫= (fun p => bb.collectDeps (bbinternal.Pkg p) localModules).

(** The last part of [dealWithDeps], which writes the [go.mod]. *)
Definition writeGoMod (env : golang.Environ) (bbDir : string)
    (localModules : gmap string Module_) : M unit :=
  if String.eqb (golang.GO111MODULE env) "on" || Nat.ltb 0 (size localModules)
  then
    md ← bb.bbGoMod localModules;
    fsys.WriteFile (filepath.Join [bbDir; "go.mod"]) (modfile.Format md)
  else ret tt.

(** The height of the import graph below a package. *)
Fixpoint depth (pkg : Package) : nat :=
  match pkg with
  | mkPackage _ _ _ imports =>
      S ((fix depth_imports (l : list (string * Package)) : nat :=
            match l with
            | [] => 0
            | (_, q) :: l' => Nat.max (depth q) (depth_imports l')
            end) imports)
  end.

(** A stretch of [Visit]: the packages [new] were appended to the
    list, and their IDs, none of them seen before and no two of them
    the same, were added to the set. *)
Definition visited (st st' : gset string * list Package)
    (new : list Package) : Prop :=
  st'.2 = (st.2 ++ new)%list
  /\ st'.1 = st.1 ∪ list_to_set (ID <$> new)
  /\ NoDup (ID <$> new)
  /\ forall x, x ∈ new -> ID x ∉ st.1.

(** The tests of [collectDeps]: for a command in a module, and for a
    command in none. *)
Definition inLocalModule (localModules : gmap string Module_) (pkg : Package)
  : Prop :=
  bb.locallyReplaced pkg = true
  \/ exists modulePath, is_Some (localModules !! modulePath)
                        /\ strings.HasPrefix (PkgPath pkg) modulePath = true.

Definition firstCompHasDot (pkg : Package) : bool :=
  strings.Contains1 (hd "" (strings.Split1 (PkgPath pkg) path.slash)) ".".

(** A name of a file: an element that [Clean] keeps, with no slash in it. *)
Definition isFileName (e : string) : bool :=
  isRealElem e && negb (strings.Contains1 e path.slash).

(** What a file name is put after: nothing, or a path that ends in a
    slash. *)
Definition isDirPrefix (pfx : string) : Prop :=
  pfx = "" \/ exists q, pfx = q ++ "/".

End tree_vocabulary.

(** * The dispatch stub *)

Section stub_facts.

Import bbmain.

Lemma init_args_shebang (Args : list string) (a1 : string) :
  3 <= length Args -> Args !! 1 = Some a1 ->
  strings.HasPrefix a1 "#!" = true ->
  stub.init_args Args = drop 2 Args.
Proof.
  intros Hlen H1 Hp.
  destruct Args as [|a0 [|a1' [|a2 rest]]]; simpl in *; try lia.
  injection H1 as ->. unfold stub.init_args. now rewrite Hp.
Qed.

Lemma init_args_other (Args : list string) :
  length Args < 3 \/ (forall a1, Args !! 1 = Some a1 ->
                                 strings.HasPrefix a1 "#!" = false) ->
  stub.init_args Args = Args.
Proof.
  intros H.
  destruct Args as [|a0 [|a1 [|a2 rest]]]; try reflexivity.
  destruct H as [H|H]; [simpl in H; lia|].
  unfold stub.init_args. now rewrite (H a1 eq_refl).
Qed.

(** [run] enters [bbmain.Run] with the base name of [os.Args[0]]. *)
Lemma run_cons (r : registry) (a0 : string) (rest : list string) :
  stub.run r (a0 :: rest) =
  BBRun (filepath.Base a0) (a0 :: rest) ::
    match Run (stub.call (stub.run r) (a0 :: rest)) r (filepath.Base a0) with
    | inl t => t
    | inr err => [LogFatal (filepath.Base a0 ++ ": " ++ err)]
    end.
Proof. reflexivity. Qed.

Lemma resolve_not_a_link (fuel : nat) (os : stub.OS) (p : string) :
  stub.symlinks os !! p = None ->
  stub.ResolveUntilLastSymlink (S fuel) os p = Some p.
Proof. intros H. simpl. unfold stub.Readlink. now rewrite H. Qed.

(** On a miss the default handler, which is [m], takes over: the
    arguments are shifted and [run] starts again. *)
Lemma run_miss (r : registry) (a0 a1 : string) (rest : list string) :
  bbCmds r !! filepath.Base a0 = None ->
  defaultCmd r = Some (mkCmd Noop stub_m) ->
  stub.run r (a0 :: a1 :: rest) =
  BBRun (filepath.Base a0) (a0 :: a1 :: rest) :: stub.run r (a1 :: rest).
Proof.
  intros Hmiss Hdef. rewrite run_cons. f_equal.
  unfold Run, find. rewrite Hmiss, Hdef. reflexivity.
Qed.

End stub_facts.

(** C4: when argv has at least three entries and the second begins with
    the two characters [#!], the stub's [init] drops the first two
    entries; in every other case it leaves argv as it is; and for the
    argv [/bbin/bb #!ls /tmp/ls -la], with [/tmp/ls] not a symbolic
    link, [bbmain.Run] is entered with the name [ls] while [os.Args] is
    [/tmp/ls -la]. *)
Theorem C4_shebang_argv (Args : list string) (r : bbmain.registry) :
  (forall a1, 3 <= length Args -> Args !! 1 = Some a1 ->
              strings.HasPrefix a1 "#!" = true ->
              (stub.init Args r).1 = drop 2 Args)
  /\ (length Args < 3 \/
      (forall a1, Args !! 1 = Some a1 -> strings.HasPrefix a1 "#!" = false) ->
      (stub.init Args r).1 = Args)
  /\ (forall fuel os, stub.symlinks os !! "/tmp/ls" = None ->
        exists t,
          stub.process (S fuel) os r ["/bbin/bb"; "#!ls"; "/tmp/ls"; "-la"]
          = Some (BBRun "ls" ["/tmp/ls"; "-la"] :: t)).
Proof.
  split; [|split].
  - intros a1 Hlen H1 Hp. simpl. eapply init_args_shebang; eauto.
  - intros H. simpl. now apply init_args_other.
  - intros fuel os Hl. unfold stub.process, stub.init, stub.main.
    change (stub.init_args ["/bbin/bb"; "#!ls"; "/tmp/ls"; "-la"])
      with ["/tmp/ls"; "-la"].
    cbv iota beta. rewrite (resolve_not_a_link fuel os "/tmp/ls" Hl).
    cbn [mbind option_bind]. rewrite run_cons.
    change (filepath.Base "/tmp/ls") with "ls". eauto.
Qed.

(** The shebang argv of the specification, with no symbolic links. *)
Lemma C4_shebang_argv_witness :
  (stub.init ex.shebangArgv ex.r0).1 = ["/tmp/ls"; "-la"]
  /\ exists t, stub.process 1 ex.plainOS ex.r0 ex.shebangArgv
               = Some (BBRun "ls" ["/tmp/ls"; "-la"] :: t).
Proof.
  split.
  - apply (proj1 (C4_shebang_argv ex.shebangArgv ex.r0) "#!ls");
      [simpl; lia | reflexivity | reflexivity].
  - apply (proj2 (proj2 (C4_shebang_argv ex.shebangArgv ex.r0)) 0 ex.plainOS).
    reflexivity.
Defined.

(** C5, as the code has it: [run] enters [bbmain.Run] with the base
    name of argv[0]; when that name is not registered and argv has at
    least two entries, the default handler shifts argv left by one and
    [run] enters [bbmain.Run] again, now with the base name of the new
    argv[0] (not with the entry in full). *)
Theorem C5_default_shifts_and_takes_base
    (r : bbmain.registry) (a0 a1 : string) (rest : list string) :
  bbmain.bbCmds r !! filepath.Base a0 = None ->
  bbmain.defaultCmd r = Some (bbmain.mkCmd Noop stub_m) ->
  exists t,
    stub.run r (a0 :: a1 :: rest)
    = BBRun (filepath.Base a0) (a0 :: a1 :: rest)
        :: BBRun (filepath.Base a1) (a1 :: rest) :: t
    /\ stub.run r (a1 :: rest) = BBRun (filepath.Base a1) (a1 :: rest) :: t.
Proof.
  intros Hmiss Hdef. rewrite (run_miss r a0 a1 rest Hmiss Hdef).
  rewrite (run_cons r a1 rest). eauto.
Qed.

(** [bb /usr/bin/ls -la] with the commands [ls] and [cat] registered. *)
Lemma C5_default_shifts_and_takes_base_witness :
  exists t,
    stub.run (stub.init [] ex.r0).2 ["/bbin/bb"; "/usr/bin/ls"; "-la"]
    = BBRun "bb" ["/bbin/bb"; "/usr/bin/ls"; "-la"]
        :: BBRun "ls" ["/usr/bin/ls"; "-la"] :: t
    /\ stub.run (stub.init [] ex.r0).2 ["/usr/bin/ls"; "-la"]
       = BBRun "ls" ["/usr/bin/ls"; "-la"] :: t.
Proof.
  apply (C5_default_shifts_and_takes_base
           (stub.init [] ex.r0).2 "/bbin/bb" "/usr/bin/ls" ["-la"]);
    reflexivity.
Defined.

(** C5 as stated fails: [bb /usr/bin/ls -la] misses on [bb], and after
    the shift the name looked up is [ls], the base name, and not the
    full entry [/usr/bin/ls]. *)
Lemma C5_full_entry_counterexample :
  let r := (stub.init [] ex.r0).2 in
  bbmain.bbCmds r !! filepath.Base "/bbin/bb" = None
  /\ stub.run r ["/bbin/bb"; "/usr/bin/ls"; "-la"]
     = [BBRun "bb" ["/bbin/bb"; "/usr/bin/ls"; "-la"];
        BBRun "ls" ["/usr/bin/ls"; "-la"];
        Call (CommandFunc "ls.init") ["/usr/bin/ls"; "-la"];
        Call (CommandFunc "ls.main") ["/usr/bin/ls"; "-la"];
        Exit 0]
  /\ ~ (exists t,
          stub.run r ["/bbin/bb"; "/usr/bin/ls"; "-la"]
          = BBRun "bb" ["/bbin/bb"; "/usr/bin/ls"; "-la"]
              :: BBRun "/usr/bin/ls" ["/usr/bin/ls"; "-la"] :: t).
Proof.
  split; [reflexivity|]. split; [reflexivity|].
  intros [t Ht]. vm_compute in Ht. discriminate Ht.
Qed.

(** C10: whatever the commands' [init]s registered, after the stub's
    [init] the registry has an entry [bbdiagnose] (no init chain, entry
    [ListCmds]) and the default handler [m]; the other entries are as
    they were; a name that is not registered is answered by the default
    handler; and running as [bbdiagnose] calls [ListCmds]. *)
Theorem C10_init_registers_bbdiagnose_and_default
    (Args : list string) (r0 : bbmain.registry) :
  let r := (stub.init Args r0).2 in
  bbmain.bbCmds r !! "bbdiagnose" = Some (bbmain.mkCmd Noop ListCmds)
  /\ bbmain.defaultCmd r = Some (bbmain.mkCmd Noop stub_m)
  /\ (forall name, name <> "bbdiagnose" ->
        bbmain.bbCmds r !! name = bbmain.bbCmds r0 !! name)
  /\ (forall name, bbmain.bbCmds r !! name = None ->
        bbmain.find r name = Some (bbmain.mkCmd Noop stub_m))
  /\ (forall a0 rest, filepath.Base a0 = "bbdiagnose" ->
        stub.run r (a0 :: rest)
        = [BBRun "bbdiagnose" (a0 :: rest); Call ListCmds (a0 :: rest); Exit 0]).
Proof.
  unfold stub.init, bbmain.RegisterDefault, bbmain.Register.
  cbn [snd bbmain.bbCmds bbmain.defaultCmd]. repeat split.
  - apply lookup_insert_eq.
  - intros name Hne. now apply lookup_insert_ne.
  - intros name Hnone. unfold bbmain.find.
    cbn [bbmain.bbCmds bbmain.defaultCmd]. now rewrite Hnone.
  - intros a0 rest Hb. rewrite run_cons, Hb. unfold bbmain.Run, bbmain.find.
    cbn [bbmain.bbCmds bbmain.defaultCmd]. now rewrite lookup_insert_eq.
Qed.

(** * The builder: duplicate command names *)

Section duplicates.

Import bbinternal.

Lemma checkDuplicate_from_spec (cmds pre : list bbinternal.Package)
    (seen : gmap string string) :
  seenOf pre seen -> NoDup (Name <$> pre) ->
  match bb.checkDuplicate_from seen cmds with
  | None => NoDup (Name <$> (pre ++ cmds)%list)
  | Some e =>
      exists i j ci cj,
        i < j /\ (pre ++ cmds)%list !! i = Some ci
        /\ (pre ++ cmds)%list !! j = Some cj
        /\ Name ci = Name cj /\ e = duplicateError ci cj
  end.
Proof.
  revert pre seen. induction cmds as [|cmd rest IH]; intros pre seen Hseen Hnd.
  - simpl. now rewrite app_nil_r.
  - simpl. destruct (seen !! Name cmd) as [p|] eqn:Hl.
    + apply Hseen in Hl as (i & c & Hi & Hn & Hp).
      exists i, (length pre), c, cmd. repeat split.
      * now apply lookup_lt_Some in Hi.
      * now apply lookup_app_l_Some.
      * rewrite lookup_app_r by lia. now rewrite Nat.sub_diag.
      * done.
      * unfold duplicateError. now rewrite Hp.
    + specialize (IH (pre ++ [cmd])%list
                     (<[Name cmd := PkgPath (Pkg cmd)]> seen)).
      rewrite <- app_assoc in IH. simpl in IH. apply IH.
      * intros n p. split.
        -- intros Hin. destruct (decide (Name cmd = n)) as [<-|Hne].
           ++ rewrite lookup_insert_eq in Hin. injection Hin as <-.
              exists (length pre), cmd. split; [|done].
              rewrite lookup_app_r by lia. now rewrite Nat.sub_diag.
           ++ rewrite lookup_insert_ne in Hin by done.
              apply Hseen in Hin as (i & c & Hi & Hn & Hp).
              exists i, c. split; [|done]. now apply lookup_app_l_Some.
        -- intros (i & c & Hi & Hn & Hp).
           apply lookup_app_Some in Hi as [Hi|[Hge Hi]].
           ++ destruct (decide (Name cmd = n)) as [He|Hne].
              ** exfalso. assert (seen !! Name cmd = Some p) as Hs.
                 { apply Hseen. exists i, c. now rewrite He. }
                 congruence.
              ** rewrite lookup_insert_ne by done. apply Hseen. eauto.
           ++ destruct (i - length pre) as [|k] eqn:Hk; [|now destruct k].
              simpl in Hi. injection Hi as <-. subst n p.
              apply lookup_insert_eq.
      * rewrite fmap_app. simpl. apply NoDup_app. split; [done|]. split.
        -- intros n Hin Hin'. apply list_elem_of_singleton in Hin'. subst n.
           apply list_elem_of_fmap in Hin as (c & Hc & Hcin).
           apply list_elem_of_lookup in Hcin as [i Hi].
           assert (seen !! Name cmd = Some (PkgPath (Pkg c))) as Hs.
           { apply Hseen. exists i, c. done. }
           congruence.
        -- apply NoDup_singleton.
Qed.

Lemma checkDuplicate_spec (cmds : list bbinternal.Package) :
  match bb.checkDuplicate cmds with
  | None => NoDup (Name <$> cmds)
  | Some e =>
      exists i j ci cj,
        i < j /\ cmds !! i = Some ci /\ cmds !! j = Some cj
        /\ Name ci = Name cj /\ e = duplicateError ci cj
  end.
Proof.
  apply (checkDuplicate_from_spec cmds [] ∅).
  - intros n p. rewrite lookup_empty. split; [done|].
    intros (i & c & Hi & _). now rewrite lookup_nil in Hi.
  - constructor.
Qed.

Lemma same_name_not_NoDup (cmds : list bbinternal.Package) (i j : nat)
    (ci cj : bbinternal.Package) :
  i <> j -> cmds !! i = Some ci -> cmds !! j = Some cj -> Name ci = Name cj ->
  ~ NoDup (Name <$> cmds).
Proof.
  intros Hij Hi Hj Hn Hnd. apply Hij.
  eapply (NoDup_lookup _ i j (Name ci) Hnd); rewrite list_lookup_fmap.
  - now rewrite Hi.
  - rewrite Hj. simpl. now rewrite Hn.
Qed.

End duplicates.

(** * The monad and the file system: basic facts *)

Section monad_facts.

Lemma bind_Ok {A B} (c : M A) (k : A -> M B) (w w' : World) (a : A) :
  c w = (Ok a, w') -> (c ≫= k) w = k a w'.
Proof. intros H. unfold mbind, M_bind, bind. now rewrite H. Qed.

Lemma bind_Err {A B} (c : M A) (k : A -> M B) (w w' : World) (e : error) :
  c w = (Err e, w') -> (c ≫= k) w = (Err e, w').
Proof. intros H. unfold mbind, M_bind, bind. now rewrite H. Qed.

Lemma bind_Panic {A B} (c : M A) (k : A -> M B) (w w' : World) (v : error) :
  c w = (Panic v, w') -> (c ≫= k) w = (Panic v, w').
Proof. intros H. unfold mbind, M_bind, bind. now rewrite H. Qed.

Lemma string_app_nil_r (s : string) : s ++ "" = s.
Proof. induction s as [|c s IH]; [done|]. change (String c (s ++ "") = String c s). now rewrite IH. Qed.

Lemma string_app_assoc (s t u : string) : (s ++ t) ++ u = s ++ (t ++ u).
Proof.
  induction s as [|c s IH]; [done|].
  change (String c ((s ++ t) ++ u) = String c (s ++ (t ++ u))). now rewrite IH.
Qed.

(** The path itself is the last of its prefixes. *)
Lemma prefixes_self (s acc : string) : acc ++ s ∈ fsys.prefixes acc s.
Proof.
  revert acc. induction s as [|c s IH]; intros acc.
  - rewrite string_app_nil_r. simpl. constructor.
  - cbn [fsys.prefixes]. destruct (Ascii.eqb_spec c path.slash) as [->|Hne].
    + apply elem_of_app. right.
      specialize (IH (acc ++ "/")). now rewrite string_app_assoc in IH.
    + specialize (IH (acc ++ String c "")). now rewrite string_app_assoc in IH.
Qed.

Lemma ancestors_self (p : string) : path.Clean p ∈ fsys.ancestors p.
Proof. apply (prefixes_self (path.Clean p) ""). Qed.

(** [MkdirAll] writes no file and removes no directory; when it
    succeeds the directory is there. *)
Lemma MkdirAll_spec (p : string) (w w' : World) (r : result unit) :
  fsys.MkdirAll p w = (r, w') ->
  files (fs w') = files (fs w) /\ dirs (fs w) ⊆ dirs (fs w')
  /\ stderr w' = stderr w
  /\ (r = Ok tt -> path.Clean p ∈ dirs (fs w')).
Proof.
  unfold fsys.MkdirAll, mbind, M_bind, bind, getFS, putFS, fail.
  destruct (existsb _ _); intros [= <- <-]; simpl.
  - repeat split; [done|discriminate].
  - repeat split; [set_solver|].
    intros _. apply elem_of_union. left. apply elem_of_list_to_set.
    apply ancestors_self.
Qed.

Lemma ReadDir_world (d : string) (w w' : World) (r : result (list string)) :
  fsys.ReadDir d w = (r, w') -> w' = w.
Proof.
  unfold fsys.ReadDir, mbind, M_bind, bind, getFS, fail, mret, M_ret, ret.
  destruct (fsys.isDir _ _); [now intros [= _ <-]|].
  destruct (fsys.isFile _ _); now intros [= _ <-].
Qed.

End monad_facts.

(** * The builder: up to the checks on the commands *)

Section build_facts.

Context `{C : Collaborators}.

(** Preparing the directory of the generated tree writes no file. *)
Lemma genDir_spec (opts : bb.Opts) (w w' : World)
    (r : result (string * bool)) :
  bb.genDir opts w = (r, w') ->
  files (fs w') = files (fs w) /\ dirs (fs w) ⊆ dirs (fs w')
  /\ stderr w' = stderr w.
Proof.
  unfold bb.genDir. destruct (negb _).
  - unfold bb.useGenSrcDir, bb.attempt, mbind, M_bind, bind.
    destruct (fsys.ReadDir _ w) as [rd w0] eqn:Hrd.
    apply ReadDir_world in Hrd as ->.
    destruct rd as [dirents|err|v].
    + destruct (Nat.ltb _ _); cbn; now intros [= <- <-].
    + destruct (os.IsNotExist err); [|cbn; now intros [= <- <-]].
      unfold orReturn.
      destruct (fsys.MkdirAll _ w) as [[[]|e|v] w1] eqn:Hmk;
        apply MkdirAll_spec in Hmk as (Hf & Hd & Hs & _);
        cbn; intros [= <- <-]; done.
    + now intros [= <- <-].
  - destruct (bb.GenerateOnly opts); [cbn; now intros [= <- <-]|].
    unfold bb.TempDir, mbind, M_bind, bind, getFS.
    destruct (fsys.MkdirAll _ w) as [[[]|e|v] w1] eqn:Hmk;
      apply MkdirAll_spec in Hmk as (Hf & Hd & Hs & _);
      cbn; intros [= <- <-]; done.
Qed.

Lemma BuildBusybox_buildIn_Err (opts : bb.Opts) (w w1 w2 : World)
    (tmpDir : string) (temporary : bool) (err : error) :
  Env_Valid (bb.Env opts) = None ->
  bb.genDir opts w = (Ok (tmpDir, temporary), w1) ->
  bb.buildIn opts tmpDir w1 = (Err err, w2) ->
  bb.BuildBusybox (Some opts) w = (Err err, afterError tmpDir temporary w2).
Proof.
  intros Hv Hg Hb. unfold bb.BuildBusybox. rewrite Hv.
  rewrite (bind_Ok _ _ _ _ _ Hg). destruct temporary; [|done].
  unfold bb.defer. rewrite Hb. reflexivity.
Qed.

(** [buildIn] fails with the error of the first check that fails. *)
Lemma buildIn_checks (opts : bb.Opts) (w1 w2 : World) (tmpDir : string)
    (cmds : list bbinternal.Package) (err : error) :
  fsys.MkdirAll (filepath.Join [tmpDir; "src/bb.u-root.com/bb"]) w1
    = (Ok tt, w2) ->
  findpkg_NewPackages (bb.Env opts) (bb.CommandPaths opts) = Ok cmds ->
  bb.checkDuplicate cmds = Some err
  \/ (bb.checkDuplicate cmds = None
      /\ bb.mixedModeCheck (bb.AllowMixedMode opts) cmds = Some err) ->
  bb.buildIn opts tmpDir w1 = (Err err, w2).
Proof.
  intros Hmk Hload Hchk. unfold bb.buildIn.
  rewrite (bind_Ok _ _ _ _ _ Hmk).
  erewrite bind_Ok; [|unfold orReturn; rewrite Hload; reflexivity].
  destruct cmds as [|c cmds].
  { exfalso. destruct Hchk as [H|[_ H]]; [discriminate H|].
    unfold bb.mixedModeCheck in H. cbn in H.
    rewrite size_empty in H. destruct (bb.AllowMixedMode opts); discriminate H. }
  cbn [length Nat.eqb].
  destruct Hchk as [H|[H1 H2]].
  - now rewrite H.
  - now rewrite H1, H2.
Qed.

End build_facts.

(** * C2 and C3: duplicate command names *)

(** C2: when two distinct commands of the loaded list have the same
    name, [checkDuplicate] returns an error that names the name and the
    package paths of two such commands, and [BuildBusybox] fails with
    that error as soon as it has its directory and the loaded list;
    when the names are pairwise distinct, [checkDuplicate] returns no
    error. *)
Theorem C2_duplicate_command_names `{C : Collaborators}
    (cmds : list bbinternal.Package) :
  (forall i j ci cj,
      i <> j -> cmds !! i = Some ci -> cmds !! j = Some cj ->
      bbinternal.Name ci = bbinternal.Name cj ->
      exists i' j' ci' cj',
        i' < j' /\ cmds !! i' = Some ci' /\ cmds !! j' = Some cj'
        /\ bbinternal.Name ci' = bbinternal.Name cj'
        /\ bb.checkDuplicate cmds = Some (duplicateError ci' cj')
        /\ forall opts w w1 w2 tmpDir temporary,
             Env_Valid (bb.Env opts) = None ->
             bb.genDir opts w = (Ok (tmpDir, temporary), w1) ->
             fsys.MkdirAll (filepath.Join [tmpDir; "src/bb.u-root.com/bb"]) w1
               = (Ok tt, w2) ->
             findpkg_NewPackages (bb.Env opts) (bb.CommandPaths opts) = Ok cmds ->
             (bb.BuildBusybox (Some opts) w).1 = Err (duplicateError ci' cj'))
  /\ (NoDup (bbinternal.Name <$> cmds) -> bb.checkDuplicate cmds = None).
Proof.
  pose proof (checkDuplicate_spec cmds) as Hspec. split.
  - intros i j ci cj Hij Hi Hj Hn.
    destruct (bb.checkDuplicate cmds) as [e|] eqn:Hc.
    + destruct Hspec as (i' & j' & ci' & cj' & Hlt & Hi' & Hj' & Hn' & ->).
      exists i', j', ci', cj'. repeat split; try done.
      intros opts w w1 w2 tmpDir temporary Hv Hg Hmk Hload.
      erewrite BuildBusybox_buildIn_Err; [reflexivity|done|exact Hg|].
      eapply buildIn_checks; eauto.
    + exfalso. eapply same_name_not_NoDup; eauto.
  - intros Hnd. destruct (bb.checkDuplicate cmds) as [e|]; [|done].
    destruct Hspec as (i' & j' & ci' & cj' & Hlt & Hi' & Hj' & Hn' & _).
    exfalso. eapply (same_name_not_NoDup cmds i' j'); eauto. lia.
Qed.

(** The commands [foo/ls] and [bar/ls]. *)
Lemma C2_duplicate_command_names_witness :
  exists i' j' ci' cj',
    i' < j' /\ [ex.fooLs; ex.barLs] !! i' = Some ci'
    /\ [ex.fooLs; ex.barLs] !! j' = Some cj'
    /\ bbinternal.Name ci' = bbinternal.Name cj'
    /\ bb.checkDuplicate [ex.fooLs; ex.barLs] = Some (duplicateError ci' cj')
    /\ forall opts w w1 w2 tmpDir temporary,
         @Env_Valid ex.dupC (bb.Env opts) = None ->
         @bb.genDir ex.dupC opts w = (Ok (tmpDir, temporary), w1) ->
         fsys.MkdirAll (filepath.Join [tmpDir; "src/bb.u-root.com/bb"]) w1
           = (Ok tt, w2) ->
         @findpkg_NewPackages ex.dupC (bb.Env opts) (bb.CommandPaths opts)
           = Ok [ex.fooLs; ex.barLs] ->
         (@bb.BuildBusybox ex.dupC (Some opts) w).1 = Err (duplicateError ci' cj').
Proof.
  apply (proj1 (@C2_duplicate_command_names ex.dupC [ex.fooLs; ex.barLs])
               0 1 ex.fooLs ex.barLs); [lia|reflexivity|reflexivity|reflexivity].
Defined.

(** C3, as the code has it: when [BuildBusybox] fails on a duplicate
    command name, no regular file has been written or changed; the
    directories of the generated tree, in particular
    [src/bb.u-root.com/bb] under its root, have been created by then. *)
Theorem C3_duplicate_error_writes_no_file `{C : Collaborators}
    (opts : bb.Opts) (w w1 w2 : World) (tmpDir : string) (temporary : bool)
    (cmds : list bbinternal.Package) (err : error) :
  Env_Valid (bb.Env opts) = None ->
  bb.genDir opts w = (Ok (tmpDir, temporary), w1) ->
  fsys.MkdirAll (filepath.Join [tmpDir; "src/bb.u-root.com/bb"]) w1
    = (Ok tt, w2) ->
  findpkg_NewPackages (bb.Env opts) (bb.CommandPaths opts) = Ok cmds ->
  bb.checkDuplicate cmds = Some err ->
  (bb.BuildBusybox (Some opts) w).1 = Err err
  /\ files (fs (bb.BuildBusybox (Some opts) w).2) = files (fs w)
  /\ dirs (fs w) ⊆ dirs (fs (bb.BuildBusybox (Some opts) w).2)
  /\ path.Clean (filepath.Join [tmpDir; "src/bb.u-root.com/bb"])
       ∈ dirs (fs (bb.BuildBusybox (Some opts) w).2).
Proof.
  intros Hv Hg Hmk Hload Hdup.
  rewrite (BuildBusybox_buildIn_Err opts w w1 w2 tmpDir temporary err Hv Hg).
  2:{ eapply buildIn_checks; eauto. }
  cbn [fst snd].
  apply genDir_spec in Hg as (Hf1 & Hd1 & _).
  apply MkdirAll_spec in Hmk as (Hf2 & Hd2 & _ & Hin).
  assert (fs (afterError tmpDir temporary w2) = fs w2) as ->
    by now destruct temporary.
  repeat split.
  - congruence.
  - set_solver.
  - now apply Hin.
Qed.

(** The commands [foo/ls] and [bar/ls], built into the empty directory [/gen]. *)
Lemma C3_duplicate_error_writes_no_file_witness :
  (@bb.BuildBusybox ex.dupC (Some (ex.genOpts false)) ex.emptyGen).1
    = Err (duplicateError ex.fooLs ex.barLs)
  /\ files (fs (@bb.BuildBusybox ex.dupC (Some (ex.genOpts false)) ex.emptyGen).2)
     = files (fs ex.emptyGen)
  /\ dirs (fs ex.emptyGen)
       ⊆ dirs (fs (@bb.BuildBusybox ex.dupC (Some (ex.genOpts false)) ex.emptyGen).2)
  /\ path.Clean (filepath.Join ["/gen"; "src/bb.u-root.com/bb"])
       ∈ dirs (fs (@bb.BuildBusybox ex.dupC (Some (ex.genOpts false)) ex.emptyGen).2).
Proof.
  apply (@C3_duplicate_error_writes_no_file ex.dupC (ex.genOpts false)
           ex.emptyGen ex.emptyGen
           (fsys.MkdirAll (filepath.Join ["/gen"; "src/bb.u-root.com/bb"])
                          ex.emptyGen).2
           "/gen" false [ex.fooLs; ex.barLs]);
    vm_compute; reflexivity.
Defined.

(** C3 as stated fails: after the duplicate-name error the directory
    given for the generated tree, empty before, holds [src]; the tree
    is not left empty or untouched. *)
Lemma C3_tree_not_empty_counterexample :
  (@bb.BuildBusybox ex.dupC (Some (ex.genOpts false)) ex.emptyGen).1
    = Err (errorString
             "failed to build with bb: found duplicate command ls (example.com/foo/ls and example.com/bar/ls)")
  /\ (fsys.ReadDir "/gen" ex.emptyGen).1 = Ok []
  /\ (fsys.ReadDir "/gen"
        (@bb.BuildBusybox ex.dupC (Some (ex.genOpts false)) ex.emptyGen).2).1
     = Ok ["src"]
  /\ fs (@bb.BuildBusybox ex.dupC (Some (ex.genOpts false)) ex.emptyGen).2
     <> fs ex.emptyGen.
Proof.
  split; [vm_compute; reflexivity|].
  split; [vm_compute; reflexivity|].
  split; [vm_compute; reflexivity|].
  intros H.
  assert (fsys.isDir (fs (@bb.BuildBusybox ex.dupC (Some (ex.genOpts false))
                            ex.emptyGen).2) "/gen/src" = true) as Hd
    by (vm_compute; reflexivity).
  rewrite H in Hd. vm_compute in Hd. discriminate Hd.
Qed.

(** * C9: mixing commands with and without a module *)

Section mixed_mode.

Context `{C : Collaborators}.

Lemma mainModules_cons (c : bbinternal.Package)
    (cmds : list bbinternal.Package) :
  mainModules (c :: cmds)
  = match Module (bbinternal.Pkg c) with
    | Some pm => Path pm :: mainModules cmds
    | None => mainModules cmds
    end.
Proof.
  unfold mainModules. simpl. now destruct (Module (bbinternal.Pkg c)).
Qed.

Lemma countModules_foldl (cmds : list bbinternal.Package)
    (ms : gset string) (n : nat) :
  foldl (fun '(modules, numNoModule) cmd =>
           match Module (bbinternal.Pkg cmd) with
           | Some pm => ({[Path pm]} ∪ modules, numNoModule)
           | None => (modules, S numNoModule)
           end) (ms, n) cmds
  = (list_to_set (mainModules cmds) ∪ ms,
     n + length (List.filter (fun c => negb (hasModule c)) cmds)).
Proof.
  revert ms n. induction cmds as [|c cmds IH]; intros ms n.
  - simpl. f_equal; [|lia]. symmetry. apply (left_id_L (∅ : gset string) (∪)).
  - cbn [foldl List.filter]. rewrite mainModules_cons. unfold hasModule at 1.
    destruct (Module (bbinternal.Pkg c)) as [pm|]; cbn [negb].
    + rewrite IH. f_equal. apply set_eq. intros x.
      rewrite !elem_of_union, !elem_of_list_to_set, elem_of_cons,
        elem_of_singleton. tauto.
    + rewrite IH. f_equal. cbn [length]. lia.
Qed.

Lemma countModules_spec (cmds : list bbinternal.Package) :
  bb.countModules cmds
  = (list_to_set (mainModules cmds),
     length (List.filter (fun c => negb (hasModule c)) cmds)).
Proof.
  unfold bb.countModules. rewrite countModules_foldl. f_equal.
  apply (right_id_L (∅ : gset string) (∪)).
Qed.

Lemma mainModules_elem (cmds : list bbinternal.Package) (p : string) :
  p ∈ mainModules cmds <->
  exists c pm, c ∈ cmds /\ Module (bbinternal.Pkg c) = Some pm /\ Path pm = p.
Proof.
  unfold mainModules. rewrite list_elem_of_omap. split.
  - intros (c & Hc & Hm). destruct (Module (bbinternal.Pkg c)) as [pm|] eqn:E;
      [|discriminate]. injection Hm as <-. eauto.
  - intros (c & pm & Hc & Hm & <-). exists c. split; [done|]. now rewrite Hm.
Qed.

Lemma noModule_count_pos (cmds : list bbinternal.Package) :
  0 < length (List.filter (fun c => negb (hasModule c)) cmds) <->
  exists c, c ∈ cmds /\ Module (bbinternal.Pkg c) = None.
Proof.
  split.
  - intros Hlen.
    destruct (List.filter _ cmds) as [|c l] eqn:E; [simpl in Hlen; lia|].
    assert (In c (List.filter (fun c => negb (hasModule c)) cmds)) as Hin
      by (rewrite E; now left).
    apply filter_In in Hin as [Hin Hn]. exists c. split.
    + now apply list_elem_of_In.
    + unfold hasModule in Hn. now destruct (Module (bbinternal.Pkg c)).
  - intros (c & Hc & Hn).
    assert (In c (List.filter (fun c => negb (hasModule c)) cmds)) as Hin.
    { apply filter_In. split; [now apply list_elem_of_In|].
      unfold hasModule. now rewrite Hn. }
    destruct (List.filter _ cmds); [destruct Hin|simpl; lia].
Qed.

Lemma listStrings_perm (s : gset string) : bb.listStrings s ≡ₚ elements s.
Proof. apply rangeOrder_perm. Qed.

End mixed_mode.

(** C9: with [AllowMixedMode] off, a command in a module and a command
    in none make the check fail with an error that lists the paths of
    the commands' modules (in the order the map is walked), and
    [BuildBusybox] returns that error once the names were found
    distinct; with [AllowMixedMode] on, or when all commands have a
    module, or none of them has one, the check passes. *)
Theorem C9_mixed_mode `{C : Collaborators} (opts : bb.Opts)
    (cmds : list bbinternal.Package) :
  (bb.AllowMixedMode opts = false ->
   (exists c pm, c ∈ cmds /\ Module (bbinternal.Pkg c) = Some pm) ->
   (exists c, c ∈ cmds /\ Module (bbinternal.Pkg c) = None) ->
   exists l,
     l ≡ₚ elements (list_to_set (mainModules cmds) : gset string)
     /\ (forall c pm, c ∈ cmds -> Module (bbinternal.Pkg c) = Some pm ->
                      Path pm ∈ l)
     /\ bb.mixedModeCheck (bb.AllowMixedMode opts) cmds
        = Some (mixedModeError l)
     /\ forall w w1 w2 tmpDir temporary,
          Env_Valid (bb.Env opts) = None ->
          bb.genDir opts w = (Ok (tmpDir, temporary), w1) ->
          fsys.MkdirAll (filepath.Join [tmpDir; "src/bb.u-root.com/bb"]) w1
            = (Ok tt, w2) ->
          findpkg_NewPackages (bb.Env opts) (bb.CommandPaths opts) = Ok cmds ->
          bb.checkDuplicate cmds = None ->
          (bb.BuildBusybox (Some opts) w).1 = Err (mixedModeError l))
  /\ (bb.AllowMixedMode opts = true
      \/ (forall c, c ∈ cmds -> Module (bbinternal.Pkg c) <> None)
      \/ (forall c, c ∈ cmds -> Module (bbinternal.Pkg c) = None) ->
      bb.mixedModeCheck (bb.AllowMixedMode opts) cmds = None).
Proof.
  unfold bb.mixedModeCheck. rewrite countModules_spec. split.
  - intros Hallow (c & pm & Hc & Hm) Hnone.
    exists (bb.listStrings (list_to_set (mainModules cmds))).
    assert (bb.mixedModeCheck (bb.AllowMixedMode opts) cmds
            = Some (mixedModeError
                      (bb.listStrings (list_to_set (mainModules cmds))))) as Hchk.
    { unfold bb.mixedModeCheck. rewrite countModules_spec, Hallow.
      apply noModule_count_pos in Hnone. apply Nat.ltb_lt in Hnone.
      rewrite Hnone.
      assert (0 < size (list_to_set (mainModules cmds) : gset string)) as Hs.
      { assert (size (list_to_set (mainModules cmds) : gset string) <> 0);
          [|lia].
        apply size_non_empty_iff. intros He.
        assert (Path pm ∈ (list_to_set (mainModules cmds) : gset string)) as Hin.
        { apply elem_of_list_to_set, mainModules_elem. eauto. }
        apply He in Hin. now apply not_elem_of_empty in Hin. }
      apply Nat.ltb_lt in Hs. rewrite Hs. reflexivity. }
    split; [apply listStrings_perm|]. split; [|split].
    + intros c' pm' Hc' Hm'. rewrite listStrings_perm.
      apply elem_of_elements, elem_of_list_to_set, mainModules_elem. eauto.
    + unfold bb.mixedModeCheck in Hchk. now rewrite countModules_spec in Hchk.
    + intros w w1 w2 tmpDir temporary Hv Hg Hmk Hload Hdup.
      erewrite BuildBusybox_buildIn_Err; [reflexivity|done|exact Hg|].
      eapply buildIn_checks; eauto.
  - intros [Hallow|[Hall|Hnone]].
    + now rewrite Hallow.
    + assert (length (List.filter (fun c => negb (hasModule c)) cmds) = 0) as ->.
      { destruct (length _) eqn:E; [done|]. exfalso.
        assert (0 < length (List.filter (fun c => negb (hasModule c)) cmds)) as Hp
          by lia.
        apply noModule_count_pos in Hp as (c & Hc & Hn). now apply (Hall c). }
      cbn [Nat.ltb Nat.leb]. now rewrite !andb_false_r.
    + assert (list_to_set (mainModules cmds) = (∅ : gset string)) as ->.
      { apply set_eq. intros p. rewrite elem_of_list_to_set, mainModules_elem.
        split; [|intros H; now apply not_elem_of_empty in H].
        intros (c & pm & Hc & Hm & _). rewrite (Hnone c Hc) in Hm. discriminate. }
      rewrite size_empty. cbn [Nat.ltb Nat.leb].
      now rewrite andb_false_r.
Qed.

(** The command [cat] of module [b] and the command [ls] of no module. *)
Lemma C9_mixed_mode_witness :
  exists l,
    l ≡ₚ elements (list_to_set (mainModules [ex.cmdB; ex.fooLs]) : gset string)
    /\ (forall c pm, c ∈ [ex.cmdB; ex.fooLs] ->
                     Module (bbinternal.Pkg c) = Some pm -> Path pm ∈ l)
    /\ @bb.mixedModeCheck ex.mixedC (bb.AllowMixedMode (ex.genOpts false))
         [ex.cmdB; ex.fooLs] = Some (mixedModeError l)
    /\ forall w w1 w2 tmpDir temporary,
         @Env_Valid ex.mixedC (bb.Env (ex.genOpts false)) = None ->
         @bb.genDir ex.mixedC (ex.genOpts false) w = (Ok (tmpDir, temporary), w1) ->
         fsys.MkdirAll (filepath.Join [tmpDir; "src/bb.u-root.com/bb"]) w1
           = (Ok tt, w2) ->
         @findpkg_NewPackages ex.mixedC (bb.Env (ex.genOpts false))
           (bb.CommandPaths (ex.genOpts false)) = Ok [ex.cmdB; ex.fooLs] ->
         bb.checkDuplicate [ex.cmdB; ex.fooLs] = None ->
         (@bb.BuildBusybox ex.mixedC (Some (ex.genOpts false)) w).1
         = Err (mixedModeError l).
Proof.
  apply (proj1 (@C9_mixed_mode ex.mixedC (ex.genOpts false) [ex.cmdB; ex.fooLs])).
  - reflexivity.
  - exists ex.cmdB, ex.modB. split; [left|reflexivity].
  - exists ex.fooLs. split; [right; left|reflexivity].
Defined.

(** The run of C9's example: the error names the module [example.com/b]. *)
Example mixed_mode_run :
  (@bb.BuildBusybox ex.mixedC (Some (ex.genOpts false)) ex.emptyGen).1
  = Err (errorString
           "busybox does not support mixed module/non-module compilation -- commands contain main modules example.com/b")
  /\ (@bb.BuildBusybox ex.mixedC (Some (ex.genOpts true)) ex.emptyGen).1
     <> Err (errorString
           "busybox does not support mixed module/non-module compilation -- commands contain main modules example.com/b").
Proof. split; [vm_compute; reflexivity|]. vm_compute. discriminate. Qed.

(** * The [go.mod] of the busybox *)

Section modfile_facts.

Import modfile.

Lemma setRequire_absent (p vers : string) (need : bool) (l : list Require) :
  Forall (fun r => VPath (Mod r) <> p) l ->
  setRequire p vers need l = (l, need).
Proof.
  induction 1 as [|r l Hr _ IH]; [done|].
  cbn [setRequire]. destruct (String.eqb_spec (VPath (Mod r)) p); [done|].
  now rewrite IH.
Qed.

Lemma AddRequire_absent (p vers : string) (f : File) :
  Forall (fun r => VPath (Mod r) <> p) (Requires f) ->
  AddRequire p vers f
  = mkFile (Module f) (Requires f ++ [mkRequire (mkVersion p vers)]) (Replaces f).
Proof. intros H. unfold AddRequire. now rewrite setRequire_absent. Qed.

Lemma AddReplace_Requires (o ov n nv : string) (f : File) :
  Requires (AddReplace o ov n nv f) = Requires f
  /\ Module (AddReplace o ov n nv f) = Module f.
Proof. unfold AddReplace. now destruct (setReplace _ _ _ _ _ _). Qed.

Lemma setReplace_absent (o ov : string) (new : Version) (tokens : list string)
    (need : bool) (l : list Replace) :
  Forall (fun r => answers o ov r = false) l ->
  setReplace o ov new tokens need l = (l, need).
Proof.
  induction 1 as [|r l Hr _ IH]; [done|].
  cbn [setReplace]. unfold answers in Hr. rewrite Hr. now rewrite IH.
Qed.

(** A directive for another old path stays as it is. *)
Lemma setReplace_other (o ov : string) (new : Version) (tokens : list string)
    (need : bool) (l : list Replace) (r : Replace) :
  r ∈ l -> VPath (Old r) <> o ->
  r ∈ (setReplace o ov new tokens need l).1.
Proof.
  intros Hin Hne. revert need. induction l as [|x l IH]; intros need.
  - now apply elem_of_nil in Hin.
  - cbn [setReplace]. apply elem_of_cons in Hin as [->|Hin].
    + apply String.eqb_neq in Hne. rewrite Hne. cbn [andb].
      destruct (setReplace o ov new tokens need l). left.
    + destruct (_ && _).
      * destruct need.
        -- specialize (IH Hin false). destruct (setReplace o ov new tokens false l).
           now right.
        -- specialize (IH Hin false). destruct (setReplace o ov new tokens false l).
           now right.
      * specialize (IH Hin need). destruct (setReplace o ov new tokens need l).
        now right.
Qed.

Lemma AddReplace_other (o ov n nv : string) (f : File) (r : Replace) :
  r ∈ Replaces f -> VPath (Old r) <> o ->
  r ∈ Replaces (AddReplace o ov n nv f).
Proof.
  intros Hin Hne. unfold AddReplace.
  pose proof (setReplace_other o ov (mkVersion n nv)
                (replaceTokens o ov n nv) true _ r Hin Hne) as H.
  destruct (setReplace _ _ _ _ _ _) as [l need]. cbn [Replaces].
  destruct need; [apply elem_of_app; now left|done].
Qed.

(** The old paths after [setReplace] are old paths from before, or blank. *)
Lemma setReplace_old_paths (o ov : string) (new : Version)
    (tokens : list string) (need : bool) (l : list Replace) (r : Replace) :
  r ∈ (setReplace o ov new tokens need l).1 ->
  VPath (Old r) = "" \/ exists r0, r0 ∈ l /\ VPath (Old r0) = VPath (Old r).
Proof.
  revert need. induction l as [|x l IH]; intros need.
  - intros H. now apply elem_of_nil in H.
  - cbn [setReplace]. destruct (_ && _).
    + destruct need.
      * specialize (IH false). destruct (setReplace o ov new tokens false l).
        intros [->|H]%elem_of_cons.
        -- right. exists x. split; [left|done].
        -- destruct (IH H) as [?|(r0 & ? & ?)]; [now left|].
           right. exists r0. split; [now right|done].
      * specialize (IH false). destruct (setReplace o ov new tokens false l).
        intros [->|H]%elem_of_cons.
        -- now left.
        -- destruct (IH H) as [?|(r0 & ? & ?)]; [now left|].
           right. exists r0. split; [now right|done].
    + specialize (IH need). destruct (setReplace o ov new tokens need l).
      intros [->|H]%elem_of_cons.
      * right. exists x. split; [left|done].
      * destruct (IH H) as [?|(r0 & ? & ?)]; [now left|].
        right. exists r0. split; [now right|done].
Qed.

Lemma AddReplace_old_paths (o ov n nv : string) (f : File) (r : Replace) :
  r ∈ Replaces (AddReplace o ov n nv f) ->
  VPath (Old r) = "" \/ VPath (Old r) = o
  \/ exists r0, r0 ∈ Replaces f /\ VPath (Old r0) = VPath (Old r).
Proof.
  unfold AddReplace.
  pose proof (setReplace_old_paths o ov (mkVersion n nv)
                (replaceTokens o ov n nv) true (Replaces f) r) as H.
  destruct (setReplace _ _ _ _ _ _) as [l need]. cbn [Replaces fst] in *.
  destruct need.
  - intros [Hin|Hin]%elem_of_app.
    + destruct (H Hin) as [?|?]; [now left|now right; right].
    + apply list_elem_of_singleton in Hin as ->. right. now left.
  - intros Hin. destruct (H Hin) as [?|?]; [now left|now right; right].
Qed.

End modfile_facts.

Section replace_wins.

Import modfile.

(** After [setReplace] every directive that is left for the old path
    (and version) points to the new target. *)
Lemma setReplace_wins (o ov : string) (new : Version) (tokens : list string)
    (need : bool) (l : list Replace) (r : Replace) :
  r ∈ (setReplace o ov new tokens need l).1 ->
  answers o ov r = true -> Syntax r <> [] -> New r = new.
Proof.
  revert need. induction l as [|x l IH]; intros need.
  - intros H. now apply elem_of_nil in H.
  - cbn [setReplace]. destruct (_ && _) eqn:Hx.
    + destruct need.
      * specialize (IH false). destruct (setReplace o ov new tokens false l).
        intros [->|H]%elem_of_cons; [done|]. now apply IH.
      * specialize (IH false). destruct (setReplace o ov new tokens false l).
        intros [->|H]%elem_of_cons; [done|]. now apply IH.
    + specialize (IH need). destruct (setReplace o ov new tokens need l).
      intros [->|H]%elem_of_cons; [|now apply IH].
      unfold answers. rewrite Hx. discriminate.
Qed.

Lemma answers_refl (o ov : string) (new : Version) (tokens : list string) :
  answers o ov (mkReplace (mkVersion o ov) new tokens) = true.
Proof.
  unfold answers. cbn. rewrite !String.eqb_refl. now rewrite orb_true_r.
Qed.

Lemma AddReplace_wins (o ov n nv : string) (f : File) (r : Replace) :
  r ∈ Replaces (AddReplace o ov n nv f) ->
  answers o ov r = true -> Syntax r <> [] -> New r = mkVersion n nv.
Proof.
  unfold AddReplace.
  pose proof (setReplace_wins o ov (mkVersion n nv)
                (replaceTokens o ov n nv) true (Replaces f) r) as H.
  destruct (setReplace _ _ _ _ _ _) as [l need]. cbn [Replaces fst] in *.
  destruct need; [|exact H].
  intros [Hin|Hin]%elem_of_app; [now apply H|].
  apply list_elem_of_singleton in Hin as ->. done.
Qed.

Lemma setReplace_has (o ov : string) (new : Version) (tokens : list string)
    (l : list Replace) :
  (setReplace o ov new tokens true l).2 = true
  \/ exists r, r ∈ (setReplace o ov new tokens true l).1
               /\ answers o ov r = true /\ New r = new /\ Syntax r = tokens.
Proof.
  induction l as [|x l IH]; [now left|].
  cbn [setReplace]. destruct (_ && _) eqn:Hx.
  - right. destruct (setReplace o ov new tokens false l).
    eexists. split; [left|]. done.
  - destruct (setReplace o ov new tokens true l) as [l' need'].
    cbn [fst snd] in *. destruct IH as [->|(r & Hin & Hr)]; [now left|].
    right. exists r. split; [now right|done].
Qed.

(** After [AddReplace] the file has a directive for the old path that
    points to the new target. *)
Lemma AddReplace_has (o ov n nv : string) (f : File) :
  exists r, r ∈ Replaces (AddReplace o ov n nv f)
            /\ answers o ov r = true /\ New r = mkVersion n nv
            /\ Syntax r = replaceTokens o ov n nv.
Proof.
  unfold AddReplace.
  pose proof (setReplace_has o ov (mkVersion n nv)
                (replaceTokens o ov n nv) (Replaces f)) as H.
  destruct (setReplace _ _ _ _ _ _) as [l need]. cbn [Replaces fst snd] in *.
  destruct H as [->|(r & Hin & Hr)].
  - eexists. split; [apply elem_of_app; right; left|].
    split; [apply answers_refl|done].
  - exists r. split; [|done]. destruct need; [apply elem_of_app; now left|done].
Qed.

End replace_wins.

Section go_mod_facts.

Context `{C : Collaborators}.

Import modfile.

Lemma ReadFile_world (p : string) (w : World) :
  (fsys.ReadFile p w).2 = w.
Proof.
  unfold fsys.ReadFile, mbind, M_bind, bind, getFS. cbn.
  destruct (files (fs w) !! path.Clean p); [done|].
  now destruct (fsys.isDir (fs w) p).
Qed.

Lemma addLocalModule_eq (md : File) (kv : string * Module_) (w : World) :
  bb.addLocalModule md kv w
  = (match moduleReplaces w kv.2 with
     | Ok rs => Ok (addedTo md kv rs)
     | Err e => Err e
     | Panic v => Panic v
     end, w).
Proof.
  destruct kv as [mpath module]. unfold bb.addLocalModule, moduleReplaces, addedTo.
  cbn [fst snd]. destruct (String.eqb (GoMod module) ""); [done|].
  cbn [negb]. unfold mbind, M_bind, bind.
  pose proof (ReadFile_world (GoMod module) w) as Hw.
  destruct (fsys.ReadFile (GoMod module) w) as [[data|e|v] w']; cbn [fst snd] in *;
    subst w'; [|done|done].
  now destruct (modfile_Parse (GoMod module) data).
Qed.

Lemma foldM_addLocalModule (l : list (string * Module_)) (md : File)
    (w : World) :
  foldM bb.addLocalModule md l w = (goModOf w md l, w).
Proof.
  revert md. induction l as [|kv l IH]; intros md; [done|].
  cbn [foldM goModOf]. unfold mbind, M_bind, bind.
  rewrite addLocalModule_eq. destruct (moduleReplaces w kv.2); [apply IH|done|done].
Qed.

(** Building the [go.mod] only reads: the world, and with it what was
    written to standard error, stays as it was. *)
Lemma bbGoMod_eq (lm : gmap string Module_) (w : World) :
  bb.bbGoMod lm w
  = (goModOf w (AddModuleStmt "bb.u-root.com/bb" modfile.empty) (bb.range lm), w).
Proof. apply foldM_addLocalModule. Qed.

Lemma copyReplace_Requires (rs : list Replace) (md : File) :
  Requires (foldl bb.copyReplace md rs) = Requires md
  /\ Module (foldl bb.copyReplace md rs) = Module md.
Proof.
  revert md. induction rs as [|r rs IH]; intros md; [done|].
  cbn [foldl]. destruct (IH (bb.copyReplace md r)) as [-> ->].
  unfold bb.copyReplace. destruct (bb.isLocalPath _); [done|].
  apply AddReplace_Requires.
Qed.

Lemma addedTo_Requires (md : File) (kv : string * Module_)
    (rs : list Replace) :
  Forall (fun r => VPath (Mod r) <> kv.1) (Requires md) ->
  Requires (addedTo md kv rs) = (Requires md ++ [requireOf kv])%list
  /\ Module (addedTo md kv rs) = Module md.
Proof.
  intros H. unfold addedTo.
  destruct (copyReplace_Requires rs
              (AddReplace kv.1 "" (path.Join [".."; ".."; kv.1]) ""
                 (AddRequire kv.1 (bb.requiredVersion kv.2) md))) as [-> ->].
  destruct (AddReplace_Requires kv.1 "" (path.Join [".."; ".."; kv.1]) ""
              (AddRequire kv.1 (bb.requiredVersion kv.2) md)) as [-> ->].
  now rewrite AddRequire_absent.
Qed.

(** With distinct module paths, the requirements come out one per
    module, in the order the modules are walked. *)
Lemma goModOf_Requires (w : World) (l : list (string * Module_))
    (md md' : File) :
  NoDup l.*1 ->
  Forall (fun r => VPath (Mod r) ∉ l.*1) (Requires md) ->
  goModOf w md l = Ok md' ->
  Requires md' = (Requires md ++ (requireOf <$> l))%list
  /\ Module md' = Module md.
Proof.
  revert md. induction l as [|kv l IH]; intros md Hnd Hfresh.
  - cbn. intros [= <-]. now rewrite app_nil_r.
  - cbn [goModOf].
    destruct (moduleReplaces w kv.2) as [rs|e|v]; [|discriminate|discriminate].
    intros Hgo. rewrite fmap_cons in Hnd. apply NoDup_cons in Hnd as [Hnot Hnd].
    assert (Forall (fun r => VPath (Mod r) <> kv.1) (Requires md)) as Hmd.
    { eapply Forall_impl; [exact Hfresh|]. intros r Hr Heq. apply Hr.
      rewrite Heq, fmap_cons. left. }
    destruct (addedTo_Requires md kv rs Hmd) as [HR HM].
    apply IH in Hgo; [|done|].
    + destruct Hgo as [-> ->]. rewrite HR, HM. split; [|done].
      rewrite <- app_assoc. done.
    + rewrite HR. apply Forall_app. split.
      * eapply Forall_impl; [exact Hfresh|]. intros r Hr Hin. apply Hr.
        rewrite fmap_cons. now right.
      * apply Forall_singleton. done.
Qed.

(** Whether the [go.mod] can be built does not depend on the order. *)
Lemma goModOf_Ok_iff (w : World) (l : list (string * Module_)) (md : File) :
  (exists md', goModOf w md l = Ok md')
  <-> Forall (fun kv => exists rs, moduleReplaces w kv.2 = Ok rs) l.
Proof.
  revert md. induction l as [|kv l IH]; intros md.
  - split; [constructor|eauto].
  - cbn [goModOf]. destruct (moduleReplaces w kv.2) as [rs|e|v] eqn:E.
    + rewrite IH. split.
      * intros H. constructor; [eauto|done].
      * intros H. now inversion H.
    + split; [intros [md' H]; discriminate|].
      intros H. inversion H as [|? ? [rs Hrs] _]. congruence.
    + split; [intros [md' H]; discriminate|].
      intros H. inversion H as [|? ? [rs Hrs] _]. congruence.
Qed.

Lemma range_NoDup {V} (lm : gmap string V) : NoDup (bb.range lm).*1.
Proof.
  unfold bb.range. rewrite (rangeOrder_perm _ (map_to_list lm)).
  apply NoDup_fst_map_to_list.
Qed.

Lemma range_elem {V} (lm : gmap string V) (p : string) (v : V) :
  (p, v) ∈ bb.range lm <-> lm !! p = Some v.
Proof.
  unfold bb.range. rewrite (rangeOrder_perm _ (map_to_list lm)).
  apply elem_of_map_to_list.
Qed.

End go_mod_facts.

(** * The local replacement [../../p] *)

Section path_facts.

Lemma splitc_not_nil (c : ascii) (s cur : string) : strings.splitc c cur s <> [].
Proof.
  revert cur. induction s as [|d s IH]; intros cur; cbn [strings.splitc].
  - discriminate.
  - destruct (Ascii.eqb d c); [discriminate|apply IH].
Qed.

Lemma Join_cons (e : string) (l : list string) (sep : string) :
  l <> [] -> strings.Join (e :: l) sep = e ++ sep ++ strings.Join l sep.
Proof. now destruct l. Qed.

(** Joining what was split gives the string back. *)
Lemma Join_splitc (c : ascii) (s cur : string) :
  strings.Join (strings.splitc c cur s) (String c "") = cur ++ s.
Proof.
  revert cur. induction s as [|d s IH]; intros cur; cbn [strings.splitc].
  - cbn. now rewrite string_app_nil_r.
  - destruct (Ascii.eqb_spec d c) as [->|Hne].
    + rewrite Join_cons by apply splitc_not_nil. rewrite IH. reflexivity.
    + rewrite IH. apply string_app_assoc.
Qed.

Lemma clean_real_elems (rooted : bool) (segs out : list string) (dd : nat) :
  forallb isRealElem segs = true ->
  foldl (path.clean_step rooted) (out, dd) segs = ((rev segs ++ out)%list, dd).
Proof.
  revert out. induction segs as [|e segs IH]; intros out Hreal; [done|].
  cbn [forallb] in Hreal. apply andb_true_iff in Hreal as [He Hreal].
  cbn [foldl rev]. rewrite <- app_assoc. cbn [app]. rewrite <- (IH (e :: out) Hreal).
  f_equal. unfold isRealElem in He.
  apply andb_true_iff in He as [He H3]. apply andb_true_iff in He as [H1 H2].
  unfold path.clean_step.
  destruct (String.eqb e ""); [discriminate|].
  destruct (String.eqb e "."); [discriminate|].
  destruct (String.eqb e ".."); [discriminate|]. reflexivity.
Qed.

(** For a plain path [p], the target of the local replacement is
    literally [../../p]. *)
Lemma Join_dotdot_plain (p : string) :
  isPlainPath p = true -> path.Join [".."; ".."; p] = "../../" ++ p.
Proof.
  intros Hp. unfold isPlainPath in Hp.
  change (path.Join [".."; ".."; p]) with (path.Clean ("../../" ++ p)).
  unfold path.Clean.
  change (String.eqb ("../../" ++ p) "") with false.
  change (strings.HasPrefix ("../../" ++ p) "/") with false.
  change (strings.Split1 ("../../" ++ p) path.slash)
    with (".." :: ".." :: strings.Split1 p path.slash).
  cbn [foldl]. change (path.clean_step false (path.clean_step false ([], 0) "..") "..")
    with ([".."; ".."], 2).
  rewrite (clean_real_elems false _ _ _ Hp).
  assert (rev (rev (strings.Split1 p path.slash) ++ [".."; ".."])%list
          = ".." :: ".." :: strings.Split1 p path.slash) as Hrev.
  { rewrite rev_app_distr, rev_involutive. reflexivity. }
  destruct (rev (strings.Split1 p path.slash) ++ [".."; ".."])%list eqn:E.
  - now destruct (rev (strings.Split1 p path.slash)).
  - rewrite Hrev.
    rewrite Join_cons by discriminate.
    rewrite Join_cons by apply splitc_not_nil.
    unfold strings.Split1, path.slash.
    rewrite (Join_splitc "/"%char p ""). reflexivity.
Qed.

End path_facts.

(** * C6 and C7: the directives of the [go.mod] *)

Section replace_facts.

Context `{C : Collaborators}.

Import modfile.

Lemma AddRequire_Replaces (p vers : string) (f : File) :
  Replaces (AddRequire p vers f) = Replaces f.
Proof. unfold AddRequire. now destruct (setRequire _ _ _ _). Qed.

Lemma copyReplace_keeps (p : string) (rs : list Replace) (md : File)
    (e : Replace) :
  e ∈ Replaces md -> VPath (Old e) = p -> noneFor p rs ->
  e ∈ Replaces (foldl bb.copyReplace md rs).
Proof.
  revert md. induction rs as [|r rs IH]; intros md Hin Hp Hnone; [done|].
  cbn [foldl]. apply IH; [|done|].
  - unfold bb.copyReplace. destruct (bb.isLocalPath _) eqn:Hl; [done|].
    apply AddReplace_other; [done|]. rewrite Hp. intros Heq.
    apply (Hnone r); [left|done|done].
  - intros r' Hr'. apply Hnone. now right.
Qed.

Lemma copyReplace_fresh (p : string) (rs : list Replace) (md : File) :
  p <> "" -> noneFor p rs ->
  (forall r, r ∈ Replaces md -> VPath (Old r) <> p) ->
  forall r, r ∈ Replaces (foldl bb.copyReplace md rs) -> VPath (Old r) <> p.
Proof.
  intros Hp. revert md. induction rs as [|r0 rs IH]; intros md Hnone Hfresh; [done|].
  cbn [foldl]. apply IH.
  - intros r' Hr'. apply Hnone. now right.
  - unfold bb.copyReplace. destruct (bb.isLocalPath _) eqn:Hl; [done|].
    intros r Hr. apply AddReplace_old_paths in Hr as [H|[H|(r1 & Hr1 & H)]].
    + congruence.
    + rewrite H. apply (Hnone r0); [left|done].
    + rewrite <- H. now apply Hfresh.
Qed.

Lemma addedTo_keeps (p : string) (md : File) (kv : string * Module_)
    (rs : list Replace) (e : Replace) :
  e ∈ Replaces md -> VPath (Old e) = p -> kv.1 <> p -> noneFor p rs ->
  e ∈ Replaces (addedTo md kv rs).
Proof.
  intros Hin Hp Hne Hnone. unfold addedTo.
  apply (copyReplace_keeps p); [|done|done].
  apply AddReplace_other; [now rewrite AddRequire_Replaces|congruence].
Qed.

Lemma addedTo_fresh (p : string) (md : File) (kv : string * Module_)
    (rs : list Replace) :
  p <> "" -> kv.1 <> p -> noneFor p rs ->
  (forall r, r ∈ Replaces md -> VPath (Old r) <> p) ->
  forall r, r ∈ Replaces (addedTo md kv rs) -> VPath (Old r) <> p.
Proof.
  intros Hp Hne Hnone Hfresh. unfold addedTo.
  apply copyReplace_fresh; [done|done|].
  intros r Hr. apply AddReplace_old_paths in Hr as [H|[H|(r1 & Hr1 & H)]].
  - congruence.
  - congruence.
  - rewrite <- H. apply Hfresh. now rewrite AddRequire_Replaces in Hr1.
Qed.

Lemma addedTo_adds (md : File) (kv : string * Module_) (rs : list Replace) :
  noneFor kv.1 rs ->
  (forall r, r ∈ Replaces md -> VPath (Old r) <> kv.1) ->
  localReplaceOf kv.1 ∈ Replaces (addedTo md kv rs).
Proof.
  intros Hnone Hfresh. unfold addedTo.
  apply (copyReplace_keeps kv.1); [|done|done].
  unfold AddReplace. rewrite setReplace_absent.
  - cbn [Replaces]. apply elem_of_app. right. left.
  - rewrite AddRequire_Replaces. apply Forall_forall. intros r Hr.
    unfold answers. apply Hfresh in Hr. apply String.eqb_neq in Hr.
    now rewrite Hr.
Qed.

Lemma goModOf_keeps (w : World) (p : string) (l : list (string * Module_))
    (md md' : File) (e : Replace) :
  e ∈ Replaces md -> VPath (Old e) = p -> p ∉ l.*1 -> noCopiedFor w l p ->
  goModOf w md l = Ok md' -> e ∈ Replaces md'.
Proof.
  revert md. induction l as [|kv l IH]; intros md Hin Hp Hnot Hnc.
  - cbn. now intros [= <-].
  - cbn [goModOf]. destruct (moduleReplaces w kv.2) as [rs|err|v] eqn:E;
      [|discriminate|discriminate].
    rewrite fmap_cons in Hnot. apply not_elem_of_cons in Hnot as [Hne Hnot].
    apply IH; [|done|done|].
    + apply (addedTo_keeps p); [done|done|congruence|].
      intros r Hr. apply (Hnc kv rs r); [left|done|done].
    + intros kv' rs' r Hkv. apply Hnc. now right.
Qed.

(** The local replacement of a local module is in the [go.mod] when no
    copied directive is for the same path. *)
Lemma goModOf_local_replace (w : World) (p : string) (M : Module_)
    (l : list (string * Module_)) (md md' : File) :
  p <> "" -> NoDup l.*1 -> (p, M) ∈ l -> noCopiedFor w l p ->
  (forall r, r ∈ Replaces md -> VPath (Old r) <> p) ->
  goModOf w md l = Ok md' -> localReplaceOf p ∈ Replaces md'.
Proof.
  intros Hp. revert md. induction l as [|kv l IH]; intros md Hnd Hin Hnc Hfresh.
  - now apply elem_of_nil in Hin.
  - cbn [goModOf]. destruct (moduleReplaces w kv.2) as [rs|err|v] eqn:E;
      [|discriminate|discriminate].
    rewrite fmap_cons in Hnd. apply NoDup_cons in Hnd as [Hnot Hnd].
    assert (noneFor p rs) as Hnone.
    { intros r Hr. apply (Hnc kv rs r); [left|done|done]. }
    assert (noCopiedFor w l p) as Hnc'.
    { intros kv' rs' r Hkv. apply Hnc. now right. }
    apply elem_of_cons in Hin as [<-|Hin].
    + apply (goModOf_keeps w p); [|done|done|done].
      now apply (addedTo_adds md (p, M) rs).
    + assert (kv.1 <> p) as Hne.
      { intros Heq. apply Hnot. rewrite Heq.
        apply list_elem_of_fmap. exists (p, M). done. }
      apply IH; [done|done|done|]. now apply addedTo_fresh.
Qed.

Lemma requireLine_elem (r : Require) :
  VPath (Mod r) <> "" ->
  requireLine r = ["require " ++ VPath (Mod r) ++ " " ++ VVersion (Mod r)].
Proof.
  intros H. unfold requireLine. apply String.eqb_neq in H. now rewrite H.
Qed.

Lemma lines_require (md : File) (r : Require) :
  r ∈ Requires md -> VPath (Mod r) <> "" ->
  ("require " ++ VPath (Mod r) ++ " " ++ VVersion (Mod r)) ∈ lines md.
Proof.
  intros Hin Hp. unfold lines. apply elem_of_app. right. apply elem_of_app. left.
  apply list_elem_of_bind. exists r. split; [|done].
  rewrite requireLine_elem by done. left.
Qed.

Lemma lines_replace (md : File) (r : Replace) :
  r ∈ Replaces md -> Syntax r <> [] ->
  strings.Join (Syntax r) " " ∈ lines md.
Proof.
  intros Hin Hs. unfold lines. apply elem_of_app. right. apply elem_of_app. right.
  apply list_elem_of_bind. exists r. split; [|done].
  unfold replaceLine. destruct (Syntax r); [done|left].
Qed.

End replace_facts.

Section deps_facts.

Context `{C : Collaborators}.

Lemma WriteFile_Ok (p data : string) (w w' : World) :
  fsys.WriteFile p data w = (Ok tt, w') ->
  files (fs w') !! path.Clean p = Some data.
Proof.
  unfold fsys.WriteFile, mbind, M_bind, bind, getFS, putFS, fail.
  destruct (fsys.isDir (fs w) p); [discriminate|].
  destruct (negb _); [discriminate|].
  intros [= <-]. cbn. apply lookup_insert_eq.
Qed.

(** When [dealWithDeps] succeeds with local modules (or with modules
    switched on), the file [go.mod] in the directory of the busybox
    holds the formatted [go.mod] that [bbGoMod] builds from the local
    modules. *)
Lemma dealWithDeps_writes_go_mod (env : golang.Environ)
    (bbDir tmpDir pkgDir : string) (mainPkgs : list bbinternal.Package)
    (w w' : World) :
  bb.dealWithDeps env bbDir tmpDir pkgDir mainPkgs w = (Ok tt, w') ->
  exists lm w1 w2,
    bb.localModules pkgDir bbDir mainPkgs w = (Ok lm, w1)
    /\ (String.eqb (golang.GO111MODULE env) "on" || Nat.ltb 0 (size lm) = true ->
        exists md,
          bb.bbGoMod lm w2 = (Ok md, w2)
          /\ files (fs w') !! path.Clean (filepath.Join [bbDir; "go.mod"])
             = Some (modfile.Format md)).
Proof.
  unfold bb.dealWithDeps. unfold mbind at 1, M_bind at 1, bind at 1.
  destruct (bb.localModules pkgDir bbDir mainPkgs w) as [[lm|e|v] w1] eqn:Elm;
    [|discriminate|discriminate].
  unfold mbind at 1, M_bind at 1, bind at 1.
  match goal with |- context [foldM ?f ?b ?l w1] =>
    destruct (foldM f b l w1) as [[seen|e|v] w2] eqn:Ew end;
    [|discriminate|discriminate].
  intros H. exists lm, w1, w2. split; [done|]. intros Hif. rewrite Hif in H.
  unfold mbind, M_bind, bind in H. rewrite bbGoMod_eq in H.
  destruct (goModOf w2 _ _) as [md|e|v] eqn:Emd; [|discriminate|discriminate].
  exists md. split.
  - now rewrite bbGoMod_eq, Emd.
  - now apply WriteFile_Ok in H.
Qed.

End deps_facts.

(** C6, as the code has it: for every local module [M] with path [p],
    the [go.mod] that is built has the requirement [require p v], where
    [v] is the version of [M], or [v0.0.0] when that version is empty,
    whatever the path looks like (a path that ends in [/v2], [/v3], ...
    gets the placeholder too); and, when [p] is not empty and no
    replace directive copied from a local module's own [go.mod] is for
    [p], it has the directive [replace p => path.Join("..", "..", p)],
    which reads [replace p => ../../p] for a plain path [p]. *)
Theorem C6_require_and_local_replace `{C : Collaborators}
    (lm : gmap string Module_) (p : string) (M : Module_) (w : World)
    (md : modfile.File) :
  lm !! p = Some M ->
  (bb.bbGoMod lm w).1 = Ok md ->
  requireOf (p, M) ∈ modfile.Requires md
  /\ (Version M = "" -> bb.requiredVersion M = "v0.0.0")
  /\ (Version M <> "" -> bb.requiredVersion M = Version M)
  /\ (p <> "" ->
      ("require " ++ p ++ " " ++ bb.requiredVersion M) ∈ modfile.lines md)
  /\ (p <> "" -> noCopiedFor w (map_to_list lm) p ->
      localReplaceOf p ∈ modfile.Replaces md
      /\ strings.Join ["replace"; p; "=>"; path.Join [".."; ".."; p]] " "
           ∈ modfile.lines md
      /\ (isPlainPath p = true ->
          ("replace " ++ p ++ " => ../../" ++ p) ∈ modfile.lines md)).
Proof.
  intros Hlm Hgo. rewrite bbGoMod_eq in Hgo. cbn [fst] in Hgo.
  assert ((p, M) ∈ bb.range lm) as Hin by now apply range_elem.
  pose proof (goModOf_Requires w (bb.range lm)
                (modfile.AddModuleStmt "bb.u-root.com/bb" modfile.empty) md
                (range_NoDup lm) (List.Forall_nil _) Hgo) as [HR _].
  cbn [modfile.Requires modfile.AddModuleStmt modfile.empty app] in HR.
  assert (requireOf (p, M) ∈ modfile.Requires md) as Hreq.
  { rewrite HR. apply list_elem_of_fmap. exists (p, M). done. }
  split; [exact Hreq|]. split; [|split; [|split]].
  - intros Hv. unfold bb.requiredVersion. now rewrite Hv.
  - intros Hv. unfold bb.requiredVersion. destruct (Version M); [done|reflexivity].
  - intros Hp. apply (lines_require md (requireOf (p, M)) Hreq Hp).
  - intros Hp Hnc.
    assert (localReplaceOf p ∈ modfile.Replaces md) as Hrep.
    { apply (goModOf_local_replace w p M (bb.range lm)
               (modfile.AddModuleStmt "bb.u-root.com/bb" modfile.empty) md Hp
               (range_NoDup lm) Hin); [|intros r Hr; now apply elem_of_nil in Hr|done].
      intros kv rs r Hkv. apply Hnc. unfold bb.range in Hkv.
      now rewrite rangeOrder_perm in Hkv. }
    split; [exact Hrep|].
    assert (strings.Join ["replace"; p; "=>"; path.Join [".."; ".."; p]] " "
              ∈ modfile.lines md) as Hline.
    { apply (lines_replace md (localReplaceOf p) Hrep). discriminate. }
    split; [exact Hline|].
    intros Hplain. rewrite (Join_dotdot_plain p Hplain) in Hline.
    cbn [strings.Join] in Hline.
    replace ("replace " ++ p ++ " => ../../" ++ p)
      with ("replace" ++ " " ++ p ++ " " ++ "=>" ++ " " ++ "../../" ++ p);
      [exact Hline|reflexivity].
Qed.

(** Module [a] in the [go.mod] built for the modules [a] and [b]. *)
Lemma C6_require_and_local_replace_witness :
  requireOf ("example.com/a", ex.modA) ∈ modfile.Requires ex.abGoMod
  /\ "require example.com/a v0.0.0" ∈ modfile.lines ex.abGoMod
  /\ "replace example.com/a => ../../example.com/a" ∈ modfile.lines ex.abGoMod.
Proof.
  pose proof (@C6_require_and_local_replace ex.abC ex.abModules
                "example.com/a" ex.modA (ex.sources ex.goModA ex.goModB)
                ex.abGoMod eq_refl eq_refl) as (Hreq & _ & _ & Hline & Hrep).
  split; [exact Hreq|]. split.
  - apply Hline. discriminate.
  - apply Hrep; [discriminate| |reflexivity].
    intros kv rs r Hkv Hrs Hr.
    change (map_to_list ex.abModules)
      with [("example.com/a", ex.modA); ("example.com/b", ex.modB)] in Hkv.
    apply elem_of_cons in Hkv as [->|Hkv].
    + vm_compute in Hrs. injection Hrs as <-. now apply elem_of_nil in Hr.
    + apply elem_of_cons in Hkv as [->|Hkv]; [|now apply elem_of_nil in Hkv].
      vm_compute in Hrs. injection Hrs as <-. now apply elem_of_nil in Hr.
Defined.

(** C6 as stated fails twice.  A command in the module
    [example.com/m/v2], which has no version, is built with the
    requirement [require example.com/m/v2 v0.0.0]: the placeholder is
    used for a path with a major-version suffix too.  And when module
    [a] replaces the local module [b] by a fork and the map is walked
    with [b] before [a], the copied directive takes the place of the
    local replacement of [b]: the [go.mod] has no
    [replace example.com/b => ../../example.com/b]. *)
Lemma C6_fallback_and_lost_replace_counterexample :
  (Version ex.modV2 = ""
   /\ (@bb.BuildBusybox ex.v2C (Some (ex.genOpts false))
         (ex.sources ex.goModV2 ex.goModB)).1 = Ok tt
   /\ files (fs (@bb.BuildBusybox ex.v2C (Some (ex.genOpts false))
                   (ex.sources ex.goModV2 ex.goModB)).2) !! ex.genGoMod
      = Some (ex.text ["module bb.u-root.com/bb";
                       "require example.com/m/v2 v0.0.0";
                       "replace example.com/m/v2 => ../../example.com/m/v2"]))
  /\ ((@bb.BuildBusybox ex.abC' (Some (ex.genOpts false))
         (ex.sources ex.goModAfork ex.goModB)).1 = Ok tt
      /\ files (fs (@bb.BuildBusybox ex.abC' (Some (ex.genOpts false))
                      (ex.sources ex.goModAfork ex.goModB)).2) !! ex.genGoMod
         = Some (ex.text ["module bb.u-root.com/bb";
                          "require example.com/b v0.0.0";
                          "require example.com/a v0.0.0";
                          "replace example.com/b => example.com/fork/b v1.2.3";
                          "replace example.com/a => ../../example.com/a"])
      /\ forall md,
           (@bb.bbGoMod ex.abC' ex.abModules
              (ex.sources ex.goModAfork ex.goModB)).1 = Ok md ->
           "replace example.com/b => ../../example.com/b" ∉ modfile.lines md).
Proof.
  split; [split; [reflexivity|split; vm_compute; reflexivity]|].
  split; [vm_compute; reflexivity|]. split; [vm_compute; reflexivity|].
  intros md Hmd. vm_compute in Hmd. injection Hmd as <-. intros Hin.
  vm_compute in Hin.
  repeat (apply elem_of_cons in Hin as [Hin|Hin]; [discriminate Hin|]).
  now apply elem_of_nil in Hin.
Qed.

(** * The calls of [AddReplace] *)

Section replace_calls.

Import modfile.

Lemma replaceTokens_not_nil (o ov n nv : string) : replaceTokens o ov n nv <> [].
Proof. discriminate. Qed.

(** A directive that [setReplace] leaves with a line was there
    before, or it is the one that was written. *)
Lemma setReplace_nonblank (o ov : string) (new : Version)
    (tokens : list string) (need : bool) (l : list Replace) (r : Replace) :
  r ∈ (setReplace o ov new tokens need l).1 -> Syntax r <> [] ->
  r ∈ l \/ (New r = new /\ Syntax r = tokens /\ VPath (Old r) = o).
Proof.
  revert need. induction l as [|x l IH]; intros need.
  - intros H. now apply elem_of_nil in H.
  - cbn [setReplace]. destruct (_ && _) eqn:Hx.
    + apply andb_true_iff in Hx as [Hx _]. apply String.eqb_eq in Hx.
      destruct need.
      * specialize (IH false). destruct (setReplace o ov new tokens false l).
        intros [->|H]%elem_of_cons Hs; [now right|].
        destruct (IH H Hs) as [?|?]; [left; now right|now right].
      * specialize (IH false). destruct (setReplace o ov new tokens false l).
        intros [->|H]%elem_of_cons Hs; [done|].
        destruct (IH H Hs) as [?|?]; [left; now right|now right].
    + specialize (IH need). destruct (setReplace o ov new tokens need l).
      intros [->|H]%elem_of_cons Hs; [left; left|].
      destruct (IH H Hs) as [?|?]; [left; now right|now right].
Qed.

Lemma AddReplace_nonblank (o ov n nv : string) (f : File) (r : Replace) :
  r ∈ Replaces (AddReplace o ov n nv f) -> Syntax r <> [] ->
  r ∈ Replaces f
  \/ (New r = mkVersion n nv /\ Syntax r = replaceTokens o ov n nv
      /\ VPath (Old r) = o).
Proof.
  unfold AddReplace.
  pose proof (setReplace_nonblank o ov (mkVersion n nv)
                (replaceTokens o ov n nv) true (Replaces f) r) as H.
  destruct (setReplace _ _ _ _ _ _) as [l need]. cbn [Replaces fst] in *.
  destruct need; [|exact H].
  intros [Hin|Hin]%elem_of_app Hs; [now apply H|].
  apply list_elem_of_singleton in Hin as ->. now right.
Qed.

Lemma putReplace_eq (f : File) (c : Replace) :
  Replaces (addCall f c) = putReplace (Replaces f) c.
Proof.
  unfold putReplace, addCall, AddReplace. cbn [Replaces].
  now destruct (setReplace _ _ _ _ _ _).
Qed.

Lemma putReplace_nonblank (l : list Replace) (c r : Replace) :
  r ∈ putReplace l c -> Syntax r <> [] ->
  r ∈ l \/ (New r = New (written c) /\ Syntax r = Syntax (written c)
            /\ VPath (Old r) = VPath (Old c)).
Proof. apply AddReplace_nonblank. Qed.

Lemma putReplace_other (l : list Replace) (c r : Replace) :
  r ∈ l -> VPath (Old r) <> VPath (Old c) -> r ∈ putReplace l c.
Proof. intros Hin Hne. now apply AddReplace_other. Qed.

Lemma putReplace_has (l : list Replace) (c : Replace) :
  exists r, r ∈ putReplace l c
            /\ answers (VPath (Old c)) (VVersion (Old c)) r = true
            /\ New r = New (written c) /\ Syntax r = Syntax (written c).
Proof. apply AddReplace_has. Qed.

Lemma putReplace_wins (l : list Replace) (c r : Replace) :
  r ∈ putReplace l c ->
  answers (VPath (Old c)) (VVersion (Old c)) r = true -> Syntax r <> [] ->
  New r = New (written c).
Proof. apply AddReplace_wins. Qed.

Lemma answers_path (o ov : string) (r : Replace) :
  answers o ov r = true -> VPath (Old r) = o.
Proof.
  unfold answers. intros [H _]%andb_true_iff. now apply String.eqb_eq.
Qed.

(** Where the directives of the end come from. *)
Lemma calls_nonblank (cs : list Replace) (l : list Replace) (r : Replace) :
  r ∈ foldl putReplace l cs -> Syntax r <> [] ->
  r ∈ l \/ exists c, c ∈ cs /\ New r = New (written c)
                     /\ Syntax r = Syntax (written c)
                     /\ VPath (Old r) = VPath (Old c).
Proof.
  revert l. induction cs as [|c cs IH]; intros l; [now left|].
  cbn [foldl]. intros Hin Hs. destruct (IH _ Hin Hs) as [H|(c' & Hc' & H)].
  - destruct (putReplace_nonblank l c r H Hs) as [?|?]; [now left|].
    right. exists c. split; [left|done].
  - right. exists c'. split; [now right|done].
Qed.

(** Calls for other old paths leave the directives for a path alone. *)
Lemma calls_other (cs : list Replace) (l : list Replace) (p : string) :
  (forall c, c ∈ cs -> VPath (Old c) <> p) ->
  forall r, VPath (Old r) = p ->
    (r ∈ l -> r ∈ foldl putReplace l cs)
    /\ (r ∈ foldl putReplace l cs -> Syntax r <> [] -> r ∈ l).
Proof.
  revert l. induction cs as [|c cs IH]; intros l Hcs r Hp; [done|].
  cbn [foldl].
  destruct (IH (putReplace l c) ltac:(intros c' Hc'; apply Hcs; now right) r Hp)
    as [IH1 IH2].
  pose proof (Hcs c ltac:(left)) as Hne. split.
  - intros Hin. apply IH1. apply putReplace_other; [done|congruence].
  - intros Hin Hs. specialize (IH2 Hin Hs).
    destruct (putReplace_nonblank l c r IH2 Hs) as [?|(_ & _ & ?)]; [done|].
    congruence.
Qed.

(** The last call for an old path decides the target of every
    directive that is left for it. *)
Lemma calls_last (pre post : list Replace) (c : Replace) (l : list Replace) :
  (forall c', c' ∈ post -> VPath (Old c') <> VPath (Old c)) ->
  (exists r, r ∈ foldl putReplace l (pre ++ c :: post)
             /\ answers (VPath (Old c)) (VVersion (Old c)) r = true
             /\ New r = New (written c) /\ Syntax r = Syntax (written c))
  /\ forall r, r ∈ foldl putReplace l (pre ++ c :: post) ->
       answers (VPath (Old c)) (VVersion (Old c)) r = true ->
       Syntax r <> [] -> New r = New (written c).
Proof.
  intros Hpost. rewrite foldl_app. cbn [foldl].
  set (l1 := foldl putReplace l pre). split.
  - destruct (putReplace_has l1 c) as (r & Hin & Ha & Hn & Hs).
    exists r. split; [|done].
    apply (proj1 (calls_other post (putReplace l1 c) _ Hpost r
                    (answers_path _ _ _ Ha))).
    exact Hin.
  - intros r Hin Ha Hs. apply (putReplace_wins l1 c r); [|done|done].
    apply (proj2 (calls_other post (putReplace l1 c) _ Hpost r
                    (answers_path _ _ _ Ha))); done.
Qed.

(** The old paths that have a directive at the end are those of the
    calls. *)
Lemma calls_paths (cs : list Replace) (l : list Replace) (p : string) :
  (exists r, r ∈ foldl putReplace l cs /\ Syntax r <> [] /\ VPath (Old r) = p)
  <-> (exists r, r ∈ l /\ Syntax r <> [] /\ VPath (Old r) = p)
      \/ exists c, c ∈ cs /\ VPath (Old c) = p.
Proof.
  revert l. induction cs as [|c cs IH]; intros l.
  - cbn. split; [now left|]. intros [H|(c & Hc & _)]; [done|].
    now apply elem_of_nil in Hc.
  - cbn [foldl]. rewrite IH. split.
    + intros [(r & Hin & Hs & Hp)|(c' & Hc' & Hp)].
      * destruct (putReplace_nonblank l c r Hin Hs) as [?|(_ & _ & ?)];
          [left; eauto|].
        right. exists c. split; [left|congruence].
      * right. exists c'. split; [now right|done].
    + intros [(r & Hin & Hs & Hp)|(c' & [->|Hc']%elem_of_cons & Hp)].
      * destruct (decide (VPath (Old c) = p)) as [Heq|Hne].
        -- left. destruct (putReplace_has l c) as (r' & Hin' & Ha & _ & Hs').
           exists r'. split; [done|]. split.
           ++ rewrite Hs'. apply replaceTokens_not_nil.
           ++ apply answers_path in Ha. congruence.
        -- left. exists r. split; [|done].
           apply putReplace_other; [done|congruence].
      * left. destruct (putReplace_has l c) as (r' & Hin' & Ha & _ & Hs').
        exists r'. split; [done|]. split.
        -- rewrite Hs'. apply replaceTokens_not_nil.
        -- apply answers_path in Ha. congruence.
      * right. eauto.
Qed.

Lemma written_written (r : Replace) : written (written r) = written r.
Proof. reflexivity. Qed.

(** A call for an old path that has no directive yet adds one. *)
Lemma putReplace_fresh (l : list Replace) (c : Replace) :
  (forall r, r ∈ l -> VPath (Old r) <> VPath (Old c)) ->
  putReplace l c = (l ++ [written c])%list.
Proof.
  intros Hfresh. unfold putReplace, addCall, AddReplace. cbn [Replaces].
  rewrite setReplace_absent; [reflexivity|].
  apply Forall_forall. intros r Hr. unfold answers.
  apply Hfresh in Hr. apply String.eqb_neq in Hr. now rewrite Hr.
Qed.

(** When no old path is called for twice, every call adds its
    directive, and the directives are those of the calls, in their
    order. *)
Lemma calls_distinct (cs : list Replace) (l : list Replace) :
  NoDup ((fun c => VPath (Old c)) <$> cs) ->
  (forall r c, r ∈ l -> c ∈ cs -> VPath (Old r) <> VPath (Old c)) ->
  foldl putReplace l cs = (l ++ (written <$> cs))%list.
Proof.
  revert l. induction cs as [|c cs IH]; intros l Hnd Hl.
  - cbn. now rewrite app_nil_r.
  - cbn [foldl]. rewrite fmap_cons in Hnd.
    apply NoDup_cons in Hnd as [Hnot Hnd].
    rewrite putReplace_fresh by (intros r Hr; apply Hl; [done|left]).
    rewrite IH; [now rewrite <- app_assoc|done|].
    intros r c' [Hr|Hr]%elem_of_app Hc'.
    + apply Hl; [done|now right].
    + apply list_elem_of_singleton in Hr as ->. cbn. intros Heq.
      apply Hnot. rewrite Heq. apply list_elem_of_fmap. eauto.
Qed.

End replace_calls.

Section go_mod_calls.

Context `{C : Collaborators}.

Import modfile.

Lemma foldl_copyReplace (rs : list Replace) (md : File) :
  Replaces (foldl bb.copyReplace md rs)
  = foldl putReplace (Replaces md)
      (written <$> List.filter
                     (fun r => negb (bb.isLocalPath (VPath (New r)))) rs).
Proof.
  revert md. induction rs as [|r rs IH]; intros md; [done|].
  cbn [foldl List.filter]. rewrite IH. unfold bb.copyReplace.
  destruct (bb.isLocalPath (VPath (New r))); cbn [negb]; [done|].
  rewrite fmap_cons. cbn [foldl]. f_equal. exact (putReplace_eq md (written r)).
Qed.

Lemma addedTo_Replaces (md : File) (kv : string * Module_)
    (rs : list Replace) :
  Replaces (addedTo md kv rs)
  = foldl putReplace (Replaces md)
      (localReplaceOf kv.1
         :: (written <$> List.filter
                           (fun r => negb (bb.isLocalPath (VPath (New r)))) rs)).
Proof.
  unfold addedTo. rewrite foldl_copyReplace. cbn [foldl]. f_equal.
  rewrite <- (AddRequire_Replaces kv.1 (bb.requiredVersion kv.2) md).
  apply (putReplace_eq _ (localReplaceOf kv.1)).
Qed.

(** The directives of the [go.mod] that is built are what the calls
    of [AddReplace], in the order of the loop, leave. *)
Lemma goModOf_Replaces (w : World) (l : list (string * Module_))
    (md md' : File) :
  goModOf w md l = Ok md' ->
  Replaces md' = foldl putReplace (Replaces md) (l ≫= replaceCalls w).
Proof.
  revert md. induction l as [|kv l IH]; intros md.
  - cbn. now intros [= <-].
  - cbn [goModOf]. rewrite bind_cons, foldl_app. unfold replaceCalls at 1.
    destruct (moduleReplaces w kv.2) as [rs|e|v]; [|discriminate|discriminate].
    intros H. rewrite (IH _ H). f_equal. apply addedTo_Replaces.
Qed.

Lemma replaceCalls_elem (w : World) (l : list (string * Module_))
    (c : Replace) :
  c ∈ l ≫= replaceCalls w
  <-> exists kv, kv ∈ l
        /\ (c = localReplaceOf kv.1
            \/ exists rs r,
                 moduleReplaces w kv.2 = Ok rs /\ r ∈ rs
                 /\ bb.isLocalPath (VPath (New r)) = false /\ c = written r).
Proof.
  rewrite list_elem_of_bind. split.
  - intros (kv & Hc & Hkv). exists kv. split; [done|].
    unfold replaceCalls in Hc. apply elem_of_cons in Hc as [->|Hc]; [now left|].
    right. destruct (moduleReplaces w kv.2) as [rs|e|v];
      [|now apply elem_of_nil in Hc|now apply elem_of_nil in Hc].
    apply list_elem_of_fmap in Hc as (r & -> & Hr).
    apply list_elem_of_In, filter_In in Hr as [Hr Hl].
    exists rs, r. split; [done|]. split; [now apply list_elem_of_In|].
    split; [now apply negb_true_iff|done].
  - intros (kv & Hkv & [->|(rs & r & Hrs & Hr & Hl & ->)]); exists kv;
      (split; [|done]); unfold replaceCalls; [left|]. right. rewrite Hrs.
    apply list_elem_of_fmap. exists r. split; [done|].
    apply list_elem_of_In, filter_In. split; [now apply list_elem_of_In|].
    now apply negb_true_iff.
Qed.

Lemma New_written (r : Replace) : New (written r) = New r.
Proof. cbn. now destruct (New r). Qed.

Lemma lines_Permutation (md1 md2 : File) :
  Module md1 = Module md2 -> Requires md1 ≡ₚ Requires md2 ->
  Replaces md1 ≡ₚ Replaces md2 -> lines md1 ≡ₚ lines md2.
Proof.
  intros Hm Hreq Hrep. unfold lines. rewrite Hm.
  apply Permutation_app; [done|]. now apply Permutation_app; apply bind_Permutation.
Qed.

End go_mod_calls.

(** * C1: the order of the directives *)

(** C1, as the code has it: the loop of [dealWithDeps] over the local
    modules walks the map in Go's map order and sorts nothing.  Two
    runs on the same local modules and the same world that walk the
    map in different orders both build a [go.mod] or neither does.
    The two files have the same module statement; the same
    requirements, each file in the order its run walked the map; and
    replace directives for the same module paths.  When no module
    path is replaced twice (by a local replacement or a copied
    directive), the replace directives are the same up to their order
    as well, and the two files have the same lines up to their
    order. *)
Theorem C1_go_mod_same_up_to_order `{C : Collaborators}
    (order : forall A : Type, list A -> list A)
    (order_perm : forall (A : Type) (l : list A), order A l ≡ₚ l)
    (lm : gmap string Module_) (w : World) :
  ((exists md1, (bb.bbGoMod lm w).1 = Ok md1)
   <-> exists md2, (@bb.bbGoMod (withOrder C order order_perm) lm w).1 = Ok md2)
  /\ forall md1 md2,
       (bb.bbGoMod lm w).1 = Ok md1 ->
       (@bb.bbGoMod (withOrder C order order_perm) lm w).1 = Ok md2 ->
       modfile.Requires md1 = requireOf <$> bb.range lm
       /\ modfile.Requires md2
          = requireOf <$> @bb.range (withOrder C order order_perm) _ lm
       /\ modfile.Requires md1 ≡ₚ modfile.Requires md2
       /\ modfile.Module md1 = modfile.Module md2
       /\ (forall p,
             (exists r, r ∈ modfile.Replaces md1 /\ modfile.Syntax r <> []
                        /\ modfile.VPath (modfile.Old r) = p)
             <-> exists r, r ∈ modfile.Replaces md2 /\ modfile.Syntax r <> []
                           /\ modfile.VPath (modfile.Old r) = p)
       /\ (NoDup ((fun c => modfile.VPath (modfile.Old c))
                    <$> (bb.range lm ≫= replaceCalls w)) ->
           modfile.Replaces md1 ≡ₚ modfile.Replaces md2
           /\ modfile.lines md1 ≡ₚ modfile.lines md2).
Proof.
  rewrite !bbGoMod_eq. cbn [fst].
  set (md0 := modfile.AddModuleStmt "bb.u-root.com/bb" modfile.empty).
  set (C' := withOrder C order order_perm).
  assert (@bb.range C _ lm ≡ₚ @bb.range C' _ lm) as Hperm.
  { unfold bb.range. now rewrite !rangeOrder_perm. }
  assert (forall l : list (string * Module_),
             Forall (fun kv => exists rs, @moduleReplaces C' w kv.2 = Ok rs) l
             <-> Forall (fun kv => exists rs, @moduleReplaces C w kv.2 = Ok rs) l)
    as Hsame by done.
  split.
  { rewrite (@goModOf_Ok_iff C), (@goModOf_Ok_iff C'), Hsame. now rewrite Hperm. }
  intros md1 md2 E1 E2.
  pose proof (@goModOf_Replaces C _ _ _ _ E1) as P1.
  pose proof (@goModOf_Replaces C' _ _ _ _ E2) as P2.
  change (@replaceCalls C' w) with (@replaceCalls C w) in P2.
  cbn [modfile.Replaces md0 modfile.AddModuleStmt modfile.empty] in P1, P2.
  assert (@bb.range C _ lm ≫= @replaceCalls C w
          ≡ₚ @bb.range C' _ lm ≫= @replaceCalls C w)
    as Hcalls by now apply bind_Permutation.
  apply (@goModOf_Requires C) in E1 as [R1 M1];
    [|apply (@range_NoDup C)|constructor].
  apply (@goModOf_Requires C') in E2 as [R2 M2];
    [|apply (@range_NoDup C')|constructor].
  cbn [modfile.Requires md0 modfile.AddModuleStmt modfile.empty app] in R1, R2.
  assert (modfile.Requires md1 ≡ₚ modfile.Requires md2) as HR.
  { rewrite R1, R2. apply fmap_Permutation. exact Hperm. }
  split; [exact R1|]. split; [exact R2|]. split; [exact HR|].
  split; [congruence|]. split.
  - intros p. rewrite P1, P2, !calls_paths.
    split; (intros [(r & Hr & _)|(c & Hc & Hp)];
            [now apply elem_of_nil in Hr|right; exists c; split; [|done]]).
    + now rewrite <- Hcalls.
    + now rewrite Hcalls.
  - intros Hnd.
    assert (modfile.Replaces md1 ≡ₚ modfile.Replaces md2) as HP.
    { rewrite P1, P2.
      rewrite !calls_distinct; cbn [app];
        [now apply fmap_Permutation
        |now rewrite <- Hcalls
        |intros r c Hr; now apply elem_of_nil in Hr
        |done
        |intros r c Hr; now apply elem_of_nil in Hr]. }
    split; [exact HP|]. apply lines_Permutation; [congruence|done|done].
Qed.

Lemma C1_go_mod_same_up_to_order_witness :
  modfile.Requires ex.abGoMod ≡ₚ modfile.Requires ex.abGoMod'
  /\ modfile.Replaces ex.abGoMod ≡ₚ modfile.Replaces ex.abGoMod'
  /\ modfile.lines ex.abGoMod ≡ₚ modfile.lines ex.abGoMod'.
Proof.
  destruct (proj2 (@C1_go_mod_same_up_to_order ex.abC demo.reversed
                     demo.reversed_perm ex.abModules
                     (ex.sources ex.goModA ex.goModB))
              ex.abGoMod ex.abGoMod' eq_refl eq_refl)
    as (_ & _ & HR & _ & _ & H).
  split; [exact HR|]. apply H.
  apply (bool_decide_unpack _). vm_compute. exact I.
Defined.

(** C1 as stated fails: two builds of the same two commands in the same
    world, one walking the map of local modules in one order and one
    in the opposite order, both succeed and write different [go.mod]
    files.  The lines need not even be the same up to their order:
    when module [a] replaces module [b] by a fork, the [go.mod] has
    the local replacement of [b] in one order and the fork in the
    other. *)
Lemma C1_not_byte_stable_counterexample :
  ((@bb.BuildBusybox ex.abC (Some (ex.genOpts false))
      (ex.sources ex.goModA ex.goModB)).1 = Ok tt
   /\ (@bb.BuildBusybox ex.abC' (Some (ex.genOpts false))
         (ex.sources ex.goModA ex.goModB)).1 = Ok tt
   /\ files (fs (@bb.BuildBusybox ex.abC (Some (ex.genOpts false))
                   (ex.sources ex.goModA ex.goModB)).2) !! ex.genGoMod
      = Some (ex.text ["module bb.u-root.com/bb";
                       "require example.com/a v0.0.0";
                       "require example.com/b v0.0.0";
                       "replace example.com/a => ../../example.com/a";
                       "replace example.com/b => ../../example.com/b"])
   /\ files (fs (@bb.BuildBusybox ex.abC' (Some (ex.genOpts false))
                   (ex.sources ex.goModA ex.goModB)).2) !! ex.genGoMod
      = Some (ex.text ["module bb.u-root.com/bb";
                       "require example.com/b v0.0.0";
                       "require example.com/a v0.0.0";
                       "replace example.com/b => ../../example.com/b";
                       "replace example.com/a => ../../example.com/a"])
   /\ fs (@bb.BuildBusybox ex.abC (Some (ex.genOpts false))
            (ex.sources ex.goModA ex.goModB)).2
      <> fs (@bb.BuildBusybox ex.abC' (Some (ex.genOpts false))
               (ex.sources ex.goModA ex.goModB)).2)
  /\ (@bb.BuildBusybox ex.abC (Some (ex.genOpts false))
        (ex.sources ex.goModAfork ex.goModB)).1 = Ok tt
  /\ (@bb.BuildBusybox ex.abC' (Some (ex.genOpts false))
        (ex.sources ex.goModAfork ex.goModB)).1 = Ok tt
  /\ files (fs (@bb.BuildBusybox ex.abC (Some (ex.genOpts false))
                  (ex.sources ex.goModAfork ex.goModB)).2) !! ex.genGoMod
     = Some (ex.text ["module bb.u-root.com/bb";
                      "require example.com/a v0.0.0";
                      "require example.com/b v0.0.0";
                      "replace example.com/a => ../../example.com/a";
                      "replace example.com/b => ../../example.com/b"])
  /\ files (fs (@bb.BuildBusybox ex.abC' (Some (ex.genOpts false))
                  (ex.sources ex.goModAfork ex.goModB)).2) !! ex.genGoMod
     = Some (ex.text ["module bb.u-root.com/bb";
                      "require example.com/b v0.0.0";
                      "require example.com/a v0.0.0";
                      "replace example.com/b => example.com/fork/b v1.2.3";
                      "replace example.com/a => ../../example.com/a"])
  /\ ~ modfile.lines ex.abForkGoMod ≡ₚ modfile.lines ex.abForkGoMod'.
Proof.
  split.
  { split; [vm_compute; reflexivity|].
    split; [vm_compute; reflexivity|].
    assert (files (fs (@bb.BuildBusybox ex.abC (Some (ex.genOpts false))
                    (ex.sources ex.goModA ex.goModB)).2) !! ex.genGoMod
       = Some (ex.text ["module bb.u-root.com/bb";
                        "require example.com/a v0.0.0";
                        "require example.com/b v0.0.0";
                        "replace example.com/a => ../../example.com/a";
                        "replace example.com/b => ../../example.com/b"])) as H1
      by (vm_compute; reflexivity).
    assert (files (fs (@bb.BuildBusybox ex.abC' (Some (ex.genOpts false))
                    (ex.sources ex.goModA ex.goModB)).2) !! ex.genGoMod
       = Some (ex.text ["module bb.u-root.com/bb";
                        "require example.com/b v0.0.0";
                        "require example.com/a v0.0.0";
                        "replace example.com/b => ../../example.com/b";
                        "replace example.com/a => ../../example.com/a"])) as H2
      by (vm_compute; reflexivity).
    split; [exact H1|]. split; [exact H2|].
    intros Heq. rewrite Heq, H2 in H1. vm_compute in H1. discriminate H1. }
  split; [vm_compute; reflexivity|]. split; [vm_compute; reflexivity|].
  split; [vm_compute; reflexivity|]. split; [vm_compute; reflexivity|].
  intros Hperm.
  assert ("replace example.com/b => ../../example.com/b"
            ∈ modfile.lines ex.abForkGoMod') as Hin.
  { rewrite <- Hperm. vm_compute. do 4 right. left. }
  vm_compute in Hin.
  repeat (apply elem_of_cons in Hin as [Hin|Hin]; [discriminate Hin|]).
  now apply elem_of_nil in Hin.
Qed.

(** * C7: the directives that are copied *)

(** C7, as the code has it.  Building the [go.mod] changes nothing in
    the world: nothing is written to standard error, so the user is
    not warned of anything.  When the [go.mod] is built, every
    directive in it is the local replacement of a local module or has
    the target of a directive, of some local module's own [go.mod],
    whose target is not a local path (one beginning with [./], [../]
    or [/]): no other directive is copied.  Every such directive of a
    local module's own [go.mod] is handed to [AddReplace], and the
    [go.mod] has a directive for its old path.  Of all the calls for
    one old path, the last one in the order in which the loop walks
    the map decides the target: when no later directive of the same
    module, and no later module, has a call for the old path of a
    copied directive, the [go.mod] has the target of that directive
    for it, and so has every directive left for that old path (and
    version). *)
Theorem C7_copied_replace_directives `{C : Collaborators}
    (lm : gmap string Module_) (w : World) :
  (bb.bbGoMod lm w).2 = w
  /\ forall md,
       (bb.bbGoMod lm w).1 = Ok md ->
       (forall r',
           r' ∈ modfile.Replaces md -> modfile.Syntax r' <> [] ->
           (exists k M,
               lm !! k = Some M
               /\ modfile.VPath (modfile.Old r') = k
               /\ modfile.New r' = modfile.New (localReplaceOf k)
               /\ modfile.Syntax r' = modfile.Syntax (localReplaceOf k))
           \/ exists k M rs r,
                lm !! k = Some M /\ moduleReplaces w M = Ok rs /\ r ∈ rs
                /\ bb.isLocalPath (modfile.VPath (modfile.New r)) = false
                /\ modfile.VPath (modfile.Old r') = modfile.VPath (modfile.Old r)
                /\ modfile.New r' = modfile.New r)
       /\ (forall k M rs r,
              lm !! k = Some M -> moduleReplaces w M = Ok rs -> r ∈ rs ->
              bb.isLocalPath (modfile.VPath (modfile.New r)) = false ->
              exists r',
                r' ∈ modfile.Replaces md /\ modfile.Syntax r' <> []
                /\ modfile.VPath (modfile.Old r') = modfile.VPath (modfile.Old r))
       /\ (forall l1 k M l2 rs1 r rs2,
              bb.range lm = (l1 ++ (k, M) :: l2)%list ->
              moduleReplaces w M = Ok (rs1 ++ r :: rs2)%list ->
              bb.isLocalPath (modfile.VPath (modfile.New r)) = false ->
              noneFor (modfile.VPath (modfile.Old r)) rs2 ->
              modfile.VPath (modfile.Old r) ∉ l2.*1 ->
              noCopiedFor w l2 (modfile.VPath (modfile.Old r)) ->
              (exists r',
                  r' ∈ modfile.Replaces md
                  /\ answers (modfile.VPath (modfile.Old r))
                             (modfile.VVersion (modfile.Old r)) r' = true
                  /\ modfile.New r' = modfile.New r)
              /\ forall r',
                   r' ∈ modfile.Replaces md ->
                   answers (modfile.VPath (modfile.Old r))
                           (modfile.VVersion (modfile.Old r)) r' = true ->
                   modfile.Syntax r' <> [] ->
                   modfile.New r' = modfile.New r).
Proof.
  split; [now rewrite bbGoMod_eq|].
  intros md Hmd. rewrite bbGoMod_eq in Hmd. cbn [fst] in Hmd.
  pose proof (goModOf_Replaces _ _ _ _ Hmd) as HR.
  cbn [modfile.Replaces modfile.AddModuleStmt modfile.empty] in HR.
  split; [|split].
  - intros r' Hin Hs. rewrite HR in Hin.
    destruct (calls_nonblank _ _ _ Hin Hs) as [H|(c & Hc & Hn & Hsy & Hp)];
      [now apply elem_of_nil in H|].
    apply replaceCalls_elem in Hc
      as ([k M] & Hkv%range_elem & [->|(rs & r & Hrs & Hr & Hl & ->)]);
      cbn [fst snd] in *.
    + left. exists k, M. done.
    + right. exists k, M, rs, r. rewrite Hn, !New_written. done.
  - intros k M rs r Hk Hrs Hr Hl. rewrite HR.
    apply (proj2 (calls_paths _ [] _)). right. exists (written r).
    split; [|done]. apply replaceCalls_elem. exists (k, M).
    split; [now apply range_elem|]. right. exists rs, r. done.
  - intros l1 k M l2 rs1 r rs2 Hrange Hrs Hl Hnone Hnot Hnc.
    assert (bb.range lm ≫= replaceCalls w
            = ((l1 ≫= replaceCalls w)
                 ++ localReplaceOf k
                 :: (written <$> List.filter
                       (fun r => negb (bb.isLocalPath
                                         (modfile.VPath (modfile.New r)))) rs1))
                ++ written r
                :: ((written <$> List.filter
                       (fun r => negb (bb.isLocalPath
                                         (modfile.VPath (modfile.New r)))) rs2)
                      ++ (l2 ≫= replaceCalls w)))%list as Hcalls.
    { rewrite Hrange, bind_app, bind_cons. unfold replaceCalls at 2.
      cbn [fst snd]. rewrite Hrs, List.filter_app. cbn [List.filter].
      rewrite Hl. cbn [negb]. rewrite fmap_app, fmap_cons.
      rewrite <- !app_assoc. cbn [app]. rewrite <- !app_assoc. reflexivity. }
    rewrite HR, Hcalls.
    match goal with
    | |- context [foldl putReplace [] (?pre ++ written r :: ?post)] =>
        destruct (calls_last pre post (written r) []) as [(r' & Hin & Ha & Hn & _) Hall]
    end.
    { intros c [Hc|Hc]%elem_of_app.
      - apply list_elem_of_fmap in Hc as (r2 & -> & Hr2).
        apply list_elem_of_In, filter_In in Hr2 as [Hr2 Hl2].
        apply (Hnone r2); [now apply list_elem_of_In|now apply negb_true_iff].
      - apply replaceCalls_elem in Hc
          as (kv & Hkv & [->|(rs' & r2 & Hrs' & Hr2 & Hl2 & ->)]).
        + cbn. intros Heq. apply Hnot. rewrite <- Heq.
          apply list_elem_of_fmap. eauto.
        + apply (Hnc kv rs' r2); done. }
    rewrite !New_written in Hn. split.
    { exists r'. split; [exact Hin|]. split; [exact Ha|exact Hn]. }
    intros r2 Hin2 Ha2 Hs2. rewrite (Hall r2 Hin2 Ha2 Hs2), !New_written.
    reflexivity.
Qed.

Lemma C7_copied_replace_directives_witness :
  (exists r',
      r' ∈ modfile.Replaces ex.abxGoMod /\ modfile.Syntax r' <> []
      /\ modfile.VPath (modfile.Old r') = "example.com/x")
  /\ exists r',
       r' ∈ modfile.Replaces ex.abxGoMod
       /\ answers "example.com/x" "" r' = true
       /\ modfile.New r' = modfile.mkVersion "example.com/y2" "v1.0.0".
Proof.
  destruct (proj2 (@C7_copied_replace_directives ex.abC ex.abModules
                     (ex.sources ex.goModAx ex.goModBx))
              ex.abxGoMod eq_refl) as (_ & Hcopied & Hlast).
  split.
  - apply (Hcopied "example.com/a" ex.modA
             [ex.xToY1;
              modfile.mkReplace (modfile.mkVersion "example.com/l" "")
                (modfile.mkVersion "../l" "")
                ["replace"; "example.com/l"; "=>"; "../l"]]
             ex.xToY1);
      [reflexivity|reflexivity|apply list_elem_of_here|reflexivity].
  - apply (Hlast [("example.com/a", ex.modA)] "example.com/b" ex.modB []
             [] ex.xToY2 []).
    + reflexivity.
    + reflexivity.
    + reflexivity.
    + intros r Hr. now apply elem_of_nil in Hr.
    + intros Hin. now apply elem_of_nil in Hin.
    + intros kv rs r Hkv. now apply elem_of_nil in Hkv.
Defined.

(** C7 as stated fails: modules [a] and [b] replace [example.com/x] by
    different modules.  With [a] walked before [b], the [go.mod] of the
    busybox has the target of [b], the second writer, and nothing was
    written to standard error. *)
Lemma C7_last_writer_no_warning_counterexample :
  (@bb.BuildBusybox ex.abC (Some (ex.genOpts false))
     (ex.sources ex.goModAx ex.goModBx)).1 = Ok tt
  /\ (bb.range (C:=ex.abC) ex.abModules).*1 = ["example.com/a"; "example.com/b"]
  /\ files (fs (@bb.BuildBusybox ex.abC (Some (ex.genOpts false))
                  (ex.sources ex.goModAx ex.goModBx)).2) !! ex.genGoMod
     = Some (ex.text ["module bb.u-root.com/bb";
                      "require example.com/a v0.0.0";
                      "require example.com/b v0.0.0";
                      "replace example.com/a => ../../example.com/a";
                      "replace example.com/x => example.com/y2 v1.0.0";
                      "replace example.com/b => ../../example.com/b"])
  /\ stderr (@bb.BuildBusybox ex.abC (Some (ex.genOpts false))
               (ex.sources ex.goModAx ex.goModBx)).2 = [].
Proof. repeat split; vm_compute; reflexivity. Qed.

(** * C8: conflicting local modules *)

Section fold_facts.

Context {A B : Type}.

(** A loop keeps an invariant [P] of the threaded value and the world;
    when it returns an error, [Q] holds of it. *)
Lemma foldM_inv (f : B -> A -> M B) (P : B -> World -> Prop)
    (Q : error -> World -> Prop) (l : list A) :
  (forall b x w, x ∈ l -> P b w ->
     match f b x w with
     | (Ok b', w') => P b' w'
     | (Err e, w') => Q e w'
     | (Panic _, _) => True
     end) ->
  forall b w, P b w ->
    match foldM f b l w with
    | (Ok b', w') => P b' w'
    | (Err e, w') => Q e w'
    | (Panic _, _) => True
    end.
Proof.
  induction l as [|x l IH]; intros Hf b w HP; [exact HP|].
  cbn [foldM]. unfold mbind, M_bind, bind.
  pose proof (Hf b x w ltac:(left) HP) as Hx.
  destruct (f b x w) as [[b'|e|v] w']; [|exact Hx|exact I].
  apply IH; [|exact Hx]. intros b0 x0 w0 Hin. apply Hf. now right.
Qed.

(** When a loop succeeds, what each round establishes of its element,
    and later rounds keep, holds of every element at the end. *)
Lemma foldM_each (f : B -> A -> M B) (R : A -> B -> Prop)
    (le : B -> B -> Prop) :
  (forall b, le b b) -> (forall a b c, le a b -> le b c -> le a c) ->
  (forall x b b', R x b -> le b b' -> R x b') ->
  forall l : list A,
  (forall b x w b' w', x ∈ l -> f b x w = (Ok b', w') -> R x b' /\ le b b') ->
  forall b w b' w',
    foldM f b l w = (Ok b', w') -> le b b' /\ forall x, x ∈ l -> R x b'.
Proof.
  intros Hrefl Htrans Hmono l. induction l as [|x l IH]; intros Hf b w b' w'.
  - cbn. intros [= <- <-]. split; [apply Hrefl|].
    intros x Hx. now apply elem_of_nil in Hx.
  - cbn [foldM]. unfold mbind, M_bind, bind.
    destruct (f b x w) as [[b1|e|v] w1] eqn:E; [|discriminate|discriminate].
    intros Hrest. destruct (Hf b x w b1 w1 ltac:(left) E) as [HR Hle].
    apply IH in Hrest as [Hle' Hall].
    + split; [eapply Htrans; eauto|].
      intros y [->|Hy]%elem_of_cons; [eapply Hmono; eauto|now apply Hall].
    + intros b0 x0 w0 b0' w0' Hin. apply Hf. now right.
Qed.

End fold_facts.

(** A flag that a loop can only raise: once an element raises it (or
    does not come back with a flag), the loop ends with the flag raised,
    or does not come back with a flag. *)
Lemma foldM_raised {A : Type} (f : bool -> A -> M bool) (l : list A) :
  (forall x w, (f true x w).1 <> Ok false) ->
  forall b w,
    (b = true \/ exists x, x ∈ l /\ forall b w, (f b x w).1 <> Ok false) ->
    (foldM f b l w).1 <> Ok false.
Proof.
  intros Hkeep. induction l as [|x l IH]; intros b w Htrig.
  - destruct Htrig as [->|(x & Hx & _)]; [done|now apply elem_of_nil in Hx].
  - cbn [foldM]. unfold mbind, M_bind, bind.
    destruct (f b x w) as [[b'|e|v] w'] eqn:E; [|done|done].
    apply IH. destruct Htrig as [->|(x0 & Hx0 & Hraise)].
    + left. specialize (Hkeep x w). rewrite E in Hkeep. cbn in Hkeep.
      destruct b'; congruence.
    + apply elem_of_cons in Hx0 as [->|Hx0].
      * left. specialize (Hraise b w). rewrite E in Hraise. cbn in Hraise.
        destruct b'; congruence.
      * right. eauto.
Qed.

Section quiet.

Lemma quiet_ret {A} (a : A) : quiet (mret a).
Proof. now intros w. Qed.

Lemma quiet_fail {A} (e : error) : quiet (@fail A e).
Proof. now intros w. Qed.

Lemma quiet_bind {A B} (c : M A) (k : A -> M B) :
  quiet c -> (forall a, quiet (k a)) -> quiet (c ≫= k).
Proof.
  intros Hc Hk w. unfold mbind, M_bind, bind. specialize (Hc w).
  destruct (c w) as [[a|e|v] w']; cbn [snd] in *; [|done|done].
  now rewrite Hk.
Qed.

Lemma quiet_errOf {A} (c : M A) : quiet c -> quiet (errOf c).
Proof.
  intros Hc w. unfold errOf. specialize (Hc w). now destruct (c w) as [[a|e|v] w'].
Qed.

Lemma quiet_orReturn {A} (c : M A) (wrap : error -> error) :
  quiet c -> quiet (orReturn c wrap).
Proof.
  intros Hc w. unfold orReturn. specialize (Hc w).
  now destruct (c w) as [[a|e|v] w'].
Qed.

Lemma quiet_getFS : quiet getFS.
Proof. now intros w. Qed.

Lemma quiet_putFS (f : FS) : quiet (putFS f).
Proof. now intros w. Qed.

Lemma quiet_MkdirAll (p : string) : quiet (fsys.MkdirAll p).
Proof.
  apply quiet_bind; [apply quiet_getFS|]. intros f.
  destruct (existsb _ _); [apply quiet_fail|apply quiet_putFS].
Qed.

Lemma quiet_ReadFile (p : string) : quiet (fsys.ReadFile p).
Proof.
  apply quiet_bind; [apply quiet_getFS|]. intros f.
  destruct (files f !! path.Clean p); [apply quiet_ret|].
  destruct (fsys.isDir f p); apply quiet_fail.
Qed.

Lemma quiet_WriteFile (p data : string) : quiet (fsys.WriteFile p data).
Proof.
  apply quiet_bind; [apply quiet_getFS|]. intros f.
  destruct (fsys.isDir f p); [apply quiet_fail|].
  destruct (negb _); [apply quiet_fail|apply quiet_putFS].
Qed.

Lemma quiet_AppendFile (p data : string) : quiet (fsys.AppendFile p data).
Proof.
  apply quiet_bind; [apply quiet_getFS|]. intros f.
  destruct (fsys.isDir f p); [apply quiet_fail|].
  destruct (negb _); [apply quiet_fail|apply quiet_putFS].
Qed.

Lemma quiet_Copy (src dst : string) : quiet (fsys.Copy src dst).
Proof.
  apply quiet_bind; [apply quiet_ReadFile|]. intros d. apply quiet_WriteFile.
Qed.

Lemma quiet_copyGoMod (pkgDir bbDir : string) (md : option Module_) :
  quiet (bb.copyGoMod pkgDir bbDir md).
Proof.
  destruct md as [md|]; [|apply quiet_ret]. unfold bb.copyGoMod.
  apply quiet_bind; [apply quiet_errOf, quiet_MkdirAll|]. intros [e|].
  - destruct (os.IsExist e); [apply quiet_ret|apply quiet_fail].
  - apply quiet_bind; [apply quiet_Copy|]. intros _.
    apply quiet_bind; [apply quiet_errOf, quiet_Copy|]. intros [e|].
    + destruct (os.IsNotExist e); [apply quiet_ret|apply quiet_fail].
    + apply quiet_bind; [apply quiet_ReadFile|]. intros d. apply quiet_AppendFile.
Qed.

End quiet.

Section conflicts.

Context `{C : Collaborators}.

Lemma Visit_self (p : Package) : p ∈ Visit [p].
Proof.
  unfold Visit. cbn [foldl]. destruct p as [id pp mo imports].
  cbn [visit]. destruct (decide (id ∈ (∅, @nil Package).1)) as [Hin|_].
  - now apply not_elem_of_empty in Hin.
  - cbn [snd]. apply elem_of_app. right. left.
Qed.

Lemma sightings_elem (mainPkgs : list bbinternal.Package) (s : Module_) :
  s ∈ sightings mainPkgs <->
  exists p pkg, p ∈ mainPkgs /\ pkg ∈ Visit [bbinternal.Pkg p]
                /\ Module pkg = Some s.
Proof.
  unfold sightings. rewrite list_elem_of_bind. split.
  - intros (p & Hs & Hp). apply list_elem_of_omap in Hs as (pkg & Hpkg & Hm).
    eauto.
  - intros (p & pkg & Hp & Hpkg & Hm). exists p. split; [|done].
    apply list_elem_of_omap. eauto.
Qed.

Lemma locallyReplaced_fold (L l : list Package) (m0 : gmap string Module_) :
  (forall x, x ∈ l -> x ∈ L) ->
  (forall k v, m0 !! k = Some v ->
     Path v = k /\ exists pkg, pkg ∈ L /\ Module pkg = Some v) ->
  forall k v,
    foldl (fun m pkg =>
             if bb.locallyReplaced pkg then
               match Module pkg with
               | Some pm => <[Path pm := pm]> m
               | None => m
               end
             else m) m0 l !! k = Some v ->
    Path v = k /\ exists pkg, pkg ∈ L /\ Module pkg = Some v.
Proof.
  revert m0. induction l as [|x l IH]; intros m0 HL Hm0 k v; [apply Hm0|].
  cbn [foldl]. apply IH.
  - intros y Hy. apply HL. now right.
  - intros k' v'. destruct (bb.locallyReplaced x); [|apply Hm0].
    destruct (Module x) as [pm|] eqn:Ex; [|apply Hm0].
    destruct (decide (Path pm = k')) as [<-|Hne].
    + rewrite lookup_insert_eq. intros [= <-]. split; [done|].
      exists x. split; [apply HL; left|done].
    + rewrite lookup_insert_ne by done. apply Hm0.
Qed.

Lemma locallyReplacedModules_lookup (p : Package) (k : string) (v : Module_) :
  bb.locallyReplacedModules p !! k = Some v ->
  Path v = k /\ (exists pkg, pkg ∈ Visit [p] /\ Module pkg = Some v)
  /\ is_Some (Module p).
Proof.
  unfold bb.locallyReplacedModules. destruct (Module p) as [pm|].
  - intros H. apply (locallyReplaced_fold (Visit [p])) in H as [H1 H2];
      [eauto|done|].
    intros k' v'. now rewrite lookup_empty.
  - now rewrite lookup_empty.
Qed.

Lemma localEntries_elem (mainPkgs : list bbinternal.Package) (l : Module_) :
  l ∈ localEntries mainPkgs <->
  (exists p, p ∈ mainPkgs /\ Module (bbinternal.Pkg p) = Some l)
  \/ (exists p, p ∈ mainPkgs
                /\ bb.locallyReplacedModules (bbinternal.Pkg p) !! Path l = Some l).
Proof.
  unfold localEntries. rewrite elem_of_app, list_elem_of_omap, list_elem_of_bind.
  split.
  - intros [(p & Hp & Hm)|(p & Hl & Hp)]; [left; eauto|right].
    exists p. split; [done|].
    apply list_elem_of_fmap in Hl as ([k v] & -> & Hkv). cbn [snd].
    apply elem_of_map_to_list in Hkv.
    destruct (locallyReplacedModules_lookup _ _ _ Hkv) as [-> _]. done.
  - intros [(p & Hp & Hm)|(p & Hp & Hl)]; [left; eauto|right].
    exists p. split; [|done]. apply list_elem_of_fmap. exists (Path l, l).
    split; [done|]. now apply elem_of_map_to_list.
Qed.

(** Every local-module entry is the module of some package that
    [Visit] reaches. *)
Lemma localEntries_sightings (mainPkgs : list bbinternal.Package)
    (l : Module_) :
  l ∈ localEntries mainPkgs -> l ∈ sightings mainPkgs.
Proof.
  rewrite localEntries_elem, sightings_elem.
  intros [(p & Hp & Hm)|(p & Hp & Hl)].
  - exists p, (bbinternal.Pkg p). split; [done|]. split; [apply Visit_self|done].
  - apply locallyReplacedModules_lookup in Hl as (_ & (pkg & Hpkg & Hm) & _).
    eauto.
Qed.

End conflicts.

Section returns.

Lemma returns_ret {A} (a : A) : returns (mret a).
Proof. now intros w v. Qed.

Lemma returns_fail {A} (e : error) : returns (@fail A e).
Proof. now intros w v. Qed.

Lemma returns_bind {A B} (c : M A) (k : A -> M B) :
  returns c -> (forall a, returns (k a)) -> returns (c ≫= k).
Proof.
  intros Hc Hk w v. unfold mbind, M_bind, bind. specialize (Hc w).
  destruct (c w) as [[a|e|v'] w']; cbn [fst] in *; [apply Hk|done|].
  now specialize (Hc v').
Qed.

Lemma returns_errOf {A} (c : M A) : returns c -> returns (errOf c).
Proof.
  intros Hc w v. unfold errOf. specialize (Hc w).
  destruct (c w) as [[a|e|v'] w']; cbn [fst] in *; [done|done|].
  now specialize (Hc v').
Qed.

Lemma returns_orReturn {A} (c : M A) (wrap : error -> error) :
  returns c -> returns (orReturn c wrap).
Proof.
  intros Hc w v. unfold orReturn. specialize (Hc w).
  destruct (c w) as [[a|e|v'] w']; cbn [fst] in *; [done|done|].
  now specialize (Hc v').
Qed.

Lemma returns_foldM {A B} (f : B -> A -> M B) (l : list A) (b : B) :
  (forall b x, x ∈ l -> returns (f b x)) -> returns (foldM f b l).
Proof.
  revert b. induction l as [|x l IH]; intros b Hf; [apply returns_ret|].
  cbn [foldM]. apply returns_bind; [apply Hf; left|].
  intros b'. apply IH. intros b0 x0 Hx0. apply Hf. now right.
Qed.

Lemma returns_getFS : returns getFS.
Proof. now intros w v. Qed.

Lemma returns_putFS (f : FS) : returns (putFS f).
Proof. now intros w v. Qed.

Lemma returns_logPrintf (line : string) : returns (logPrintf line).
Proof. now intros w v. Qed.

Lemma returns_MkdirAll (p : string) : returns (fsys.MkdirAll p).
Proof.
  apply returns_bind; [apply returns_getFS|]. intros f.
  destruct (existsb _ _); [apply returns_fail|apply returns_putFS].
Qed.

Lemma returns_ReadFile (p : string) : returns (fsys.ReadFile p).
Proof.
  apply returns_bind; [apply returns_getFS|]. intros f.
  destruct (files f !! path.Clean p); [apply returns_ret|].
  destruct (fsys.isDir f p); apply returns_fail.
Qed.

Lemma returns_WriteFile (p data : string) : returns (fsys.WriteFile p data).
Proof.
  apply returns_bind; [apply returns_getFS|]. intros f.
  destruct (fsys.isDir f p); [apply returns_fail|].
  destruct (negb _); [apply returns_fail|apply returns_putFS].
Qed.

Lemma returns_AppendFile (p data : string) : returns (fsys.AppendFile p data).
Proof.
  apply returns_bind; [apply returns_getFS|]. intros f.
  destruct (fsys.isDir f p); [apply returns_fail|].
  destruct (negb _); [apply returns_fail|apply returns_putFS].
Qed.

Lemma returns_Copy (src dst : string) : returns (fsys.Copy src dst).
Proof.
  apply returns_bind; [apply returns_ReadFile|]. intros d. apply returns_WriteFile.
Qed.

Lemma returns_RemoveAll (d : string) : returns (fsys.RemoveAll d).
Proof.
  apply returns_bind; [apply returns_getFS|]. intros f. apply returns_putFS.
Qed.

Lemma returns_copyGoMod (pkgDir bbDir : string)
    (md : option Module_) :
  returns (bb.copyGoMod pkgDir bbDir md).
Proof.
  destruct md as [md|]; [|apply returns_ret]. unfold bb.copyGoMod.
  apply returns_bind; [apply returns_errOf, returns_MkdirAll|]. intros [e|].
  - destruct (os.IsExist e); [apply returns_ret|apply returns_fail].
  - apply returns_bind; [apply returns_Copy|]. intros _.
    apply returns_bind; [apply returns_errOf, returns_Copy|]. intros [e|].
    + destruct (os.IsNotExist e); [apply returns_ret|apply returns_fail].
    + apply returns_bind; [apply returns_ReadFile|]. intros d.
      apply returns_AppendFile.
Qed.

End returns.

Section local_modules_steps.

Context `{C : Collaborators}.

Variable mainPkgs : list bbinternal.Package.
Variables pkgDir bbDir : string.

Lemma keysLe_refl (lm : gmap string bb.localModule) : keysLe lm lm.
Proof. now intros k Hk. Qed.

Lemma keysLe_trans (a b c : gmap string bb.localModule) :
  keysLe a b -> keysLe b c -> keysLe a c.
Proof. intros H1 H2 k Hk. now apply H2, H1. Qed.

Lemma keysLe_insert (lm : gmap string bb.localModule) (k : string)
    (e : bb.localModule) : keysLe lm (<[k := e]> lm).
Proof.
  intros k' Hk'. destruct (decide (k = k')) as [->|Hne].
  - rewrite lookup_insert_eq. eauto.
  - now rewrite lookup_insert_ne.
Qed.

Lemma entriesOk_insert (lm : gmap string bb.localModule) (md : Module_)
    (prov : string) :
  entriesOk mainPkgs lm -> md ∈ localEntries mainPkgs ->
  entriesOk mainPkgs (<[Path md := bb.mkLocalModule md prov]> lm).
Proof.
  intros Hok Hin k e. destruct (decide (Path md = k)) as [<-|Hne].
  - rewrite lookup_insert_eq. now intros [= <-].
  - rewrite lookup_insert_ne by done. apply Hok.
Qed.

Lemma copy_step (md : Module_) (name : string) (lm' : gmap string bb.localModule)
    (w : World) :
  let c := orReturn (bb.copyGoMod pkgDir bbDir (Some md))
             (fun err => bb.Errorf ("failed to copy go.mod for " ++ name
                                      ++ ": " ++ Error err));; ret lm' in
  stderr (c w).2 = stderr w
  /\ match (c w).1 with
     | Ok lm'' => lm'' = lm'
     | Err e => isCopyError e
     | Panic _ => False
     end.
Proof.
  cbn zeta. split.
  - apply quiet_bind; [apply quiet_orReturn, quiet_copyGoMod|].
    intros _. apply quiet_ret.
  - pose proof (returns_copyGoMod pkgDir bbDir (Some md) w) as Hret.
    unfold mbind, M_bind, bind, orReturn.
    destruct (bb.copyGoMod pkgDir bbDir (Some md) w) as [[[]|e|v] w']; cbn; [done| |].
    + now exists name, e.
    + now apply (Hret v).
Qed.

Lemma topLevelModule_step (lm : gmap string bb.localModule)
    (p : bbinternal.Package) (w : World) :
  p ∈ mainPkgs ->
  stderr (bb.topLevelModule pkgDir bbDir lm p w).2 = stderr w
  /\ match (bb.topLevelModule pkgDir bbDir lm p w).1 with
     | Ok lm' =>
         keysLe lm lm'
         /\ (forall pm, Module (bbinternal.Pkg p) = Some pm ->
                        is_Some (lm' !! Path pm))
         /\ (entriesOk mainPkgs lm -> entriesOk mainPkgs lm')
     | Err e => isCopyError e
     | Panic _ => False
     end.
Proof.
  intros Hp. unfold bb.topLevelModule.
  destruct (Module (bbinternal.Pkg p)) as [pm|] eqn:Em.
  - destruct (lm !! Path pm) as [e0|] eqn:El.
    + split; [done|]. cbn. split; [apply keysLe_refl|]. split; [|done].
      intros pm' [= <-]. rewrite El. eauto.
    + cbv zeta.
      destruct (copy_step pm (Path pm)
                  (<[Path pm := bb.mkLocalModule pm
                       ("your request to compile " ++ Path pm ++ " from "
                          ++ Dir pm)]> lm) w) as [Hs Hr].
      cbv zeta in Hs, Hr. split; [exact Hs|].
      match type of Hr with match ?t with _ => _ end =>
        destruct t as [lm''|e|v] end; [|exact Hr|exact Hr].
      subst lm''. split; [apply keysLe_insert|]. split.
      * intros pm' [= <-]. rewrite lookup_insert_eq. eauto.
      * intros Hok. apply entriesOk_insert; [done|].
        apply localEntries_elem. left. eauto.
  - split; [done|]. cbn. split; [apply keysLe_refl|].
    split; [discriminate|done].
Qed.

Lemma replacedModule_step (p : bbinternal.Package)
    (lm : gmap string bb.localModule) (kv : string * Module_) (w : World)
    (pm : Module_) :
  Module (bbinternal.Pkg p) = Some pm ->
  stderr (bb.replacedModule pkgDir bbDir p lm kv w).2 = stderr w
  /\ match (bb.replacedModule pkgDir bbDir p lm kv w).1 with
     | Ok lm' =>
         keysLe lm lm' /\ is_Some (lm' !! kv.1)
         /\ (entriesOk mainPkgs lm -> Path kv.2 = kv.1 ->
             kv.2 ∈ localEntries mainPkgs -> entriesOk mainPkgs lm')
     | Err e =>
         isCopyError e
         \/ exists original,
              lm !! kv.1 = Some original
              /\ Dir (bb.m original) <> Dir kv.2
              /\ e = conflictError kv.1 original pm
     | Panic _ => False
     end.
Proof.
  intros Hpm. destruct kv as [modPath module]. unfold bb.replacedModule.
  cbn [fst snd]. destruct (lm !! modPath) as [original|] eqn:El.
  - destruct (String.eqb_spec (Dir (bb.m original)) (Dir module)) as [Heq|Hne];
      cbn [negb].
    + split; [done|]. cbn. split; [apply keysLe_refl|]. split; [|done].
      rewrite El. eauto.
    + rewrite Hpm. cbn. split; [done|]. right. exists original. done.
  - rewrite Hpm.
    assert (forall (k : Module_ -> M (gmap string bb.localModule)) w0,
               (deref (Some pm) ≫= k) w0 = k pm w0) as Hd by done.
    rewrite Hd. cbv zeta.
    destruct (copy_step module (Path pm)
                (<[modPath := bb.mkLocalModule module
                     (Path pm ++ "'s go.mod (" ++ GoMod pm ++ ")")]> lm) w)
      as [Hs Hr].
    cbv zeta in Hs, Hr. split; [exact Hs|].
    match type of Hr with match ?t with _ => _ end =>
      destruct t as [lm''|e|v] end; [|now left|exact Hr].
    subst lm''. split; [apply keysLe_insert|]. split.
    + rewrite lookup_insert_eq. eauto.
    + intros Hok Hpath Hin k e. destruct (decide (modPath = k)) as [<-|Hne].
      * rewrite lookup_insert_eq. now intros [= <-].
      * rewrite lookup_insert_ne by done. apply Hok.
Qed.

(** One round of the third loop.  On a conflict under a command that
    is in no module, the program panics on the nil pointer after the
    first two lines of the report. *)
Lemma remoteConflict_step (lm : gmap string bb.localModule)
    (mainPkg : bbinternal.Package) (conflict : bool) (p : Package) (w : World) :
  match Module p with
  | Some pmod =>
      match lm !! Path pmod with
      | Some l =>
          if String.eqb (Dir (bb.m l)) (Dir pmod)
          then bb.remoteConflict lm mainPkg conflict p w = (Ok conflict, w)
          else
            match Module (bbinternal.Pkg mainPkg) with
            | Some mm =>
                (forall v, filepath_Rel (Dir mm) (Dir (bb.m l)) <> Panic v) ->
                bb.remoteConflict lm mainPkg conflict p w
                = (Ok true,
                   mkWorld (fs w) (stderr w ++ conflictLog l mm pmod))
            | None =>
                bb.remoteConflict lm mainPkg conflict p w
                = (Panic nilDeref,
                   mkWorld (fs w)
                     (stderr w
                        ++ [""; "Conflicting module dependencies on "
                                  ++ Path pmod ++ ":"]))
            end
      | None => bb.remoteConflict lm mainPkg conflict p w = (Ok conflict, w)
      end
  | None => bb.remoteConflict lm mainPkg conflict p w = (Ok conflict, w)
  end.
Proof.
  unfold bb.remoteConflict. destruct (Module p) as [pmod|]; [|done].
  destruct (lm !! Path pmod) as [l|]; [|done].
  destruct (String.eqb (Dir (bb.m l)) (Dir pmod)); cbn [negb]; [done|].
  destruct (Module (bbinternal.Pkg mainPkg)) as [mm|].
  - intros Hrel.
    unfold conflictLog, mbind, M_bind, bind, logPrintf, deref, mret, M_ret, ret,
      orDefault, bb.liftResult, fail, panic.
    cbn [fs stderr].
    destruct (filepath_Rel (Dir mm) (Dir (bb.m l))) as [rel|e|v];
      [| |now destruct (Hrel v)];
      cbn [fs stderr fst snd]; f_equal; f_equal;
      repeat (rewrite <- app_assoc; cbn [fs stderr]); reflexivity.
  - unfold mbind, M_bind, bind, logPrintf, deref, panic. cbn [fs stderr].
    f_equal. f_equal. now rewrite <- app_assoc.
Qed.

End local_modules_steps.

Section local_modules_loops.

Context `{C : Collaborators}.

Variable mainPkgs : list bbinternal.Package.
Variables pkgDir bbDir : string.

Lemma localModules_loops (w : World) :
  bb.localModules pkgDir bbDir mainPkgs w
  = (lm ← loop1 mainPkgs pkgDir bbDir; lm ← loop2 mainPkgs pkgDir bbDir lm;
     conflict ← loop3 mainPkgs lm;
     if conflict : bool
     then fail (bb.Errorf "conflicting module dependencies found")
     else ret (bb.m <$> lm)) w.
Proof. reflexivity. Qed.

Lemma quiet_foldM {A B} (f : B -> A -> M B) (l : list A) (b : B) :
  (forall b x, quiet (f b x)) -> quiet (foldM f b l).
Proof.
  intros Hf. revert b. induction l as [|x l IH]; intros b; [apply quiet_ret|].
  cbn [foldM]. apply quiet_bind; [apply Hf|apply IH].
Qed.

Lemma quiet_topLevelModule (lm : gmap string bb.localModule)
    (p : bbinternal.Package) :
  quiet (bb.topLevelModule pkgDir bbDir lm p).
Proof.
  unfold bb.topLevelModule. destruct (Module (bbinternal.Pkg p)) as [pm|];
    [|apply quiet_ret].
  destruct (lm !! Path pm); [apply quiet_ret|].
  apply quiet_bind; [apply quiet_orReturn, quiet_copyGoMod|].
  intros _. apply quiet_ret.
Qed.

Lemma quiet_deref {A} (p : option A) : quiet (deref p).
Proof. now destruct p. Qed.

Lemma quiet_replacedModule (p : bbinternal.Package)
    (lm : gmap string bb.localModule) (kv : string * Module_) :
  quiet (bb.replacedModule pkgDir bbDir p lm kv).
Proof.
  destruct kv as [k v]. unfold bb.replacedModule.
  destruct (lm !! k) as [original|].
  - destruct (negb _); [|apply quiet_ret].
    apply quiet_bind; [apply quiet_deref|]. intros pm. apply quiet_fail.
  - apply quiet_bind; [apply quiet_deref|]. intros pm.
    apply quiet_bind; [apply quiet_orReturn, quiet_copyGoMod|].
    intros _. apply quiet_ret.
Qed.

Lemma quiet_loop1 : quiet (loop1 mainPkgs pkgDir bbDir).
Proof. apply quiet_foldM. intros b x. apply quiet_topLevelModule. Qed.

Lemma quiet_loop2 (lm : gmap string bb.localModule) :
  quiet (loop2 mainPkgs pkgDir bbDir lm).
Proof.
  apply quiet_foldM. intros b x. apply quiet_foldM. intros b' kv.
  apply quiet_replacedModule.
Qed.

Lemma range_empty {V} : bb.range (∅ : gmap string V) = [].
Proof.
  unfold bb.range. rewrite map_to_list_empty.
  apply Permutation_nil_r. apply rangeOrder_perm.
Qed.

Lemma returns_loop1 : returns (loop1 mainPkgs pkgDir bbDir).
Proof.
  apply returns_foldM. intros b p _. unfold bb.topLevelModule.
  destruct (Module (bbinternal.Pkg p)) as [pm|]; [|apply returns_ret].
  destruct (b !! Path pm); [apply returns_ret|].
  apply returns_bind; [apply returns_orReturn, returns_copyGoMod|].
  intros _. apply returns_ret.
Qed.

Lemma returns_loop2 (lm : gmap string bb.localModule) :
  returns (loop2 mainPkgs pkgDir bbDir lm).
Proof.
  apply returns_foldM. intros b p _.
  destruct (Module (bbinternal.Pkg p)) as [pm|] eqn:Em.
  - apply returns_foldM. intros b' [k v] _. unfold bb.replacedModule.
    rewrite Em. destruct (b' !! k) as [original|].
    + destruct (negb _); [|apply returns_ret].
      apply returns_bind; [apply returns_ret|]. intros pm'. apply returns_fail.
    + apply returns_bind; [apply returns_ret|]. intros pm'.
      apply returns_bind; [apply returns_orReturn, returns_copyGoMod|].
      intros _. apply returns_ret.
  - unfold bb.locallyReplacedModules. rewrite Em, range_empty. apply returns_ret.
Qed.

(** ** The first loop *)

(** The entries that the first loop records. *)
Lemma topLevelModule_top (lm : gmap string bb.localModule)
    (p : bbinternal.Package) (w : World) (lm' : gmap string bb.localModule)
    (w' : World) :
  bb.topLevelModule pkgDir bbDir lm p w = (Ok lm', w') ->
  bb.m <$> lm' = topStep (bb.m <$> lm) p
  /\ ((forall k l, lm !! k = Some l ->
         Path (bb.m l) = k
         /\ bb.provenance l
            = "your request to compile " ++ k ++ " from " ++ Dir (bb.m l)) ->
      forall k l, lm' !! k = Some l ->
         Path (bb.m l) = k
         /\ bb.provenance l
            = "your request to compile " ++ k ++ " from " ++ Dir (bb.m l)).
Proof.
  unfold bb.topLevelModule, topStep.
  destruct (Module (bbinternal.Pkg p)) as [pm|]; [|now intros [= <- <-]].
  rewrite lookup_fmap. destruct (lm !! Path pm) as [e0|] eqn:El; cbn [fmap option_fmap option_map].
  - now intros [= <- <-].
  - cbv zeta. intros H.
    pose proof (copy_step pkgDir bbDir pm (Path pm)
                  (<[Path pm := bb.mkLocalModule pm
                       ("your request to compile " ++ Path pm ++ " from "
                          ++ Dir pm)]> lm) w) as [_ Hr].
    cbv zeta in Hr. rewrite H in Hr. cbn [fst] in Hr. subst lm'.
    split; [now rewrite fmap_insert|].
    intros Hinv k l. destruct (decide (Path pm = k)) as [<-|Hne].
    + rewrite lookup_insert_eq. now intros [= <-].
    + rewrite lookup_insert_ne by done. apply Hinv.
Qed.

Lemma loop1_from (l : list bbinternal.Package)
    (lm0 : gmap string bb.localModule) (w : World) :
  (forall p, p ∈ l -> p ∈ mainPkgs) ->
  match foldM (bb.topLevelModule pkgDir bbDir) lm0 l w with
  | (Ok lm1, _) =>
      bb.m <$> lm1 = foldl topStep (bb.m <$> lm0) l
      /\ ((forall k l, lm0 !! k = Some l ->
             Path (bb.m l) = k
             /\ bb.provenance l
                = "your request to compile " ++ k ++ " from " ++ Dir (bb.m l)) ->
          forall k l, lm1 !! k = Some l ->
             Path (bb.m l) = k
             /\ bb.provenance l
                = "your request to compile " ++ k ++ " from " ++ Dir (bb.m l))
  | (Err e, _) => isCopyError e
  | (Panic _, _) => False
  end.
Proof.
  revert lm0 w. induction l as [|p l IH]; intros lm0 w Hin; [done|].
  cbn [foldM foldl]. unfold mbind, M_bind, bind.
  destruct (topLevelModule_step mainPkgs pkgDir bbDir lm0 p w
              ltac:(apply Hin; left)) as [_ Hr].
  destruct (bb.topLevelModule pkgDir bbDir lm0 p w) as [[lm'|e|v] w'] eqn:E;
    cbn [fst] in Hr; [|exact Hr|exact Hr].
  destruct (topLevelModule_top _ _ _ _ _ E) as [Hm Hinv].
  specialize (IH lm' w' ltac:(intros q Hq; apply Hin; now right)).
  destruct (foldM _ lm' l w') as [[lm1|e|v] w1]; [|exact IH|exact IH].
  destruct IH as [IHm IHinv]. split; [now rewrite IHm, Hm|].
  intros H0. apply IHinv, Hinv, H0.
Qed.

(** After the first loop the map holds the top-level modules, each
    recorded as a request to compile. *)
Lemma loop1_spec (w : World) :
  match loop1 mainPkgs pkgDir bbDir w with
  | (Ok lm1, _) =>
      bb.m <$> lm1 = topLevel mainPkgs
      /\ forall k l, lm1 !! k = Some l -> isOrigin mainPkgs k l
  | (Err e, _) => isCopyError e
  | (Panic _, _) => False
  end.
Proof.
  pose proof (loop1_from mainPkgs ∅ w ltac:(done)) as H.
  unfold loop1. destruct (foldM _ ∅ mainPkgs w) as [[lm1|e|v] w1];
    [|exact H|exact H].
  destruct H as [Hm Hinv]. rewrite fmap_empty in Hm. split; [exact Hm|].
  intros k l Hl.
  destruct (Hinv ltac:(intros k' l'; now rewrite lookup_empty) k l Hl)
    as [Hp Hprov].
  split; [exact Hp|]. left. split; [|exact Hprov].
  unfold topLevel. rewrite <- Hm, lookup_fmap, Hl. reflexivity.
Qed.

(** Every module of a command has its path in the top-level map. *)
Lemma topLevel_has (p : bbinternal.Package) (pm : Module_) :
  p ∈ mainPkgs -> Module (bbinternal.Pkg p) = Some pm ->
  is_Some (topLevel mainPkgs !! Path pm).
Proof.
  unfold topLevel. generalize (∅ : gmap string Module_).
  induction mainPkgs as [|q l IH]; intros t0 Hin Hpm.
  - now apply elem_of_nil in Hin.
  - cbn [foldl]. apply elem_of_cons in Hin as [<-|Hin]; [|now apply IH].
    assert (is_Some (topStep t0 p !! Path pm)) as Hs.
    { unfold topStep. rewrite Hpm. destruct (t0 !! Path pm) eqn:E; [eauto|].
      rewrite lookup_insert_eq. eauto. }
    clear IH Hpm. revert Hs. generalize (topStep t0 p).
    induction l as [|q l IH]; intros t Hs; [done|].
    cbn [foldl]. apply IH. unfold topStep.
    destruct (Module (bbinternal.Pkg q)) as [qm|]; [|done].
    destruct (t !! Path qm) eqn:E; [done|].
    destruct (decide (Path qm = Path pm)) as [Heq|Hne].
    + rewrite Heq, lookup_insert_eq. eauto.
    + now rewrite lookup_insert_ne.
Qed.


End local_modules_loops.

Section local_modules_second_loop.

Context `{C : Collaborators}.

Variable mainPkgs : list bbinternal.Package.
Variables pkgDir bbDir : string.

Lemma replacedOf_elem (kv : string * Module_) :
  kv ∈ replacedOf mainPkgs
  <-> exists p, p ∈ mainPkgs
               /\ bb.locallyReplacedModules (bbinternal.Pkg p) !! kv.1 = Some kv.2.
Proof.
  unfold replacedOf. rewrite list_elem_of_bind. destruct kv as [k v]. cbn [fst snd].
  split; intros (p & H1 & H2).
  - exists p. split; [done|]. now apply elem_of_map_to_list.
  - exists p. split; [|done]. now apply elem_of_map_to_list.
Qed.

(** What one round of the second loop records. *)
Lemma replacedModule_origin (p : bbinternal.Package) (pm : Module_)
    (lm : gmap string bb.localModule) (k : string) (v : Module_) (w : World)
    (lm' : gmap string bb.localModule) (w' : World) :
  p ∈ mainPkgs -> Module (bbinternal.Pkg p) = Some pm ->
  bb.locallyReplacedModules (bbinternal.Pkg p) !! k = Some v ->
  bb.replacedModule pkgDir bbDir p lm (k, v) w = (Ok lm', w') ->
  lm ⊆ lm'
  /\ (originsOk mainPkgs lm -> originsOk mainPkgs lm')
  /\ exists l, lm' !! k = Some l /\ Dir (bb.m l) = Dir v.
Proof.
  intros Hp Hpm Hkv. unfold bb.replacedModule.
  destruct (lm !! k) as [original|] eqn:El.
  - destruct (String.eqb_spec (Dir (bb.m original)) (Dir v)) as [Heq|Hne];
      cbn [negb].
    + intros [= <- <-]. split; [done|]. split; [done|]. eauto.
    + rewrite Hpm. discriminate.
  - rewrite Hpm.
    assert (forall (c : Module_ -> M (gmap string bb.localModule)) w0,
               (deref (Some pm) ≫= c) w0 = c pm w0) as Hd by done.
    rewrite Hd. cbv zeta. intros H.
    pose proof (copy_step pkgDir bbDir v (Path pm)
                  (<[k := bb.mkLocalModule v
                       (Path pm ++ "'s go.mod (" ++ GoMod pm ++ ")")]> lm) w)
      as [_ Hr].
    cbv zeta in Hr. rewrite H in Hr. cbn [fst] in Hr. subst lm'.
    split; [now apply insert_subseteq|]. split.
    + intros Hok k' l. destruct (decide (k = k')) as [<-|Hne].
      * rewrite lookup_insert_eq. intros [= <-]. cbn [bb.m bb.provenance].
        destruct (locallyReplacedModules_lookup _ _ _ Hkv) as (Hpath & _).
        split; [exact Hpath|]. right. exists p, pm. done.
      * rewrite lookup_insert_ne by done. apply Hok.
    + eexists. rewrite lookup_insert_eq. done.
Qed.

Lemma loop2_inner (p : bbinternal.Package) (lm : gmap string bb.localModule)
    (w : World) :
  p ∈ mainPkgs -> originsOk mainPkgs lm ->
  match foldM (bb.replacedModule pkgDir bbDir p) lm
          (bb.range (bb.locallyReplacedModules (bbinternal.Pkg p))) w with
  | (Ok lm', _) =>
      lm ⊆ lm' /\ originsOk mainPkgs lm'
      /\ forall k v,
           bb.locallyReplacedModules (bbinternal.Pkg p) !! k = Some v ->
           exists l, lm' !! k = Some l /\ Dir (bb.m l) = Dir v
  | (Err e, _) => isCopyError e \/ isClashError mainPkgs e
  | (Panic _, _) => False
  end.
Proof.
  intros Hp Hok.
  assert (forall l lm0 w0,
             (forall kv, kv ∈ l ->
                bb.locallyReplacedModules (bbinternal.Pkg p) !! kv.1 = Some kv.2) ->
             originsOk mainPkgs lm0 ->
             match foldM (bb.replacedModule pkgDir bbDir p) lm0 l w0 with
             | (Ok lm', _) =>
                 lm0 ⊆ lm' /\ originsOk mainPkgs lm'
                 /\ forall kv, kv ∈ l ->
                      exists e, lm' !! kv.1 = Some e /\ Dir (bb.m e) = Dir kv.2
             | (Err e, _) => isCopyError e \/ isClashError mainPkgs e
             | (Panic _, _) => False
             end) as H.
  { induction l as [|[k v] l IH]; intros lm0 w0 Hl Hok0.
    - cbn. split; [done|]. split; [done|]. intros kv Hkv.
      now apply elem_of_nil in Hkv.
    - cbn [foldM]. unfold mbind, M_bind, bind.
      pose proof (Hl (k, v) ltac:(left)) as Hkv. cbn [fst snd] in Hkv.
      destruct (locallyReplacedModules_lookup _ _ _ Hkv) as (_ & _ & [pm Hpm]).
      destruct (replacedModule_step mainPkgs pkgDir bbDir p lm0 (k, v) w0 pm Hpm)
        as [_ Hr].
      destruct (bb.replacedModule pkgDir bbDir p lm0 (k, v) w0)
        as [[lm'|e|pv] w'] eqn:E; cbn [fst snd] in Hr.
      + destruct (replacedModule_origin p pm lm0 k v w0 lm' w' Hp Hpm Hkv E)
          as (Hsub & Hok' & l0 & Hl0 & Hd0).
        specialize (IH lm' w' ltac:(intros kv' Hkv'; apply Hl; now right)
                       (Hok' Hok0)).
        destruct (foldM _ lm' l w') as [[lm''|e|pv] w'']; [|exact IH|exact IH].
        destruct IH as (Hsub' & Hok'' & Hall). split; [now trans lm'|].
        split; [exact Hok''|].
        intros kv' [->|Hkv']%elem_of_cons; [|now apply Hall].
        exists l0. split; [|exact Hd0]. cbn [fst].
        eapply lookup_weaken; eauto.
      + destruct Hr as [Hr|(original & Ho & Hd & ->)]; [now left|]. right.
        exists p, pm, k, v, original. repeat split; try done.
        * now destruct (Hok0 k original Ho).
        * now destruct (Hok0 k original Ho).
      + exact Hr. }
  specialize (H (bb.range (bb.locallyReplacedModules (bbinternal.Pkg p))) lm w
                ltac:(intros [k v] Hkv; now apply range_elem in Hkv) Hok).
  destruct (foldM _ lm _ w) as [[lm'|e|pv] w']; [|exact H|exact H].
  destruct H as (Hsub & Hok' & Hall). split; [exact Hsub|]. split; [exact Hok'|].
  intros k v Hkv. apply (Hall (k, v)). now apply range_elem.
Qed.

(** After the second loop every locally replaced module of a command
    is at the directory of the entry for its path; the loop fails when
    a [go.mod] cannot be copied and when two local modules clash. *)
Lemma loop2_spec (lm1 : gmap string bb.localModule) (w : World) :
  originsOk mainPkgs lm1 ->
  match loop2 mainPkgs pkgDir bbDir lm1 w with
  | (Ok lm2, _) =>
      lm1 ⊆ lm2 /\ originsOk mainPkgs lm2
      /\ forall kv, kv ∈ replacedOf mainPkgs ->
           exists l, lm2 !! kv.1 = Some l /\ Dir (bb.m l) = Dir kv.2
  | (Err e, _) => isCopyError e \/ isClashError mainPkgs e
  | (Panic _, _) => False
  end.
Proof.
  unfold loop2.
  assert (forall l lm0 w0,
             (forall p, p ∈ l -> p ∈ mainPkgs) -> originsOk mainPkgs lm0 ->
             match foldM (fun lm p =>
                            foldM (bb.replacedModule pkgDir bbDir p) lm
                              (bb.range (bb.locallyReplacedModules
                                           (bbinternal.Pkg p)))) lm0 l w0 with
             | (Ok lm2, _) =>
                 lm0 ⊆ lm2 /\ originsOk mainPkgs lm2
                 /\ forall p k v, p ∈ l ->
                      bb.locallyReplacedModules (bbinternal.Pkg p) !! k = Some v ->
                      exists e, lm2 !! k = Some e /\ Dir (bb.m e) = Dir v
             | (Err e, _) => isCopyError e \/ isClashError mainPkgs e
             | (Panic _, _) => False
             end) as H.
  { induction l as [|p l IH]; intros lm0 w0 Hl Hok0.
    - cbn. split; [done|]. split; [done|]. intros p k v Hp.
      now apply elem_of_nil in Hp.
    - cbn [foldM]. unfold mbind, M_bind, bind.
      pose proof (loop2_inner p lm0 w0 ltac:(apply Hl; left) Hok0) as Hin.
      destruct (foldM (bb.replacedModule pkgDir bbDir p) lm0 _ w0)
        as [[lm'|e|pv] w']; [|exact Hin|exact Hin].
      destruct Hin as (Hsub & Hok' & Hall).
      specialize (IH lm' w' ltac:(intros q Hq; apply Hl; now right) Hok').
      destruct (foldM _ lm' l w') as [[lm''|e|pv] w'']; [|exact IH|exact IH].
      destruct IH as (Hsub' & Hok'' & Hall'). split; [now trans lm'|].
      split; [exact Hok''|].
      intros q k v [->|Hq]%elem_of_cons Hkv; [|exact (Hall' q k v Hq Hkv)].
      destruct (Hall k v Hkv) as (e & He & Hd). exists e. split; [|exact Hd].
      eapply lookup_weaken; eauto. }
  intros Hok. specialize (H mainPkgs lm1 w ltac:(done) Hok).
  destruct (foldM _ lm1 mainPkgs w) as [[lm2|e|pv] w2]; [|exact H|exact H].
  destruct H as (Hsub & Hok' & Hall). split; [exact Hsub|]. split; [exact Hok'|].
  intros [k v] (p & Hp & Hkv)%replacedOf_elem. now apply (Hall p).
Qed.

(** When the second loop goes through, no two local modules clash. *)
Lemma loop2_no_clash (lm1 lm2 : gmap string bb.localModule) :
  bb.m <$> lm1 = topLevel mainPkgs -> lm1 ⊆ lm2 ->
  (forall kv, kv ∈ replacedOf mainPkgs ->
     exists l, lm2 !! kv.1 = Some l /\ Dir (bb.m l) = Dir kv.2) ->
  localClash mainPkgs = false.
Proof.
  intros Htop Hsub Hall. apply not_true_iff_false. unfold localClash.
  rewrite existsb_exists. intros ([k v] & Hkv%list_elem_of_In & Hc).
  destruct (Hall _ Hkv) as (l & Hl & Hd). cbn [fst snd] in *.
  unfold clashes in Hc. cbn [fst snd] in Hc.
  apply orb_true_iff in Hc as [Hc|Hc].
  - destruct (topLevel mainPkgs !! k) as [t|] eqn:Et; [|discriminate].
    rewrite <- Htop, lookup_fmap in Et.
    destruct (lm1 !! k) as [l1|] eqn:El1; [|discriminate].
    injection Et as <-. pose proof (lookup_weaken _ _ _ _ El1 Hsub) as Hl2.
    rewrite Hl in Hl2. injection Hl2 as ->.
    apply negb_true_iff, String.eqb_neq in Hc. done.
  - apply existsb_exists in Hc as ([k' v'] & Hkv'%list_elem_of_In & Hc).
    cbn [fst snd] in Hc. apply andb_true_iff in Hc as [Hk Hc].
    apply String.eqb_eq in Hk as ->.
    destruct (Hall _ Hkv') as (l' & Hl' & Hd'). cbn [fst snd] in *.
    rewrite Hl in Hl'. injection Hl' as <-.
    apply negb_true_iff, String.eqb_neq in Hc. congruence.
Qed.


(** The two errors are different ones. *)
Lemma clash_error_not_copy (e : error) :
  isClashError mainPkgs e -> ~ isCopyError e.
Proof.
  intros (p & pm & k & v & original & _ & _ & _ & _ & _ & ->) (q & err & Heq).
  unfold conflictError, bb.Errorf in Heq. injection Heq as Heq.
  discriminate Heq.
Qed.

End local_modules_second_loop.

Section local_modules_third_loop.

Context `{C : Collaborators}.

Variable lm : gmap string bb.localModule.

Lemma conflictsOf_cons (pkg : Package) (pkgs : list Package) :
  conflictsOf lm (pkg :: pkgs)
  = match Module pkg with
    | Some pmod =>
        match lm !! Path pmod with
        | Some l =>
            if String.eqb (Dir (bb.m l)) (Dir pmod) then conflictsOf lm pkgs
            else (l, pmod) :: conflictsOf lm pkgs
        | None => conflictsOf lm pkgs
        end
    | None => conflictsOf lm pkgs
    end.
Proof.
  unfold conflictsOf. cbn [omap list_omap].
  destruct (Module pkg) as [pmod|]; [|done].
  destruct (lm !! Path pmod) as [l|]; [|done].
  now destruct (String.eqb _ _).
Qed.

Lemma conflictsOf_elem (pkgs : list Package) (l : bb.localModule)
    (pmod : Module_) :
  (l, pmod) ∈ conflictsOf lm pkgs
  <-> exists pkg, pkg ∈ pkgs /\ Module pkg = Some pmod
                  /\ lm !! Path pmod = Some l /\ Dir (bb.m l) <> Dir pmod.
Proof.
  unfold conflictsOf. rewrite list_elem_of_omap. split.
  - intros (pkg & Hpkg & H). exists pkg. split; [done|].
    destruct (Module pkg) as [pmod'|]; [|discriminate].
    destruct (lm !! Path pmod') as [l'|] eqn:El; [|discriminate].
    destruct (String.eqb_spec (Dir (bb.m l')) (Dir pmod')); [discriminate|].
    injection H as <- <-. done.
  - intros (pkg & Hpkg & Hm & Hl & Hd). exists pkg. split; [done|].
    rewrite Hm, Hl. apply String.eqb_neq in Hd. now rewrite Hd.
Qed.

(** The third loop for one command, when no package of its import
    graph is in conflict with a local module. *)
Lemma remoteConflict_none (mp : bbinternal.Package) (c : bool)
    (pkgs : list Package) (w : World) :
  conflictsOf lm pkgs = [] ->
  foldM (bb.remoteConflict lm mp) c pkgs w = (Ok c, w).
Proof.
  induction pkgs as [|pkg pkgs IH]; [done|].
  rewrite conflictsOf_cons. intros Hnone. cbn [foldM].
  pose proof (remoteConflict_step lm mp c pkg w) as Hstep.
  destruct (Module pkg) as [pmod|].
  - destruct (lm !! Path pmod) as [l|].
    + destruct (String.eqb _ _); [|discriminate].
      rewrite (bind_Ok _ _ _ _ _ Hstep). now apply IH.
    + rewrite (bind_Ok _ _ _ _ _ Hstep). now apply IH.
  - rewrite (bind_Ok _ _ _ _ _ Hstep). now apply IH.
Qed.




Lemma loop3_none (mainPkgs : list bbinternal.Package) (w : World) :
  (forall mp, mp ∈ mainPkgs ->
     conflictsOf lm (Visit [bbinternal.Pkg mp]) = []) ->
  loop3 mainPkgs lm w = (Ok false, w).
Proof.
  unfold loop3. generalize false.
  induction mainPkgs as [|mp l IH]; intros c Hnone; [done|].
  cbn [foldM].
  rewrite (bind_Ok _ _ _ _ _ (remoteConflict_none mp c _ w
                                (Hnone mp ltac:(left)))).
  apply IH. intros mp' Hmp'. apply Hnone. now right.
Qed.



End local_modules_third_loop.

Section local_modules_runs.

Context `{C : Collaborators}.

Variable mainPkgs : list bbinternal.Package.
Variables pkgDir bbDir : string.

(** The first two loops together. *)
Lemma loops12_spec (w : World) :
  match (loop1 mainPkgs pkgDir bbDir ≫= loop2 mainPkgs pkgDir bbDir) w with
  | (Ok lm2, w2) =>
      stderr w2 = stderr w /\ originsOk mainPkgs lm2
      /\ (forall k t, topLevel mainPkgs !! k = Some t ->
            exists l, lm2 !! k = Some l /\ bb.m l = t)
      /\ (forall kv, kv ∈ replacedOf mainPkgs ->
            exists l, lm2 !! kv.1 = Some l /\ Dir (bb.m l) = Dir kv.2)
      /\ localClash mainPkgs = false
  | (Err e, w2) =>
      stderr w2 = stderr w /\ (isCopyError e \/ isClashError mainPkgs e)
  | (Panic _, _) => False
  end.
Proof.
  pose proof (quiet_bind _ _ (quiet_loop1 mainPkgs pkgDir bbDir)
                (quiet_loop2 mainPkgs pkgDir bbDir) w) as Hq.
  unfold mbind, M_bind, bind in *.
  pose proof (loop1_spec mainPkgs pkgDir bbDir w) as H1.
  destruct (loop1 mainPkgs pkgDir bbDir w) as [[lm1|e|v] w1];
    [|split; [exact Hq|now left]|exact H1].
  destruct H1 as [Htop Hok1].
  pose proof (loop2_spec mainPkgs pkgDir bbDir lm1 w1 Hok1) as H2.
  destruct (loop2 mainPkgs pkgDir bbDir lm1 w1) as [[lm2|e|v] w2];
    [|split; [exact Hq|exact H2]|exact H2].
  destruct H2 as (Hsub & Hok2 & Hall). split; [exact Hq|]. split; [exact Hok2|].
  split; [|split; [exact Hall|]].
  - intros k t Ht. rewrite <- Htop, lookup_fmap in Ht.
    destruct (lm1 !! k) as [l1|] eqn:El1; [|discriminate]. injection Ht as <-.
    exists l1. split; [|done]. eapply lookup_weaken; eauto.
  - eapply loop2_no_clash; eauto.
Qed.

Lemma localModules_loops12 (w : World) :
  bb.localModules pkgDir bbDir mainPkgs w
  = match (loop1 mainPkgs pkgDir bbDir ≫= loop2 mainPkgs pkgDir bbDir) w with
    | (Ok lm2, w2) =>
        (conflict ← loop3 mainPkgs lm2;
         if conflict : bool
         then fail (bb.Errorf "conflicting module dependencies found")
         else ret (bb.m <$> lm2)) w2
    | (Err e, w2) => (Err e, w2)
    | (Panic v, w2) => (Panic v, w2)
    end.
Proof.
  rewrite localModules_loops. unfold mbind, M_bind, bind.
  destruct (loop1 mainPkgs pkgDir bbDir w) as [[lm1|e|v] w1]; [|done|done].
  now destruct (loop2 mainPkgs pkgDir bbDir lm1 w1) as [[lm2|e|v] w2].
Qed.

(** Every local-module entry has its path in the map. *)
Lemma entries_complete (lm2 : gmap string bb.localModule) (l : Module_) :
  (forall k t, topLevel mainPkgs !! k = Some t ->
     exists e, lm2 !! k = Some e /\ bb.m e = t) ->
  (forall kv, kv ∈ replacedOf mainPkgs ->
     exists e, lm2 !! kv.1 = Some e /\ Dir (bb.m e) = Dir kv.2) ->
  l ∈ localEntries mainPkgs -> is_Some (lm2 !! Path l).
Proof.
  intros Htop Hall [(p & Hp & Hm)|(p & Hp & Hl)]%localEntries_elem.
  - destruct (topLevel_has mainPkgs p l Hp Hm) as [t Ht].
    destruct (Htop _ _ Ht) as (e & He & _). eauto.
  - destruct (Hall (Path l, l)) as (e & He & _); [|eauto].
    apply replacedOf_elem. eauto.
Qed.

(** A conflict is found by the third loop, in the import graph of
    some command. *)
Lemma conflicting_found (lm2 : gmap string bb.localModule) :
  (forall k t, topLevel mainPkgs !! k = Some t ->
     exists e, lm2 !! k = Some e /\ bb.m e = t) ->
  (forall kv, kv ∈ replacedOf mainPkgs ->
     exists e, lm2 !! kv.1 = Some e /\ Dir (bb.m e) = Dir kv.2) ->
  conflicting mainPkgs ->
  exists mp pkg pmod l,
    mp ∈ mainPkgs /\ pkg ∈ Visit [bbinternal.Pkg mp]
    /\ Module pkg = Some pmod /\ lm2 !! Path pmod = Some l
    /\ Dir (bb.m l) <> Dir pmod.
Proof.
  intros Htop Hall (l0 & s & Hl0 & Hs & Hpath & Hdir).
  destruct (entries_complete lm2 l0 Htop Hall Hl0) as [e He].
  destruct (decide (Dir (bb.m e) = Dir s)) as [Heq|Hne].
  - apply localEntries_sightings, sightings_elem in Hl0
      as (mp & pkg & Hmp & Hpkg & Hm).
    exists mp, pkg, l0, e. repeat split; try done. congruence.
  - apply sightings_elem in Hs as (mp & pkg & Hmp & Hpkg & Hm).
    exists mp, pkg, s, e. repeat split; try done. now rewrite <- Hpath.
Qed.




(** When a round of the third loop comes back, the flag is up if the
    package is in conflict, and as before if not. *)
Lemma remoteConflict_flag (lm2 : gmap string bb.localModule)
    (mp : bbinternal.Package) (c c' : bool) (pkg : Package) (w w' : World) :
  bb.remoteConflict lm2 mp c pkg w = (Ok c', w') ->
  c' = match conflictsOf lm2 [pkg] with [] => c | _ => true end.
Proof.
  rewrite conflictsOf_cons. unfold bb.remoteConflict.
  destruct (Module pkg) as [pmod|]; [|now intros [= <- _]].
  destruct (lm2 !! Path pmod) as [l|]; [|now intros [= <- _]].
  destruct (String.eqb _ _); cbn [negb]; [now intros [= <- _]|].
  unfold mbind, M_bind, bind, logPrintf, deref, orDefault, bb.liftResult,
    mret, M_ret, ret, fail, panic.
  destruct (Module (bbinternal.Pkg mp)) as [mm|]; [|discriminate].
  cbn [fs stderr]. destruct (filepath_Rel _ _); [| |discriminate];
    now intros [= <- _].
Qed.

Lemma remoteConflict_flags (lm2 : gmap string bb.localModule)
    (mp : bbinternal.Package) (pkgs : list Package) (c c' : bool)
    (w w' : World) :
  foldM (bb.remoteConflict lm2 mp) c pkgs w = (Ok c', w') ->
  c' = match conflictsOf lm2 pkgs with [] => c | _ => true end.
Proof.
  revert c w. induction pkgs as [|pkg pkgs IH]; intros c w.
  - now intros [= <- _].
  - cbn [foldM]. unfold mbind, M_bind, bind.
    destruct (bb.remoteConflict lm2 mp c pkg w) as [[c1|e|v] w1] eqn:E;
      [|discriminate|discriminate].
    intros H. apply IH in H. apply remoteConflict_flag in E.
    rewrite conflictsOf_cons in *. unfold conflictsOf in E at 1. cbn in E.
    destruct (Module pkg) as [pmod|]; [|now subst].
    destruct (lm2 !! Path pmod) as [l|]; [|now subst].
    destruct (String.eqb _ _); [now subst|].
    subst. now destruct (conflictsOf lm2 pkgs).
Qed.

(** The third loop with a conflict does not end with the flag down. *)
Lemma loop3_raised (lm2 : gmap string bb.localModule) (w : World) :
  (exists mp, mp ∈ mainPkgs /\ conflictsOf lm2 (Visit [bbinternal.Pkg mp]) <> []) ->
  (loop3 mainPkgs lm2 w).1 <> Ok false.
Proof.
  unfold loop3.
  assert (forall l c w0,
             (c = true \/ exists mp, mp ∈ l
                /\ conflictsOf lm2 (Visit [bbinternal.Pkg mp]) <> []) ->
             (foldM (fun conflict mainPkg =>
                       foldM (bb.remoteConflict lm2 mainPkg) conflict
                             (Visit [bbinternal.Pkg mainPkg])) c l w0).1
             <> Ok false) as H.
  { induction l as [|mp l IH]; intros c w0 Hc.
    - destruct Hc as [->|(mp & Hmp & _)];
        [discriminate|now apply elem_of_nil in Hmp].
    - cbn [foldM]. unfold mbind, M_bind, bind.
      destruct (foldM (bb.remoteConflict lm2 mp) c _ w0) as [[c1|e|v] w1] eqn:E;
        [|done|done].
      apply remoteConflict_flags in E. apply IH.
      destruct Hc as [->|(mp0 & [->|Hmp0]%elem_of_cons & Hc)].
      + left. rewrite E. now destruct (conflictsOf lm2 _).
      + left. rewrite E. now destruct (conflictsOf lm2 _).
      + right. eauto. }
  intros Hc. apply H. now right.
Qed.

End local_modules_runs.

Section local_modules_outcomes.

Context `{C : Collaborators}.

Variable mainPkgs : list bbinternal.Package.
Variables pkgDir bbDir : string.


(** A conflict never lets [localModules] succeed. *)
Lemma localModules_conflicting (w : World) :
  conflicting mainPkgs ->
  forall lm, (bb.localModules pkgDir bbDir mainPkgs w).1 <> Ok lm.
Proof.
  intros Hc lm. rewrite localModules_loops12.
  pose proof (loops12_spec mainPkgs pkgDir bbDir w) as H12.
  destruct ((loop1 mainPkgs pkgDir bbDir ≫= loop2 mainPkgs pkgDir bbDir) w)
    as [[lm2|e|v] w2]; [|done|done].
  destruct H12 as (_ & _ & Htop & Hall & _).
  destruct (conflicting_found mainPkgs lm2 Htop Hall Hc)
    as (mp & pkg & pmod & l & Hmp & Hpkg & Hm & Hl & Hd).
  assert ((loop3 mainPkgs lm2 w2).1 <> Ok false) as H3.
  { apply loop3_raised. exists mp. split; [done|]. intros Hnil.
    assert ((l, pmod) ∈ conflictsOf lm2 (Visit [bbinternal.Pkg mp])) as Hin
      by (apply conflictsOf_elem; eauto).
    rewrite Hnil in Hin. now apply elem_of_nil in Hin. }
  unfold mbind, M_bind, bind.
  destruct (loop3 mainPkgs lm2 w2) as [[[]|e|v] w3]; cbn [fst] in *; done.
Qed.


End local_modules_outcomes.




(** * Further properties of the dispatch stub *)

Section path_rooted.

Lemma HasPrefix_slash (s : string) :
  strings.HasPrefix s "/" = true <-> exists s', s = String path.slash s'.
Proof.
  unfold strings.HasPrefix. split.
  - destruct s as [|c s]; cbn [String.prefix]; [discriminate|].
    destruct (ascii_dec "/" c) as [<-|]; [eauto|discriminate].
  - intros [s' ->]. cbn [String.prefix].
    destruct (ascii_dec "/" path.slash) as [_|Hne]; [|now destruct Hne].
    now destruct s'.
Qed.

Lemma Clean_rooted (p : string) :
  strings.HasPrefix p "/" = true -> strings.HasPrefix (path.Clean p) "/" = true.
Proof.
  intros H. unfold path.Clean.
  destruct (String.eqb_spec p "") as [->|_]; [discriminate|].
  rewrite H. destruct (foldl _ _ _) as [out dd].
  apply HasPrefix_slash. destruct out; eexists; reflexivity.
Qed.

Lemma Join_rooted (d : string) (rest : list string) :
  strings.HasPrefix d "/" = true ->
  strings.HasPrefix (path.Join (d :: rest)) "/" = true.
Proof.
  intros H. cbn [path.Join].
  destruct (String.eqb_spec d "") as [->|_]; [discriminate|].
  apply Clean_rooted. apply HasPrefix_slash in H as [s' ->].
  apply HasPrefix_slash. destruct rest; eexists; reflexivity.
Qed.

Lemma drop_elem_last_slash (l : list ascii) :
  exists l', path.drop_elem (l ++ [path.slash]) = (l' ++ [path.slash])%list.
Proof.
  induction l as [|c l IH].
  - exists []. reflexivity.
  - cbn [app path.drop_elem]. destruct (Ascii.eqb c path.slash); [|exact IH].
    now exists (c :: l).
Qed.

Lemma Dir_rooted (p : string) :
  strings.HasPrefix p "/" = true -> strings.HasPrefix (path.Dir p) "/" = true.
Proof.
  intros [s' ->]%HasPrefix_slash. unfold path.Dir. apply Clean_rooted.
  unfold path.rbytes. cbn [list_ascii_of_string rev].
  destruct (drop_elem_last_slash (rev (list_ascii_of_string s'))) as [l' ->].
  rewrite rev_app_distr. apply HasPrefix_slash. eexists; reflexivity.
Qed.

End path_rooted.

(** X1: [AbsSymlink] returns an absolute path, whether the file and the
    target of the link are given absolute or relative, as long as the
    working directory of the process is an absolute path. *)
Theorem X1_AbsSymlink_is_absolute (os : stub.OS) (originalFile target : string) :
  filepath.IsAbs (stub.Getwd os) = true ->
  filepath.IsAbs (stub.AbsSymlink os originalFile target) = true.
Proof.
  intros Hwd. unfold stub.AbsSymlink.
  destruct (filepath.IsAbs target) eqn:Ht; cbn [negb]; [done|].
  apply Join_rooted, Dir_rooted.
  destruct (filepath.IsAbs originalFile) eqn:Ho; cbn [negb]; [done|].
  unfold filepath.Abs. rewrite Ho. now apply Join_rooted.
Qed.

(** The link [bin/defaultsh -> ../bbin/elvish], met in the directory [/]. *)
Lemma X1_AbsSymlink_is_absolute_witness :
  filepath.IsAbs (stub.AbsSymlink ex.plainOS "bin/defaultsh" "../bbin/elvish")
  = true.
Proof. apply (X1_AbsSymlink_is_absolute ex.plainOS); reflexivity. Defined.

(** X2: when the links form no cycle (every link whose target is a
    link is followed to a path of smaller rank), the loop of
    [ResolveUntilLastSymlink] ends, and it ends at the last link of the
    chain: the path returned is not a link to a link, it is a link
    whenever the path given is one, and it is the path given when that
    is no link. *)
Theorem X2_ResolveUntilLastSymlink_last_link (os : stub.OS)
    (rank : string -> nat) :
  (forall p t, stub.Readlink os p = Some t ->
               stub.IsTargetSymlink os p t = true ->
               rank (stub.AbsSymlink os p t) < rank p) ->
  forall fuel p, rank p < fuel ->
    exists q, stub.ResolveUntilLastSymlink fuel os p = Some q
      /\ (forall t, stub.Readlink os q = Some t ->
                    stub.IsTargetSymlink os q t = false)
      /\ (is_Some (stub.Readlink os p) -> is_Some (stub.Readlink os q))
      /\ (stub.Readlink os p = None -> q = p).
Proof.
  intros Hrank fuel. induction fuel as [|n IH]; intros p Hlt; [lia|].
  cbn [stub.ResolveUntilLastSymlink].
  destruct (stub.Readlink os p) as [target|] eqn:Hl.
  - destruct (stub.IsTargetSymlink os p target) eqn:Ht.
    + specialize (Hrank p target Hl Ht).
      destruct (IH (stub.AbsSymlink os p target) ltac:(lia))
        as (q & Hq & Hlast & Hlink & _).
      exists q. split; [done|]. split; [done|]. split; [|done].
      intros _. apply Hlink.
      unfold stub.IsTargetSymlink, stub.Lstat_symlink in Ht.
      now apply bool_decide_eq_true in Ht.
    + exists p. split; [done|]. split; [|split; [now rewrite Hl|done]].
      intros t. rewrite Hl. now intros [= <-].
  - exists p. split; [done|]. split; [|done]. intros t. now rewrite Hl.
Qed.

Lemma docOS_links (p t : string) :
  stub.Readlink ex.docOS p = Some t ->
  (p = "/foo/bar" /\ t = "../baz/foo") \/ (p = "/baz/foo" /\ t = "bla").
Proof.
  unfold stub.Readlink, ex.docOS. cbn [stub.symlinks list_to_map foldr uncurry].
  intros H. apply lookup_insert_Some in H as [[<- <-]|[_ H]]; [now left|].
  apply lookup_insert_Some in H as [[<- <-]|[_ H]]; [now right|].
  now rewrite lookup_empty in H.
Qed.

(** The chain of the comment in the source: from [/foo/bar] the loop
    ends at some last link. *)
Lemma X2_ResolveUntilLastSymlink_last_link_witness :
  exists q, stub.ResolveUntilLastSymlink 2 ex.docOS "/foo/bar" = Some q
    /\ (forall t, stub.Readlink ex.docOS q = Some t ->
                  stub.IsTargetSymlink ex.docOS q t = false)
    /\ (is_Some (stub.Readlink ex.docOS "/foo/bar") ->
        is_Some (stub.Readlink ex.docOS q))
    /\ (stub.Readlink ex.docOS "/foo/bar" = None -> q = "/foo/bar").
Proof.
  apply (X2_ResolveUntilLastSymlink_last_link ex.docOS ex.docRank).
  - intros p t [[-> ->]|[-> ->]]%docOS_links; vm_compute; [lia|discriminate].
  - vm_compute. lia.
Defined.

(** X3: on a cycle of links the loop of [ResolveUntilLastSymlink] does
    not end: from a path of a set of links that is closed under
    following a link to its target, no number of rounds gives a result. *)
Theorem X3_ResolveUntilLastSymlink_cycle (os : stub.OS) (P : string -> Prop) :
  (forall p, P p -> exists t, stub.Readlink os p = Some t
                       /\ stub.IsTargetSymlink os p t = true
                       /\ P (stub.AbsSymlink os p t)) ->
  forall fuel p, P p -> stub.ResolveUntilLastSymlink fuel os p = None.
Proof.
  intros Hstep fuel. induction fuel as [|n IH]; intros p HP; [done|].
  cbn [stub.ResolveUntilLastSymlink].
  destruct (Hstep p HP) as (t & Hl & Ht & HP'). rewrite Hl, Ht. now apply IH.
Qed.

(** The links [/bin/a -> b] and [/bin/b -> /bin/a]. *)
Lemma X3_ResolveUntilLastSymlink_cycle_witness :
  stub.Readlink ex.loopOS "/bin/a" = Some "b"
  /\ forall fuel, stub.ResolveUntilLastSymlink fuel ex.loopOS "/bin/a" = None.
Proof.
  split; [reflexivity|]. intros fuel.
  apply (X3_ResolveUntilLastSymlink_cycle ex.loopOS
           (fun p => p = "/bin/a" \/ p = "/bin/b")).
  - intros p [-> | ->].
    + exists "b". vm_compute. auto.
    + exists "/bin/a". vm_compute. auto.
  - now left.
Defined.

(** X4: when no entry of [os.Args] has the name of a registered
    command as its base name, [run] and the default handler [m] try the
    entries one after the other, each time with [os.Args] shifted by
    one, and at the last entry [m] ends the process with
    [log.Fatalf("Invalid busybox command: %q", os.Args)].  ([bbmain.Run]
    is modelled from the spec: a miss goes to the default handler.) *)
Theorem X4_run_invalid_command (r : bbmain.registry) (a : string)
    (pre : list string) :
  bbmain.defaultCmd r = Some (bbmain.mkCmd Noop stub_m) ->
  Forall (fun x => bbmain.bbCmds r !! filepath.Base x = None) (pre ++ [a]) ->
  stub.run r (pre ++ [a])
  = (suffixRuns (pre ++ [a])
       ++ [LogFatal ("Invalid busybox command: " ++ fmt_q [a])])%list.
Proof.
  intros Hdef. induction pre as [|x pre IH]; intros Hall.
  - apply Forall_cons in Hall as [Hx _]. cbn [app suffixRuns].
    rewrite run_cons. f_equal. unfold bbmain.Run, bbmain.find.
    rewrite Hx, Hdef. reflexivity.
  - apply Forall_cons in Hall as [Hx Hall]. specialize (IH Hall).
    cbn [app suffixRuns].
    destruct (pre ++ [a])%list as [|y l] eqn:E; [now destruct pre|].
    rewrite run_miss by done. now f_equal.
Qed.

(** [bb frobnicate], with the commands [ls] and [cat] in the busybox. *)
Lemma X4_run_invalid_command_witness :
  stub.run ex.r1 ["/bbin/bb"; "frobnicate"]
  = [BBRun "bb" ["/bbin/bb"; "frobnicate"]; BBRun "frobnicate" ["frobnicate"];
     LogFatal ("Invalid busybox command: " ++ fmt_q ["frobnicate"])].
Proof.
  apply (X4_run_invalid_command ex.r1 "frobnicate" ["/bbin/bb"]);
    [reflexivity|]. repeat constructor.
Defined.

(** * Further properties of the builder: names and options *)

Section first_duplicate.

Import bbinternal.

Lemma checkDuplicate_from_first (cmds pre : list bbinternal.Package)
    (seen : gmap string string) (e : error) :
  seenOf pre seen -> NoDup (Name <$> pre) ->
  bb.checkDuplicate_from seen cmds = Some e ->
  exists i j ci cj,
    i < j /\ (pre ++ cmds)%list !! i = Some ci
    /\ (pre ++ cmds)%list !! j = Some cj
    /\ Name ci = Name cj /\ e = duplicateError ci cj
    /\ NoDup (Name <$> take j (pre ++ cmds)%list).
Proof.
  revert pre seen. induction cmds as [|cmd rest IH]; intros pre seen Hseen Hnd;
    [discriminate|].
  cbn [bb.checkDuplicate_from]. destruct (seen !! Name cmd) as [p|] eqn:Hl.
  - intros [= <-]. apply Hseen in Hl as (i & c & Hi & Hn & Hp).
    exists i, (length pre), c, cmd. repeat split.
    + now apply lookup_lt_Some in Hi.
    + now apply lookup_app_l_Some.
    + rewrite lookup_app_r by lia. now rewrite Nat.sub_diag.
    + done.
    + unfold duplicateError. now rewrite Hp.
    + rewrite take_app_length. exact Hnd.
  - intros He.
    specialize (IH (pre ++ [cmd])%list
                   (<[Name cmd := PkgPath (Pkg cmd)]> seen)).
    rewrite <- app_assoc in IH. cbn [app] in IH. apply IH; [| |exact He].
    + intros n p. split.
      * intros Hin. destruct (decide (Name cmd = n)) as [<-|Hne].
        -- rewrite lookup_insert_eq in Hin. injection Hin as <-.
           exists (length pre), cmd. split; [|done].
           rewrite lookup_app_r by lia. now rewrite Nat.sub_diag.
        -- rewrite lookup_insert_ne in Hin by done.
           apply Hseen in Hin as (i & c & Hi & Hn & Hp).
           exists i, c. split; [|done]. now apply lookup_app_l_Some.
      * intros (i & c & Hi & Hn & Hp).
        apply lookup_app_Some in Hi as [Hi|[Hge Hi]].
        -- destruct (decide (Name cmd = n)) as [Heq|Hne].
           ++ exfalso. assert (seen !! Name cmd = Some p) as Hs.
              { apply Hseen. exists i, c. now rewrite Heq. }
              congruence.
           ++ rewrite lookup_insert_ne by done. apply Hseen. eauto.
        -- destruct (i - length pre) as [|k] eqn:Hk; [|now destruct k].
           cbn in Hi. injection Hi as <-. subst n p.
           apply lookup_insert_eq.
    + rewrite fmap_app. cbn. apply NoDup_app. split; [done|]. split.
      * intros n Hin Hin'. apply list_elem_of_singleton in Hin'. subst n.
        apply list_elem_of_fmap in Hin as (c & Hc & Hcin).
        apply list_elem_of_lookup in Hcin as [i Hi].
        assert (seen !! Name cmd = Some (PkgPath (Pkg c))) as Hs.
        { apply Hseen. exists i, c. done. }
        congruence.
      * apply NoDup_singleton.
Qed.

End first_duplicate.

(** X6: the error of [checkDuplicate] is about the first clash in the
    order of the commands: it names the first command [cj] whose name
    an earlier command [ci] has, and the commands before [cj] have
    names that are pairwise distinct (so [ci] is the only one of them
    with that name). *)
Theorem X6_checkDuplicate_first_clash (cmds : list bbinternal.Package)
    (e : error) :
  bb.checkDuplicate cmds = Some e ->
  exists i j ci cj,
    i < j /\ cmds !! i = Some ci /\ cmds !! j = Some cj
    /\ bbinternal.Name ci = bbinternal.Name cj /\ e = duplicateError ci cj
    /\ NoDup (bbinternal.Name <$> take j cmds).
Proof.
  apply (checkDuplicate_from_first cmds [] ∅).
  - intros n p. rewrite lookup_empty. split; [done|].
    intros (i & c & Hi & _). now rewrite lookup_nil in Hi.
  - constructor.
Qed.

(** The commands [cat], [foo/ls] and [bar/ls]. *)
Lemma X6_checkDuplicate_first_clash_witness :
  exists i j ci cj,
    i < j /\ [ex.cmdB; ex.fooLs; ex.barLs] !! i = Some ci
    /\ [ex.cmdB; ex.fooLs; ex.barLs] !! j = Some cj
    /\ bbinternal.Name ci = bbinternal.Name cj /\ duplicateError ex.fooLs ex.barLs = duplicateError ci cj
    /\ NoDup (bbinternal.Name <$> take j [ex.cmdB; ex.fooLs; ex.barLs]).
Proof.
  apply (X6_checkDuplicate_first_clash [ex.cmdB; ex.fooLs; ex.barLs]).
  reflexivity.
Defined.

Section file_system_facts.

Lemma ReadDir_Ok_children (d : string) (w : World) :
  fsys.isDir (fs w) d = true ->
  fsys.ReadDir d w = (Ok (path.Base <$> fsys.children (fs w) d), w).
Proof.
  intros Hd. unfold fsys.ReadDir, mbind, M_bind, bind, getFS. now rewrite Hd.
Qed.

Lemma MkdirAll_Ok (p : string) (w : World) :
  existsb (fsys.isFile (fs w)) (fsys.ancestors p) = false ->
  fsys.MkdirAll p w
  = (Ok tt, mkWorld (mkFS (list_to_set (fsys.ancestors p) ∪ dirs (fs w))
                          (files (fs w))) (stderr w)).
Proof.
  intros H. unfold fsys.MkdirAll, mbind, M_bind, bind, getFS, putFS.
  now rewrite H.
Qed.

Lemma RemoveAll_spec (d : string) (w : World) :
  fsys.RemoveAll d w
  = (Ok tt,
     mkWorld (mkFS (filter (fun q => fsys.under d q = false) (dirs (fs w)))
                   (filter (fun kv => fsys.under d kv.1 = false) (files (fs w))))
             (stderr w)).
Proof. reflexivity. Qed.

End file_system_facts.

(** X7: [BuildBusybox] turns down options it cannot use before it
    touches anything: without options, with an environment that is not
    valid, with [GenerateOnly] and no [GenSrcDir], with a [GenSrcDir]
    that is a directory with entries, and with a [GenSrcDir] that is a
    file, it returns the error of that case, and the file system and
    the log are as they were. *)
Theorem X7_BuildBusybox_turns_down_options `{C : Collaborators} (w : World) :
  bb.BuildBusybox None w
    = (Err (bb.Errorf "no options given for busybox build"), w)
  /\ (forall opts e, Env_Valid (bb.Env opts) = Some e ->
        bb.BuildBusybox (Some opts) w = (Err e, w))
  /\ (forall opts, Env_Valid (bb.Env opts) = None ->
        bb.GenSrcDir opts = "" -> bb.GenerateOnly opts = true ->
        bb.BuildBusybox (Some opts) w
        = (Err (bb.Errorf "generate switch requires that generate directory be supplied"), w))
  /\ (forall opts, Env_Valid (bb.Env opts) = None ->
        bb.GenSrcDir opts <> "" ->
        fsys.isDir (fs w) (bb.GenSrcDir opts) = true ->
        fsys.children (fs w) (bb.GenSrcDir opts) <> [] ->
        bb.BuildBusybox (Some opts) w
        = (Err (bb.Errorf "directory supplied for busybox generated source is not an empty directory"), w))
  /\ (forall opts, Env_Valid (bb.Env opts) = None ->
        bb.GenSrcDir opts <> "" ->
        fsys.isDir (fs w) (bb.GenSrcDir opts) = false ->
        fsys.isFile (fs w) (bb.GenSrcDir opts) = true ->
        exists err,
          bb.BuildBusybox (Some opts) w
          = (Err (bb.Errorf ("could not read directory supplied for busybox generated source: "
                               ++ Error err)), w)).
Proof.
  split; [reflexivity|]. split.
  { intros opts e He. unfold bb.BuildBusybox. now rewrite He. }
  split.
  { intros opts Hv Hd Hg. unfold bb.BuildBusybox, bb.genDir. rewrite Hv, Hd, Hg.
    reflexivity. }
  split.
  - intros opts Hv Hd Hdir Hch. unfold bb.BuildBusybox, bb.genDir. rewrite Hv.
    apply String.eqb_neq in Hd. rewrite Hd. cbn [negb].
    unfold bb.useGenSrcDir, bb.attempt, mbind, M_bind, bind.
    rewrite (ReadDir_Ok_children _ _ Hdir).
    destruct (fsys.children (fs w) (bb.GenSrcDir opts)) as [|c l]; [done|].
    reflexivity.
  - intros opts Hv Hd Hdir Hfile. unfold bb.BuildBusybox, bb.genDir. rewrite Hv.
    apply String.eqb_neq in Hd. rewrite Hd. cbn [negb].
    exists (PathError "readdirent" (bb.GenSrcDir opts) ENOTDIR).
    unfold bb.useGenSrcDir, bb.attempt, fsys.ReadDir, mbind, M_bind, bind, getFS.
    rewrite Hdir, Hfile. reflexivity.
Qed.

(** A build into [/src], which holds the sources of [a] and [b]. *)
Lemma X7_BuildBusybox_turns_down_options_witness :
  @bb.BuildBusybox ex.abC (Some (ex.buildOpts "/src"))
     (ex.sources ex.goModA ex.goModB)
  = (Err (bb.Errorf "directory supplied for busybox generated source is not an empty directory"),
     ex.sources ex.goModA ex.goModB).
Proof.
  apply (proj1 (proj2 (proj2 (proj2
           (@X7_BuildBusybox_turns_down_options ex.abC
              (ex.sources ex.goModA ex.goModB)))))).
  - reflexivity.
  - discriminate.
  - vm_compute. reflexivity.
  - vm_compute. discriminate.
Defined.

(** X8: a [GenSrcDir] that does not exist is created, with the
    directories above it, provided that no file is in the way; the
    tree is then generated under its absolute path, and it is not a
    temporary directory; no file is written, no directory removed and
    nothing logged on the way. *)
Theorem X8_genDir_creates_missing_dir `{C : Collaborators} (opts : bb.Opts)
    (w : World) :
  bb.GenSrcDir opts <> "" ->
  fsys.isDir (fs w) (bb.GenSrcDir opts) = false ->
  fsys.isFile (fs w) (bb.GenSrcDir opts) = false ->
  existsb (fsys.isFile (fs w)) (fsys.ancestors (bb.GenSrcDir opts)) = false ->
  exists w',
    bb.genDir opts w = (Ok (filepath.Abs Getwd (bb.GenSrcDir opts), false), w')
    /\ fsys.isDir (fs w') (bb.GenSrcDir opts) = true
    /\ (forall p, p ∈ fsys.ancestors (bb.GenSrcDir opts) -> p ∈ dirs (fs w'))
    /\ dirs (fs w) ⊆ dirs (fs w')
    /\ files (fs w') = files (fs w)
    /\ stderr w' = stderr w.
Proof.
  intros Hd Hdir Hfile Hanc. eexists. split.
  - unfold bb.genDir. apply String.eqb_neq in Hd. rewrite Hd. cbn [negb].
    unfold bb.useGenSrcDir, bb.attempt, fsys.ReadDir, mbind, M_bind, bind, getFS.
    rewrite Hdir, Hfile. cbn [fail os.IsNotExist]. unfold orReturn.
    rewrite (MkdirAll_Ok _ _ Hanc). reflexivity.
  - cbn [fs dirs files stderr]. split; [|split; [|split; [|done]]].
    + unfold fsys.isDir. apply bool_decide_eq_true. cbn [dirs].
      apply elem_of_union. left. apply elem_of_list_to_set, ancestors_self.
    + intros p Hp. apply elem_of_union. left. now apply elem_of_list_to_set.
    + apply union_subseteq_r.
Qed.

(** A build into [/gen/new], with [/gen] empty. *)
Lemma X8_genDir_creates_missing_dir_witness :
  exists w',
    @bb.genDir ex.abC (ex.buildOpts "/gen/new") ex.emptyGen
      = (Ok (filepath.Abs (@Getwd ex.abC) "/gen/new", false), w')
    /\ fsys.isDir (fs w') "/gen/new" = true
    /\ (forall p, p ∈ fsys.ancestors "/gen/new" -> p ∈ dirs (fs w'))
    /\ dirs (fs ex.emptyGen) ⊆ dirs (fs w')
    /\ files (fs w') = files (fs ex.emptyGen)
    /\ stderr w' = stderr ex.emptyGen.
Proof.
  apply (@X8_genDir_creates_missing_dir ex.abC (ex.buildOpts "/gen/new")
           ex.emptyGen).
  - discriminate.
  - vm_compute. reflexivity.
  - vm_compute. reflexivity.
  - vm_compute. reflexivity.
Defined.

(** X9: without a [GenSrcDir] the tree is generated in a temporary
    directory, and [BuildBusybox] ends as the build in it ends.  When
    the build succeeds, the temporary directory and all that is under
    it are removed, and the rest of the file system is as the build
    left it; when the build returns an error, nothing is removed, and
    the last line of the log tells where the generated source is kept.
    When the build panics, the deferred function finds no error in
    [nerr]: the temporary directory is removed as after a success,
    nothing is logged about it, and the panic goes on. *)
Theorem X9_BuildBusybox_temporary_dir `{C : Collaborators} (opts : bb.Opts)
    (w w1 : World) (tmpDir : string) :
  Env_Valid (bb.Env opts) = None ->
  bb.GenSrcDir opts = "" -> bb.GenerateOnly opts = false ->
  bb.TempDir "" "bb-" w = (Ok tmpDir, w1) ->
  let built := bb.buildIn opts tmpDir w1 in
  let r := bb.BuildBusybox (Some opts) w in
  r.1 = built.1
  /\ match built.1 with
     | Ok _ | Panic _ =>
         stderr r.2 = stderr built.2
         /\ forall q,
              if fsys.under tmpDir q
              then (q ∉ dirs (fs r.2)) /\ files (fs r.2) !! q = None
              else (q ∈ dirs (fs r.2) <-> q ∈ dirs (fs built.2))
                   /\ files (fs r.2) !! q = files (fs built.2) !! q
     | Err _ =>
         fs r.2 = fs built.2
         /\ stderr r.2
            = (stderr built.2
                 ++ [("Preserving bb generated source directory at " ++ tmpDir
                        ++ " due to error")%string])%list
     end.
Proof.
  intros Hv Hd Hg Ht built r. subst r.
  unfold bb.BuildBusybox. rewrite Hv. unfold bb.genDir. rewrite Hd, Hg.
  cbn [negb String.eqb].
  rewrite (bind_Ok _ _ _ _ _ (bind_Ok _ _ _ _ _ Ht)).
  cbn [mret M_ret ret]. unfold bb.defer. fold built.
  assert (forall w2,
          let w3 := (fsys.RemoveAll tmpDir w2).2 in
          stderr w3 = stderr w2
          /\ forall q,
               if fsys.under tmpDir q
               then (q ∉ dirs (fs w3)) /\ files (fs w3) !! q = None
               else (q ∈ dirs (fs w3) <-> q ∈ dirs (fs w2))
                    /\ files (fs w3) !! q = files (fs w2) !! q) as Hrm.
  { intros w2. rewrite RemoveAll_spec. cbn [snd fs stderr dirs files].
    split; [reflexivity|]. intros q. destruct (fsys.under tmpDir q) eqn:Hu.
    + split.
      * intros [Hq _]%elem_of_filter. congruence.
      * apply map_lookup_filter_None. right. intros x _. cbn. congruence.
    + split.
      * rewrite elem_of_filter. tauto.
      * destruct (files (fs w2) !! q) as [x|] eqn:E.
        -- apply map_lookup_filter_Some. done.
        -- apply map_lookup_filter_None. now left. }
  destruct built as [[[]|e|v] w2]; cbn [fst snd]; (split; [reflexivity|]).
  - apply Hrm.
  - split; reflexivity.
  - apply Hrm.
Qed.

(** The commands of [a] and [b], built in [/tmp/bb-0]: the binary is
    there, the temporary directory is gone.  A command of [a] and a
    command in no module that uses [a] from another directory: the
    build panics, and the temporary directory is gone as well. *)
Lemma X9_BuildBusybox_temporary_dir_witness :
  ((@bb.BuildBusybox ex.abC (Some (ex.buildOpts ""))
      (ex.sources ex.goModA ex.goModB)).1 = Ok tt
   /\ ("/tmp/bb-0"
         ∉ dirs (fs (@bb.BuildBusybox ex.abC (Some (ex.buildOpts ""))
                       (ex.sources ex.goModA ex.goModB)).2))
   /\ files (fs (@bb.BuildBusybox ex.abC (Some (ex.buildOpts ""))
                   (ex.sources ex.goModA ex.goModB)).2) !! "/src/bb"
      = Some "bb")
  /\ (@bb.BuildBusybox ex.noModuleC (Some ex.mixedOpts)
        (ex.sources ex.goModA ex.goModB)).1 = Panic nilDeref
  /\ ("/tmp/bb-0"
        ∉ dirs (fs (@bb.BuildBusybox ex.noModuleC (Some ex.mixedOpts)
                      (ex.sources ex.goModA ex.goModB)).2)).
Proof.
  split.
  - pose proof (@X9_BuildBusybox_temporary_dir ex.abC (ex.buildOpts "")
                  (ex.sources ex.goModA ex.goModB)
                  (@bb.TempDir ex.abC "" "bb-" (ex.sources ex.goModA ex.goModB)).2
                  "/tmp/bb-0" eq_refl eq_refl eq_refl
                  ltac:(vm_compute; reflexivity)) as [H1 H2].
    cbv zeta in H1, H2.
    assert ((@bb.buildIn ex.abC (ex.buildOpts "") "/tmp/bb-0"
               (@bb.TempDir ex.abC "" "bb-" (ex.sources ex.goModA ex.goModB)).2).1
            = Ok tt) as Hb by (vm_compute; reflexivity).
    rewrite Hb in H1, H2. split; [exact H1|]. destruct H2 as [_ H2]. split.
    + apply (H2 "/tmp/bb-0").
    + vm_compute. reflexivity.
  - pose proof (@X9_BuildBusybox_temporary_dir ex.noModuleC ex.mixedOpts
                  (ex.sources ex.goModA ex.goModB)
                  (@bb.TempDir ex.noModuleC "" "bb-"
                     (ex.sources ex.goModA ex.goModB)).2
                  "/tmp/bb-0" eq_refl eq_refl eq_refl
                  ltac:(vm_compute; reflexivity)) as [H1 H2].
    cbv zeta in H1, H2.
    assert ((@bb.buildIn ex.noModuleC ex.mixedOpts "/tmp/bb-0"
               (@bb.TempDir ex.noModuleC "" "bb-"
                  (ex.sources ex.goModA ex.goModB)).2).1
            = Panic nilDeref) as Hb by (vm_compute; reflexivity).
    rewrite Hb in H1, H2. split; [exact H1|]. destruct H2 as [_ H2].
    apply (H2 "/tmp/bb-0").
Defined.

(** X10: when the loader fails, or finds no command, [BuildBusybox]
    fails with "finding packages failed: ..." or with "no valid
    commands given"; by then it has made the directories of the tree
    and written no file. *)
Theorem X10_BuildBusybox_no_commands `{C : Collaborators} (opts : bb.Opts)
    (w w1 w2 : World) (tmpDir : string) (temporary : bool) :
  Env_Valid (bb.Env opts) = None ->
  bb.genDir opts w = (Ok (tmpDir, temporary), w1) ->
  fsys.MkdirAll (filepath.Join [tmpDir; "src/bb.u-root.com/bb"]) w1
    = (Ok tt, w2) ->
  (forall err,
      findpkg_NewPackages (bb.Env opts) (bb.CommandPaths opts) = Err err ->
      bb.BuildBusybox (Some opts) w
      = (Err (bb.Errorf ("finding packages failed: " ++ Error err)),
         afterError tmpDir temporary w2))
  /\ (findpkg_NewPackages (bb.Env opts) (bb.CommandPaths opts) = Ok [] ->
      bb.BuildBusybox (Some opts) w
      = (Err (bb.Errorf "no valid commands given"),
         afterError tmpDir temporary w2))
  /\ files (fs (afterError tmpDir temporary w2)) = files (fs w).
Proof.
  intros Hv Hg Hmk. split; [|split].
  - intros err Hload. apply BuildBusybox_buildIn_Err with (w1 := w1); [done..|].
    unfold bb.buildIn. rewrite (bind_Ok _ _ _ _ _ Hmk).
    erewrite bind_Err; [reflexivity|]. unfold orReturn. now rewrite Hload.
  - intros Hload. apply BuildBusybox_buildIn_Err with (w1 := w1); [done..|].
    unfold bb.buildIn. rewrite (bind_Ok _ _ _ _ _ Hmk).
    erewrite bind_Ok; [|unfold orReturn; rewrite Hload; reflexivity].
    reflexivity.
  - apply genDir_spec in Hg as (Hf1 & _).
    apply MkdirAll_spec in Hmk as (Hf2 & _).
    destruct temporary; cbn; congruence.
Qed.

(** A loader that finds nothing, and a build into the empty [/gen]. *)
Lemma X10_BuildBusybox_no_commands_witness :
  (@bb.BuildBusybox ex.noneC (Some (ex.buildOpts "/gen")) ex.emptyGen).1
  = Err (bb.Errorf "no valid commands given")
  /\ files (fs (@bb.BuildBusybox ex.noneC (Some (ex.buildOpts "/gen"))
                  ex.emptyGen).2)
     = files (fs ex.emptyGen).
Proof.
  pose proof (@X10_BuildBusybox_no_commands ex.noneC (ex.buildOpts "/gen")
                ex.emptyGen ex.emptyGen
                (fsys.MkdirAll (filepath.Join ["/gen"; "src/bb.u-root.com/bb"])
                               ex.emptyGen).2
                "/gen" false eq_refl
                ltac:(vm_compute; reflexivity) ltac:(vm_compute; reflexivity))
    as (_ & H2 & H3).
  rewrite (H2 eq_refl). split; [reflexivity|exact H3].
Defined.

(** X11: with [GenerateOnly] the [go build] is never run: whatever it
    would do, [BuildBusybox] returns the same result and leaves the
    same world. *)
Theorem X11_GenerateOnly_never_builds `{C : Collaborators}
    (build : golang.Environ -> string -> string -> list string -> M unit)
    (opts : bb.Opts) (w : World) :
  bb.GenerateOnly opts = true ->
  @bb.BuildBusybox (withBuildDir C build) (Some opts) w
  = @bb.BuildBusybox C (Some opts) w.
Proof.
  intros Hg. unfold bb.BuildBusybox, bb.buildIn. rewrite Hg. reflexivity.
Qed.

(** The tree of the commands of [a] and [b] is generated also where
    [go build] fails. *)
Lemma X11_GenerateOnly_never_builds_witness :
  @bb.BuildBusybox ex.failingC (Some (ex.genOpts false))
     (ex.sources ex.goModA ex.goModB)
  = @bb.BuildBusybox ex.abC (Some (ex.genOpts false))
      (ex.sources ex.goModA ex.goModB).
Proof.
  apply (@X11_GenerateOnly_never_builds ex.abC). reflexivity.
Defined.

Section build_errors.

Context `{C : Collaborators}.

Lemma MkdirAll_error (p : string) (w w' : World) (e : error) :
  fsys.MkdirAll p w = (Err e, w') ->
  isBuildError e = false /\ os.IsExist e = false.
Proof.
  unfold fsys.MkdirAll, mbind, M_bind, bind, getFS, putFS, fail.
  destruct (existsb _ _); now intros [= <- <-].
Qed.

Lemma genDir_error (opts : bb.Opts) (w w' : World) (e : error) :
  bb.genDir opts w = (Err e, w') -> isBuildError e = false.
Proof.
  unfold bb.genDir. destruct (negb _).
  - unfold bb.useGenSrcDir, bb.attempt, mbind, M_bind, bind.
    destruct (fsys.ReadDir _ w) as [[dirents|err|v] w0].
    + destruct (Nat.ltb _ _); cbn; [now intros [= <- <-]|discriminate].
    + destruct (os.IsNotExist err); [|cbn; now intros [= <- <-]].
      unfold orReturn. destruct (fsys.MkdirAll _ w0) as [[[]|e'|v] w1]; cbn;
        [discriminate|now intros [= <- <-]|discriminate].
    + discriminate.
  - destruct (bb.GenerateOnly opts); [cbn; now intros [= <- <-]|].
    unfold bb.TempDir, mbind, M_bind, bind, getFS.
    destruct (fsys.MkdirAll _ w) as [[[]|e'|v] w1] eqn:Hmk; cbn;
      [discriminate| |discriminate].
    intros [= <- <-]. now apply MkdirAll_error in Hmk as [Hmk _].
Qed.

Lemma checkDuplicate_from_error (cmds : list bbinternal.Package)
    (seen : gmap string string) (e : error) :
  bb.checkDuplicate_from seen cmds = Some e -> isBuildError e = false.
Proof.
  revert seen. induction cmds as [|c cmds IH]; intros seen; [discriminate|].
  cbn [bb.checkDuplicate_from]. destruct (seen !! _); [now intros [= <-]|apply IH].
Qed.

Lemma mixedModeCheck_error (allow : bool) (cmds : list bbinternal.Package)
    (e : error) :
  bb.mixedModeCheck allow cmds = Some e -> isBuildError e = false.
Proof.
  unfold bb.mixedModeCheck. destruct (bb.countModules cmds) as [ms n].
  destruct (_ && _); [now intros [= <-]|discriminate].
Qed.

Lemma orReturn_Errorf_error {A} (c : M A) (f : error -> string) (w w' : World)
    (e : error) :
  orReturn c (fun err => bb.Errorf (f err)) w = (Err e, w') ->
  isBuildError e = false.
Proof.
  unfold orReturn. destruct (c w) as [[a|e'|v] w0]; [discriminate| |discriminate].
  now intros [= <- <-].
Qed.

End build_errors.

(** X12: [BuildBusybox] returns an [ErrGopathBuild] or an
    [ErrModuleBuild] only when [go build] has failed, and [Unwrap]
    gives the error of [go build].  It is an [ErrGopathBuild], with
    [GOPATH] the root of the generated tree and [CmdDir] the directory
    [src/bb.u-root.com/bb] under it, when [GO111MODULE] is [off] or some
    command is in no module, and the build was then run with that
    [GOPATH]; otherwise it is an [ErrModuleBuild] with that [CmdDir],
    and the build was run in the environment of the options. *)
Theorem X12_BuildBusybox_build_errors `{C : Collaborators} (opts : bb.Opts)
    (w w' : World) (e : error) :
  Env_Valid (bb.Env opts) = None ->
  bb.BuildBusybox (Some opts) w = (Err e, w') ->
  isBuildError e = true ->
  exists tmpDir cmds env err w0,
    let bbDir := filepath.Join [tmpDir; "src/bb.u-root.com/bb"] in
    bb.GenerateOnly opts = false
    /\ findpkg_NewPackages (bb.Env opts) (bb.CommandPaths opts) = Ok cmds
    /\ (Env_BuildDir env bbDir (bb.BinaryPath opts) (bb.GoBuildOpts opts) w0).1
       = Err err
    /\ bb.Unwrap e = Some err
    /\ ((e = ErrGopathBuild bbDir tmpDir err
         /\ env = golang.mkEnviron (golang.GO111MODULE (bb.Env opts)) tmpDir
         /\ (golang.GO111MODULE (bb.Env opts) = "off"
             \/ exists c, c ∈ cmds /\ Module (bbinternal.Pkg c) = None))
        \/ (e = ErrModuleBuild bbDir err
            /\ env = bb.Env opts
            /\ golang.GO111MODULE (bb.Env opts) <> "off"
            /\ forall c, c ∈ cmds -> Module (bbinternal.Pkg c) <> None)).
Proof.
  intros Hv Hb He. unfold bb.BuildBusybox in Hb. rewrite Hv in Hb.
  unfold mbind at 1, M_bind at 1, bind at 1 in Hb.
  destruct (bb.genDir opts w) as [[[tmpDir temporary]|e0|v] w1] eqn:Hg.
  2:{ injection Hb as <- <-. apply genDir_error in Hg. congruence. }
  2:{ discriminate Hb. }
  assert (exists w2, bb.buildIn opts tmpDir w1 = (Err e, w2)) as [w2 Hin].
  { destruct temporary; [|eauto]. unfold bb.defer in Hb.
    destruct (bb.buildIn opts tmpDir w1) as [[[]|e1|v] w2];
      [discriminate| |discriminate].
    injection Hb as <- _. eauto. }
  clear Hb Hg. exists tmpDir.
  unfold bb.buildIn in Hin.
  unfold mbind at 1, M_bind at 1, bind at 1 in Hin.
  destruct (fsys.MkdirAll _ w1) as [[[]|e1|v] w3] eqn:Hmk.
  2:{ injection Hin as <- <-. apply MkdirAll_error in Hmk as [Hmk _].
      congruence. }
  2:{ discriminate Hin. }
  unfold mbind at 1, M_bind at 1, bind at 1 in Hin.
  destruct (orReturn (bb.liftResult (findpkg_NewPackages _ _)) _ w3)
    as [[cmds|e1|v] w4] eqn:Hload.
  2:{ injection Hin as <- <-. apply orReturn_Errorf_error in Hload. congruence. }
  2:{ discriminate Hin. }
  assert (findpkg_NewPackages (bb.Env opts) (bb.CommandPaths opts) = Ok cmds)
    as Hcmds.
  { unfold orReturn in Hload.
    destruct (findpkg_NewPackages _ _) as [x|x|x]; cbn in Hload; congruence. }
  exists cmds.
  destruct (Nat.eqb _ _).
  { injection Hin as <- <-. discriminate. }
  destruct (bb.checkDuplicate cmds) as [e1|] eqn:Hdup.
  { injection Hin as <- <-. apply checkDuplicate_from_error in Hdup. congruence. }
  destruct (bb.mixedModeCheck _ cmds) as [e1|] eqn:Hmix.
  { injection Hin as <- <-. apply mixedModeCheck_error in Hmix. congruence. }
  cbv zeta in Hin.
  unfold mbind at 1, M_bind at 1, bind at 1 in Hin.
  match type of Hin with
  | match ?c with _ => _ end = _ => destruct c as [[bbImports|e1|v] w5] eqn:Hrw
  end.
  3:{ discriminate Hin. }
  2:{ injection Hin as <- <-. exfalso.
      pose proof (foldM_inv
        (fun (bbImports : list string) cmd =>
           orReturn (Rewrite cmd (filepath.Join [filepath.Join [tmpDir; "src"];
                                                 PkgPath (bbinternal.Pkg cmd)])
                       "bb.u-root.com/bb/pkg/bbmain")
             (fun err => bb.Errorf ("rewriting command "
                                      ++ quote (PkgPath (bbinternal.Pkg cmd))
                                      ++ " failed: " ++ Error err));;
           ret (bbImports ++ [PkgPath (bbinternal.Pkg cmd)])%list)
        (fun _ _ => True) (fun e _ => isBuildError e = false) cmds) as Hinv.
      specialize (Hinv ltac:(
        intros b x w0 _ _; unfold mbind, M_bind, bind;
        destruct (orReturn _ _ w0) as [[[]|e2|v] w6] eqn:E; [done| |done];
        now apply orReturn_Errorf_error in E) [] w4 I).
      rewrite Hrw in Hinv. congruence. }
  unfold mbind at 1, M_bind at 1, bind at 1 in Hin.
  destruct (orReturn (bb.dealWithDeps _ _ _ _ _) _ w5) as [[[]|e1|v] w6] eqn:Hdeps.
  2:{ injection Hin as <- <-. apply orReturn_Errorf_error in Hdeps. congruence. }
  2:{ discriminate Hin. }
  unfold mbind at 1, M_bind at 1, bind at 1 in Hin.
  destruct (orReturn (bb.writeBBMain _ _ _) _ w6) as [[[]|e1|v] w7] eqn:Hmain.
  2:{ injection Hin as <- <-. apply orReturn_Errorf_error in Hmain. congruence. }
  2:{ discriminate Hin. }
  destruct (bb.GenerateOnly opts); [discriminate|].
  unfold orReturn in Hin.
  match type of Hin with
  | match ?c ?w with _ => _ end = _ =>
      destruct (c w) as [[[]|err|v] w8] eqn:Hbuild
  end; [discriminate| |discriminate].
  injection Hin as <- <-.
  rewrite countModules_spec in *. cbn [snd] in *.
  destruct (String.eqb_spec (golang.GO111MODULE (bb.Env opts)) "off") as [Hoff|Hoff];
    cbn [orb] in *.
  - eexists _, err, w7. cbv zeta. split; [done|]. split; [done|].
    split; [now rewrite Hbuild|]. split; [done|]. left. auto.
  - destruct (Nat.ltb 0 _) eqn:Hn.
    + eexists _, err, w7. cbv zeta. split; [done|]. split; [done|].
      split; [now rewrite Hbuild|]. split; [done|]. left.
      split; [done|]. split; [done|]. right.
      apply Nat.ltb_lt in Hn. now apply noModule_count_pos in Hn.
    + eexists _, err, w7. cbv zeta. split; [done|]. split; [done|].
      split; [now rewrite Hbuild|]. split; [done|]. right.
      split; [done|]. split; [done|]. split; [done|].
      intros c Hc Hnone. apply Nat.ltb_ge in Hn.
      assert (0 < length (List.filter (fun c => negb (hasModule c)) cmds)) as Hp
        by (apply noModule_count_pos; eauto).
      lia.
Qed.

(** The commands of [a] and [b], both in modules, and a [go build]
    that fails. *)
Lemma X12_BuildBusybox_build_errors_witness :
  exists tmpDir cmds env err w0,
    let bbDir := filepath.Join [tmpDir; "src/bb.u-root.com/bb"] in
    bb.GenerateOnly (ex.buildOpts "/gen") = false
    /\ @findpkg_NewPackages ex.failingC (bb.Env (ex.buildOpts "/gen"))
         (bb.CommandPaths (ex.buildOpts "/gen")) = Ok cmds
    /\ (@Env_BuildDir ex.failingC env bbDir (bb.BinaryPath (ex.buildOpts "/gen"))
          (bb.GoBuildOpts (ex.buildOpts "/gen")) w0).1
       = Err err
    /\ bb.Unwrap (ErrModuleBuild "/gen/src/bb.u-root.com/bb"
                    (errorString "exit status 1")) = Some err
    /\ ((ErrModuleBuild "/gen/src/bb.u-root.com/bb" (errorString "exit status 1")
         = ErrGopathBuild bbDir tmpDir err
         /\ env = golang.mkEnviron
                    (golang.GO111MODULE (bb.Env (ex.buildOpts "/gen"))) tmpDir
         /\ (golang.GO111MODULE (bb.Env (ex.buildOpts "/gen")) = "off"
             \/ exists c, c ∈ cmds /\ Module (bbinternal.Pkg c) = None))
        \/ (ErrModuleBuild "/gen/src/bb.u-root.com/bb" (errorString "exit status 1")
            = ErrModuleBuild bbDir err
            /\ env = bb.Env (ex.buildOpts "/gen")
            /\ golang.GO111MODULE (bb.Env (ex.buildOpts "/gen")) <> "off"
            /\ forall c, c ∈ cmds -> Module (bbinternal.Pkg c) <> None)).
Proof.
  apply (@X12_BuildBusybox_build_errors ex.failingC (ex.buildOpts "/gen")
           (ex.sources ex.goModA ex.goModB)
           (@bb.BuildBusybox ex.failingC (Some (ex.buildOpts "/gen"))
              (ex.sources ex.goModA ex.goModB)).2).
  - reflexivity.
  - vm_compute. reflexivity.
  - reflexivity.
Defined.

(** * Further properties of the builder: modules and dependencies *)

Section replaced_modules.

Lemma locallyReplaced_fold_keys (l : list Package) (m0 : gmap string Module_)
    (k : string) :
  is_Some (m0 !! k)
  \/ (exists pkg pm, pkg ∈ l /\ Module pkg = Some pm /\ Path pm = k
                     /\ bb.locallyReplaced pkg = true) ->
  is_Some (foldl (fun m pkg =>
                    if bb.locallyReplaced pkg then
                      match Module pkg with
                      | Some pm => <[Path pm := pm]> m
                      | None => m
                      end
                    else m) m0 l !! k).
Proof.
  revert m0. induction l as [|x l IH]; intros m0.
  - intros [H|(pkg & pm & Hin & _)]; [done|now apply elem_of_nil in Hin].
  - intros H. cbn [foldl]. apply IH.
    destruct H as [H|(pkg & pm & [->|Hin]%elem_of_cons & Hm & Hp & Hr)].
    + left. destruct (bb.locallyReplaced x); [|done].
      destruct (Module x) as [pm|]; [|done].
      destruct (decide (Path pm = k)) as [<-|Hne].
      * rewrite lookup_insert_eq. eauto.
      * now rewrite lookup_insert_ne.
    + left. rewrite Hr, Hm, <- Hp, lookup_insert_eq. eauto.
    + right. eauto 10.
Qed.

Lemma locallyReplaced_fold_local (l : list Package) (m0 : gmap string Module_) :
  (forall k v, m0 !! k = Some v ->
     exists r, Replace v = Some r /\ bb.isReplacedModuleLocal r = true) ->
  forall k v,
    foldl (fun m pkg =>
             if bb.locallyReplaced pkg then
               match Module pkg with
               | Some pm => <[Path pm := pm]> m
               | None => m
               end
             else m) m0 l !! k = Some v ->
    exists r, Replace v = Some r /\ bb.isReplacedModuleLocal r = true.
Proof.
  revert m0. induction l as [|x l IH]; intros m0 Hm0 k v; [apply Hm0|].
  cbn [foldl]. apply IH. intros k' v'.
  destruct (bb.locallyReplaced x) eqn:Hr; [|apply Hm0].
  destruct (Module x) as [pm|] eqn:Ex; [|apply Hm0].
  destruct (decide (Path pm = k')) as [<-|Hne].
  - rewrite lookup_insert_eq. intros [= <-].
    unfold bb.locallyReplaced in Hr. rewrite Ex in Hr.
    destruct (Replace pm) as [r|]; [eauto|discriminate].
  - rewrite lookup_insert_ne by done. apply Hm0.
Qed.

End replaced_modules.

(** X13: [locallyReplacedModules] of a command outside any module is
    empty, whatever its dependencies are.  For a command in a module,
    the keys of the map are the paths of the modules, met at some
    package of the import graph, that are replaced by a local path
    (one that begins with [./], [../] or [/]); and every entry is such
    a module, kept under its own path. *)
Theorem X13_locallyReplacedModules_entries (p : Package) :
  (Module p = None -> bb.locallyReplacedModules p = ∅)
  /\ (is_Some (Module p) ->
      forall k, is_Some (bb.locallyReplacedModules p !! k) <->
                exists pkg pm, pkg ∈ Visit [p] /\ Module pkg = Some pm
                               /\ Path pm = k /\ bb.locallyReplaced pkg = true)
  /\ (forall k v, bb.locallyReplacedModules p !! k = Some v ->
        Path v = k
        /\ (exists pkg, pkg ∈ Visit [p] /\ Module pkg = Some v)
        /\ exists r, Replace v = Some r /\ bb.isReplacedModuleLocal r = true).
Proof.
  split; [|split].
  - intros Hn. unfold bb.locallyReplacedModules. now rewrite Hn.
  - intros [pm0 Hpm0] k. split.
    + intros [v Hv].
      assert (exists r, Replace v = Some r /\ bb.isReplacedModuleLocal r = true)
        as (r & Hr & Hloc).
      { unfold bb.locallyReplacedModules in Hv. rewrite Hpm0 in Hv.
        eapply locallyReplaced_fold_local; [|exact Hv].
        intros k' v'. now rewrite lookup_empty. }
      apply locallyReplacedModules_lookup in Hv as (Hp & (pkg & Hin & Hm) & _).
      exists pkg, v. repeat split; try done.
      unfold bb.locallyReplaced. now rewrite Hm, Hr.
    + intros H. unfold bb.locallyReplacedModules. rewrite Hpm0.
      apply locallyReplaced_fold_keys. now right.
  - intros k v Hv.
    destruct (locallyReplacedModules_lookup _ _ _ Hv) as (Hp & Hpkg & [pm0 Hpm0]).
    split; [done|]. split; [done|].
    unfold bb.locallyReplacedModules in Hv. rewrite Hpm0 in Hv.
    eapply locallyReplaced_fold_local; [|exact Hv].
    intros k' v'. now rewrite lookup_empty.
Qed.

(** The command of [a], which replaces [example.com/m2] by its
    directory [./vendor/m2]. *)
Lemma X13_locallyReplacedModules_entries_witness :
  is_Some (bb.locallyReplacedModules
             (bbinternal.Pkg (ex.cmdAwith ex.m2inA)) !! "example.com/m2").
Proof.
  apply (proj1 (proj2 (X13_locallyReplacedModules_entries
                         (bbinternal.Pkg (ex.cmdAwith ex.m2inA))))).
  - now exists ex.modA.
  - exists (ex.m2pkg ex.m2inA), ex.m2inA. split; [|done].
    change (Visit [bbinternal.Pkg (ex.cmdAwith ex.m2inA)])
      with [ex.m2pkg ex.m2inA; bbinternal.Pkg (ex.cmdAwith ex.m2inA)]. left.
Defined.

Section grows.

Lemma keeps_refl (w : World) : keeps w w.
Proof. split; [done|auto]. Qed.

Lemma keeps_trans (a b c : World) : keeps a b -> keeps b c -> keeps a c.
Proof.
  intros [H1 H2] [H3 H4]. split; [|auto].
  intros d Hd. now apply H3, H1.
Qed.

Lemma grows_ret {A} (a : A) : grows (mret a).
Proof. intros w. apply keeps_refl. Qed.

Lemma grows_fail {A} (e : error) : grows (@fail A e).
Proof. intros w. apply keeps_refl. Qed.

Lemma grows_bind {A B} (c : M A) (k : A -> M B) :
  grows c -> (forall a, grows (k a)) -> grows (c ≫= k).
Proof.
  intros Hc Hk w. unfold mbind, M_bind, bind. specialize (Hc w).
  destruct (c w) as [[a|e|v] w']; cbn [snd] in *; [|done|done].
  eapply keeps_trans; [exact Hc|apply Hk].
Qed.

Lemma grows_errOf {A} (c : M A) : grows c -> grows (errOf c).
Proof.
  intros Hc w. unfold errOf. specialize (Hc w).
  now destruct (c w) as [[a|e|v] w'].
Qed.

Lemma grows_orReturn {A} (c : M A) (wrap : error -> error) :
  grows c -> grows (orReturn c wrap).
Proof.
  intros Hc w. unfold orReturn. specialize (Hc w).
  now destruct (c w) as [[a|e|v] w'].
Qed.

Lemma grows_orDefault {A} (c : M A) (a : A) :
  grows c -> grows (orDefault c a).
Proof.
  intros Hc w. unfold orDefault. specialize (Hc w).
  now destruct (c w) as [[x|e|v] w'].
Qed.

Lemma grows_liftResult {A} (r : result A) :
  grows (bb.liftResult r).
Proof. intros w. destruct r; apply keeps_refl. Qed.

Lemma grows_foldM {A B} (f : B -> A -> M B) (l : list A) (b : B) :
  (forall b x, grows (f b x)) -> grows (foldM f b l).
Proof.
  intros Hf. revert b. induction l as [|x l IH]; intros b; [apply grows_ret|].
  cbn [foldM]. apply grows_bind; [apply Hf|]. intros b'. apply IH.
Qed.

Lemma grows_getFS : grows getFS.
Proof. intros w. apply keeps_refl. Qed.

Lemma grows_logPrintf (line : string) : grows (logPrintf line).
Proof. intros w. split; [done|auto]. Qed.

Lemma grows_deref {A} (p : option A) : grows (deref p).
Proof. destruct p; [apply (grows_ret a)|intros w; apply keeps_refl]. Qed.

Lemma grows_MkdirAll (p : string) : grows (fsys.MkdirAll p).
Proof.
  intros w. destruct (fsys.MkdirAll p w) as [r w'] eqn:E.
  apply MkdirAll_spec in E as (Hf & Hd & _). split; [done|].
  cbn [snd]. now rewrite Hf.
Qed.

Lemma grows_ReadFile (p : string) : grows (fsys.ReadFile p).
Proof.
  apply grows_bind; [apply grows_getFS|]. intros f.
  destruct (files f !! path.Clean p); [apply grows_ret|].
  destruct (fsys.isDir f p); apply grows_fail.
Qed.

Lemma keeps_insert (w : World) (p data : string) :
  keeps w (mkWorld (mkFS (dirs (fs w)) (<[p := data]> (files (fs w)))) (stderr w)).
Proof.
  split; [done|]. cbn [fs files]. intros q Hq.
  destruct (decide (p = q)) as [->|Hne].
  - rewrite lookup_insert_eq. eauto.
  - now rewrite lookup_insert_ne.
Qed.

Lemma grows_WriteFile (p data : string) : grows (fsys.WriteFile p data).
Proof.
  intros w. unfold fsys.WriteFile, mbind, M_bind, bind, getFS, putFS, fail.
  destruct (fsys.isDir _ _); [apply keeps_refl|].
  destruct (negb _); [apply keeps_refl|]. apply keeps_insert.
Qed.

Lemma grows_AppendFile (p data : string) : grows (fsys.AppendFile p data).
Proof.
  intros w. unfold fsys.AppendFile, mbind, M_bind, bind, getFS, putFS, fail.
  destruct (fsys.isDir _ _); [apply keeps_refl|].
  destruct (negb _); [apply keeps_refl|]. apply keeps_insert.
Qed.

Lemma grows_Copy (src dst : string) : grows (fsys.Copy src dst).
Proof.
  apply grows_bind; [apply grows_ReadFile|]. intros d. apply grows_WriteFile.
Qed.

End grows.

Section local_modules_tree.

Context `{C : Collaborators}.

Variable mainPkgs : list bbinternal.Package.
Variables pkgDir bbDir : string.

Lemma grows_copyGoMod (md : option Module_) :
  grows (bb.copyGoMod pkgDir bbDir md).
Proof.
  destruct md as [md|]; [|apply grows_ret]. unfold bb.copyGoMod.
  apply grows_bind; [apply grows_errOf, grows_MkdirAll|]. intros [e|].
  - destruct (os.IsExist e); [apply grows_ret|apply grows_fail].
  - apply grows_bind; [apply grows_Copy|]. intros _.
    apply grows_bind; [apply grows_errOf, grows_Copy|]. intros [e|].
    + destruct (os.IsNotExist e); [apply grows_ret|apply grows_fail].
    + apply grows_bind; [apply grows_ReadFile|]. intros d. apply grows_AppendFile.
Qed.

Lemma grows_topLevelModule (lm : gmap string bb.localModule)
    (p : bbinternal.Package) : grows (bb.topLevelModule pkgDir bbDir lm p).
Proof.
  unfold bb.topLevelModule. destruct (Module _) as [pm|]; [|apply grows_ret].
  destruct (lm !! _); [apply grows_ret|].
  apply grows_bind; [apply grows_orReturn, grows_copyGoMod|].
  intros _. apply grows_ret.
Qed.

Lemma grows_replacedModule (p : bbinternal.Package)
    (lm : gmap string bb.localModule) (kv : string * Module_) :
  grows (bb.replacedModule pkgDir bbDir p lm kv).
Proof.
  destruct kv as [k v]. unfold bb.replacedModule. destruct (lm !! k).
  - destruct (negb _); [|apply grows_ret].
    apply grows_bind; [apply grows_deref|]. intros pm. apply grows_fail.
  - apply grows_bind; [apply grows_deref|]. intros pm.
    apply grows_bind; [apply grows_orReturn, grows_copyGoMod|].
    intros _. apply grows_ret.
Qed.

Lemma grows_remoteConflict (lm : gmap string bb.localModule)
    (mainPkg : bbinternal.Package) (c : bool) (p : Package) :
  grows (bb.remoteConflict lm mainPkg c p).
Proof.
  unfold bb.remoteConflict. destruct (Module p) as [pmod|]; [|apply grows_ret].
  destruct (lm !! _) as [l|]; [|apply grows_ret].
  destruct (negb _); [|apply grows_ret].
  repeat (apply grows_bind;
          [first [apply grows_logPrintf|apply grows_deref
                 |apply grows_orDefault, grows_liftResult]|intros ?]).
  apply grows_ret.
Qed.

Lemma grows_loop3 (lm : gmap string bb.localModule) :
  grows (loop3 mainPkgs lm).
Proof.
  apply grows_foldM. intros c p. apply grows_foldM. apply grows_remoteConflict.
Qed.

Lemma grows_localModules : grows (bb.localModules pkgDir bbDir mainPkgs).
Proof.
  unfold bb.localModules.
  apply grows_bind; [apply grows_foldM, grows_topLevelModule|]. intros lm1.
  apply grows_bind.
  { apply grows_foldM. intros lm p. apply grows_foldM. apply grows_replacedModule. }
  intros lm2. apply grows_bind; [apply grows_loop3|].
  intros [|]; [apply grows_fail|apply grows_ret].
Qed.

Lemma inTree_keeps (w w' : World) (k : string) :
  keeps w w' -> inTree pkgDir w k -> inTree pkgDir w' k.
Proof. intros [Hd Hf] [H1 H2]. split; [now apply Hd|auto]. Qed.

Lemma Copy_Ok (src dst : string) (w w' : World) :
  fsys.Copy src dst w = (Ok tt, w') ->
  is_Some (files (fs w') !! path.Clean dst).
Proof.
  unfold fsys.Copy, fsys.ReadFile, fsys.WriteFile, mbind, M_bind, bind, getFS,
    putFS, fail, mret, M_ret, ret.
  destruct (files (fs w) !! path.Clean src) as [data|].
  - destruct (fsys.isDir _ dst); [discriminate|].
    destruct (negb _); [discriminate|]. intros [= <-]. cbn [fs files].
    rewrite lookup_insert_eq. eauto.
  - destruct (fsys.isDir _ src); discriminate.
Qed.

(** A module whose [go.mod] was copied is in the tree. *)
Lemma copyGoMod_Ok (md : Module_) (w w' : World) :
  bb.copyGoMod pkgDir bbDir (Some md) w = (Ok tt, w') ->
  inTree pkgDir w' (Path md).
Proof.
  unfold bb.copyGoMod. unfold mbind at 1, M_bind at 1, bind at 1, errOf at 1.
  destruct (fsys.MkdirAll _ w) as [[[]|e|v] w1] eqn:Hmk.
  2:{ apply MkdirAll_error in Hmk as [_ Hmk]. rewrite Hmk. discriminate. }
  2:{ discriminate. }
  apply MkdirAll_spec in Hmk as (_ & _ & _ & Hdir). specialize (Hdir eq_refl).
  unfold mbind at 1, M_bind at 1, bind at 1.
  destruct (fsys.Copy _ _ w1) as [[[]|e|v] w2] eqn:Hcp;
    [|discriminate|discriminate].
  pose proof (grows_Copy (GoMod md) (filepath.Join [pkgDir; Path md; "go.mod"]) w1)
    as Hk1.
  rewrite Hcp in Hk1. cbn [snd] in Hk1. apply Copy_Ok in Hcp.
  intros Hrest.
  assert (keeps w2 w') as Hk2.
  { match type of Hrest with ?c w2 = _ => assert (grows c) as Hg end.
    { apply grows_bind; [apply grows_errOf, grows_Copy|]. intros [e|].
      - destruct (os.IsNotExist e); [apply grows_ret|apply grows_fail].
      - apply grows_bind; [apply grows_ReadFile|]. intros d.
        apply grows_AppendFile. }
    specialize (Hg w2). now rewrite Hrest in Hg. }
  eapply inTree_keeps; [exact Hk2|]. split; [|exact Hcp].
  destruct Hk1 as [Hd _]. now apply Hd.
Qed.

(** Recording a module and copying its [go.mod] keeps the modules
    recorded so far in the tree, and puts the new one there. *)
Lemma record_step (md : Module_) (name : string)
    (lm : gmap string bb.localModule) (e : bb.localModule) (w : World) :
  (forall k, is_Some (lm !! k) -> inTree pkgDir w k) ->
  match (orReturn (bb.copyGoMod pkgDir bbDir (Some md))
           (fun err => bb.Errorf ("failed to copy go.mod for " ++ name
                                    ++ ": " ++ Error err));;
         ret (<[Path md := e]> lm)) w with
  | (Ok lm', w') => forall k, is_Some (lm' !! k) -> inTree pkgDir w' k
  | (Err _, _) | (Panic _, _) => True
  end.
Proof.
  intros HP. unfold mbind, M_bind, bind, orReturn.
  destruct (bb.copyGoMod pkgDir bbDir (Some md) w) as [[[]|e'|v] w'] eqn:E;
    [|done|done].
  cbn. intros k Hk. destruct (decide (Path md = k)) as [<-|Hne].
  - now apply copyGoMod_Ok in E.
  - rewrite lookup_insert_ne in Hk by done.
    eapply inTree_keeps; [|now apply HP].
    pose proof (grows_copyGoMod (Some md) w) as Hg. now rewrite E in Hg.
Qed.

(** The first two loops give every local-module entry a key, and put
    nothing but local-module entries into the map; they log nothing. *)
Lemma localModules_entries (w w1 w2 : World)
    (lm1 lm2 : gmap string bb.localModule) :
  loop1 mainPkgs pkgDir bbDir w = (Ok lm1, w1) ->
  loop2 mainPkgs pkgDir bbDir lm1 w1 = (Ok lm2, w2) ->
  entriesOk mainPkgs lm2
  /\ (forall l, l ∈ localEntries mainPkgs -> is_Some (lm2 !! Path l))
  /\ stderr w2 = stderr w.
Proof.
  intros E1 E2.
  (* the entries *)
  set (P := fun (lm : gmap string bb.localModule) (w' : World) =>
              entriesOk mainPkgs lm /\ stderr w' = stderr w).
  pose proof (foldM_inv (bb.topLevelModule pkgDir bbDir) P (fun _ _ => True)
                mainPkgs) as H1.
  specialize (H1 ltac:(
    intros b x w0 Hx [Hok Hs];
    destruct (topLevelModule_step mainPkgs pkgDir bbDir b x w0 Hx) as [Hs' Hr];
    destruct (bb.topLevelModule pkgDir bbDir b x w0) as [[b'|e|v] w0'];
    cbn [fst snd] in *;
    [split; [now apply Hr|congruence] | done | done])
    ∅ w ltac:(split; [intros k e; now rewrite lookup_empty|done])).
  fold (loop1 mainPkgs pkgDir bbDir) in H1. rewrite E1 in H1.
  pose proof (foldM_inv
                (fun lm p =>
                   foldM (bb.replacedModule pkgDir bbDir p) lm
                     (bb.range (bb.locallyReplacedModules (bbinternal.Pkg p))))
                P (fun _ _ => True) mainPkgs) as H2.
  assert (forall b p w0, p ∈ mainPkgs -> P b w0 ->
            match foldM (bb.replacedModule pkgDir bbDir p) b
                    (bb.range (bb.locallyReplacedModules (bbinternal.Pkg p))) w0 with
            | (Ok b', w') => P b' w'
            | (Err e, w') => True
            | (Panic _, _) => True
            end) as Hinner.
  { intros b p w0 Hp HP. apply foldM_inv; [|exact HP].
    intros b0 kv w00 Hkv [Hok Hs]. destruct kv as [k v].
    apply range_elem in Hkv.
    destruct (locallyReplacedModules_lookup _ _ _ Hkv) as (Hpath & _ & [pm Hpm]).
    assert (v ∈ localEntries mainPkgs) as Hv.
    { apply localEntries_elem. right. exists p. split; [done|]. now rewrite Hpath. }
    destruct (replacedModule_step mainPkgs pkgDir bbDir p b0 (k, v) w00 pm Hpm)
      as [Hs' Hr].
    destruct (bb.replacedModule pkgDir bbDir p b0 (k, v) w00) as [[b'|e|pv] w0'];
      cbn [fst snd] in *; [|done|done].
    split; [now apply Hr|congruence]. }
  specialize (H2 Hinner lm1 w1 H1).
  fold (loop2 mainPkgs pkgDir bbDir lm1) in H2. rewrite E2 in H2.
  destruct H2 as [Hok2 Hs2]. split; [exact Hok2|]. split; [|exact Hs2].
  (* the keys *)
  assert (forall p pm, p ∈ mainPkgs -> Module (bbinternal.Pkg p) = Some pm ->
                       is_Some (lm1 !! Path pm)) as Htop.
  { pose proof (foldM_each (bb.topLevelModule pkgDir bbDir)
                  (fun p lm => forall pm, Module (bbinternal.Pkg p) = Some pm ->
                                          is_Some (lm !! Path pm))
                  keysLe keysLe_refl keysLe_trans) as H.
    destruct (H ltac:(intros x b b' HR Hle pm Hpm; apply Hle, HR, Hpm)
                mainPkgs) with (b := (∅ : gmap string bb.localModule))
                               (w := w) (b' := lm1) (w' := w1) as [_ Hall];
      [|exact E1|].
    - intros b x w0 b' w0' Hx Ef.
      destruct (topLevelModule_step mainPkgs pkgDir bbDir b x w0 Hx) as [_ Hr].
      rewrite Ef in Hr. cbn in Hr. destruct Hr as (Hle & Hin & _). done.
    - intros p pm Hp. now apply Hall. }
  assert (keysLe lm1 lm2
          /\ forall p k v, p ∈ mainPkgs ->
               bb.locallyReplacedModules (bbinternal.Pkg p) !! k = Some v ->
               is_Some (lm2 !! k)) as [Hle12 Hrep].
  { pose proof (foldM_each
                  (fun lm p =>
                     foldM (bb.replacedModule pkgDir bbDir p) lm
                       (bb.range (bb.locallyReplacedModules (bbinternal.Pkg p))))
                  (fun p lm => forall k v,
                     bb.locallyReplacedModules (bbinternal.Pkg p) !! k = Some v ->
                     is_Some (lm !! k))
                  keysLe keysLe_refl keysLe_trans) as H.
    destruct (H ltac:(intros x b b' HR Hle k v Hk; eapply Hle, HR, Hk)
                mainPkgs) with (b := lm1) (w := w1) (b' := lm2) (w' := w2)
      as [Hle Hall]; [|exact E2|].
    - intros b p w0 b' w0' Hp Ef.
      pose proof (foldM_each (bb.replacedModule pkgDir bbDir p)
                    (fun kv lm => is_Some (lm !! kv.1))
                    keysLe keysLe_refl keysLe_trans) as Hin.
      destruct (Hin ltac:(intros x b0 b0' HR Hle0; apply Hle0, HR)
                  (bb.range (bb.locallyReplacedModules (bbinternal.Pkg p))))
        with (b := b) (w := w0) (b' := b') (w' := w0') as [Hle' Hall'];
        [|exact Ef|].
      + intros b0 kv w00 b0' w00' Hkv Ef0.
        destruct kv as [k v]. apply range_elem in Hkv.
        destruct (locallyReplacedModules_lookup _ _ _ Hkv) as (_ & _ & [pm Hpm]).
        destruct (replacedModule_step mainPkgs pkgDir bbDir p b0 (k, v) w00 pm Hpm)
          as [_ Hr].
        rewrite Ef0 in Hr. cbn in Hr. destruct Hr as (Hle0 & Hs0 & _). done.
      + split; [|exact Hle']. intros k v Hk.
        apply (Hall' (k, v)). now apply range_elem.
    - split; [exact Hle|]. intros p k v Hp. now apply Hall. }
  intros l [(p & Hp & Hm)|(p & Hp & Hl)]%localEntries_elem.
  - apply Hle12. eapply Htop; eauto.
  - eapply Hrep; eauto.
Qed.

(** The third loop leaves the world alone as long as the flag is down. *)
Lemma loop3_quiet (lm : gmap string bb.localModule) (w w' : World) :
  loop3 mainPkgs lm w = (Ok false, w') -> w' = w.
Proof.
  intros E.
  assert (loop3 mainPkgs lm w = (Ok false, w)) as E'.
  { apply loop3_none. intros mp Hmp.
    destruct (conflictsOf lm (Visit [bbinternal.Pkg mp])) as [|c rest] eqn:Ec;
      [done|].
    exfalso. apply (loop3_raised mainPkgs lm w); [|now rewrite E].
    exists mp. split; [done|]. now rewrite Ec. }
  rewrite E in E'. now injection E'.
Qed.

End local_modules_tree.

(** X14: what [localModules] returns when it succeeds.  Every entry of
    the map is a module of a command, or a locally replaced module of
    one, kept under its own path; every such module has an entry for
    its path; every package of the import graphs whose module has the
    path of an entry is in the directory of that entry; and nothing was
    written to standard error. *)
Theorem X14_localModules_result `{C : Collaborators} (pkgDir bbDir : string)
    (mainPkgs : list bbinternal.Package) (w w' : World)
    (res : gmap string Module_) :
  bb.localModules pkgDir bbDir mainPkgs w = (Ok res, w') ->
  (forall k v, res !! k = Some v -> Path v = k /\ v ∈ localEntries mainPkgs)
  /\ (forall l, l ∈ localEntries mainPkgs -> is_Some (res !! Path l))
  /\ (forall s v, s ∈ sightings mainPkgs -> res !! Path s = Some v ->
                  Dir v = Dir s)
  /\ stderr w' = stderr w.
Proof.
  intros Hrun. pose proof Hrun as Hrun0.
  rewrite localModules_loops in Hrun. unfold mbind, M_bind, bind in Hrun.
  destruct (loop1 mainPkgs pkgDir bbDir w) as [[lm1|e|pv] w1] eqn:E1;
    [|discriminate|discriminate].
  destruct (loop2 mainPkgs pkgDir bbDir lm1 w1) as [[lm2|e|pv] w2] eqn:E2;
    [|discriminate|discriminate].
  destruct (localModules_entries mainPkgs pkgDir bbDir w w1 w2 lm1 lm2 E1 E2)
    as (Hok & Hkeys & Hs).
  destruct (loop3 mainPkgs lm2 w2) as [[c|e|pv] w3] eqn:E3;
    [|discriminate|discriminate].
  destruct c; cbn in Hrun; [discriminate|]. injection Hrun as <- <-.
  apply loop3_quiet in E3 as ->.
  assert (forall k v, (bb.m <$> lm2) !! k = Some v ->
                      Path v = k /\ v ∈ localEntries mainPkgs) as Hvals.
  { intros k v Hk. rewrite lookup_fmap in Hk.
    destruct (lm2 !! k) as [e|] eqn:El; [|discriminate]. injection Hk as <-.
    now apply Hok. }
  split; [exact Hvals|]. split; [|split; [|exact Hs]].
  - intros l Hl. rewrite lookup_fmap. apply fmap_is_Some. now apply Hkeys.
  - intros s v Hsight Hv. destruct (Hvals _ _ Hv) as [Hp Hin].
    destruct (decide (Dir v = Dir s)) as [|Hne]; [done|]. exfalso.
    eapply (localModules_conflicting mainPkgs pkgDir bbDir w);
      [exists v, s; done|].
    rewrite Hrun0. reflexivity.
Qed.

(** The commands of [a] and [b]: the local modules are [a] and [b]. *)
Lemma X14_localModules_result_witness :
  (forall k v, ex.abModules !! k = Some v ->
               Path v = k /\ v ∈ localEntries [ex.cmdA; ex.cmdB])
  /\ (forall l, l ∈ localEntries [ex.cmdA; ex.cmdB] ->
                is_Some (ex.abModules !! Path l))
  /\ (forall s v, s ∈ sightings [ex.cmdA; ex.cmdB] ->
                  ex.abModules !! Path s = Some v -> Dir v = Dir s)
  /\ stderr (@bb.localModules ex.abC "/gen/src" "/gen/src/bb.u-root.com/bb"
               [ex.cmdA; ex.cmdB] (ex.sources ex.goModA ex.goModB)).2
     = stderr (ex.sources ex.goModA ex.goModB).
Proof.
  apply (@X14_localModules_result ex.abC "/gen/src" "/gen/src/bb.u-root.com/bb"
           [ex.cmdA; ex.cmdB] (ex.sources ex.goModA ex.goModB)).
  vm_compute. reflexivity.
Defined.

(** X15: [localModules] removes nothing: whatever it returns, every
    directory and every file that was there before is there after. *)
Theorem X15_localModules_removes_nothing `{C : Collaborators}
    (pkgDir bbDir : string) (mainPkgs : list bbinternal.Package) (w : World) :
  let w' := (bb.localModules pkgDir bbDir mainPkgs w).2 in
  dirs (fs w) ⊆ dirs (fs w')
  /\ forall p, is_Some (files (fs w) !! p) -> is_Some (files (fs w') !! p).
Proof. apply (grows_localModules mainPkgs pkgDir bbDir w). Qed.

(** X16: after [localModules] has succeeded, every local module it
    returns has its directory in the generated tree, the module path
    under [pkgDir], and a [go.mod] in that directory. *)
Theorem X16_localModules_copies_go_mod `{C : Collaborators}
    (pkgDir bbDir : string) (mainPkgs : list bbinternal.Package)
    (w w' : World) (res : gmap string Module_) :
  bb.localModules pkgDir bbDir mainPkgs w = (Ok res, w') ->
  forall k, is_Some (res !! k) ->
    path.Clean (filepath.Join [pkgDir; k]) ∈ dirs (fs w')
    /\ is_Some (files (fs w') !! path.Clean (filepath.Join [pkgDir; k; "go.mod"])).
Proof.
  rewrite localModules_loops. unfold mbind, M_bind, bind.
  set (P := fun (lm : gmap string bb.localModule) (w0 : World) =>
              forall k, is_Some (lm !! k) -> inTree pkgDir w0 k).
  (* first loop *)
  pose proof (foldM_inv (bb.topLevelModule pkgDir bbDir) P (fun _ _ => True)
                mainPkgs) as H1.
  specialize (H1 ltac:(
    intros lm p w0 _ HP; unfold bb.topLevelModule;
    destruct (Module (bbinternal.Pkg p)) as [pm|]; [|exact HP];
    destruct (lm !! Path pm) eqn:El; [exact HP|];
    apply (record_step pkgDir bbDir pm (Path pm) lm _ w0 HP))
    ∅ w ltac:(intros k Hk; rewrite lookup_empty in Hk; now destruct Hk)).
  fold (loop1 mainPkgs pkgDir bbDir) in H1.
  destruct (loop1 mainPkgs pkgDir bbDir w) as [[lm1|e|pv] w1];
    [|discriminate|discriminate].
  (* second loop *)
  pose proof (foldM_inv
                (fun lm p =>
                   foldM (bb.replacedModule pkgDir bbDir p) lm
                     (bb.range (bb.locallyReplacedModules (bbinternal.Pkg p))))
                P (fun _ _ => True) mainPkgs) as H2.
  assert (forall b p w0, p ∈ mainPkgs -> P b w0 ->
            match foldM (bb.replacedModule pkgDir bbDir p) b
                    (bb.range (bb.locallyReplacedModules (bbinternal.Pkg p))) w0 with
            | (Ok b', w0') => P b' w0'
            | (Err e, w0') => True
            | (Panic _, _) => True
            end) as Hinner.
  { intros b p w0 Hp HP. apply foldM_inv; [|exact HP].
    intros lm kv w00 Hkv HP0. destruct kv as [k v]. apply range_elem in Hkv.
    destruct (locallyReplacedModules_lookup _ _ _ Hkv) as (Hpath & _ & [pm Hpm]).
    unfold bb.replacedModule. destruct (lm !! k) as [orig|] eqn:El.
    - destruct (negb _); [|exact HP0]. rewrite Hpm. done.
    - rewrite Hpm.
      assert (forall (k0 : Module_ -> M (gmap string bb.localModule)) w1,
                 (deref (Some pm) ≫= k0) w1 = k0 pm w1) as Hd by done.
      rewrite Hd. cbv zeta. rewrite <- Hpath.
      apply (record_step pkgDir bbDir v (Path pm) lm _ w00 HP0). }
  specialize (H2 Hinner lm1 w1 H1).
  fold (loop2 mainPkgs pkgDir bbDir lm1) in H2.
  destruct (loop2 mainPkgs pkgDir bbDir lm1 w1) as [[lm2|e|pv] w2];
    [|discriminate|discriminate].
  (* third loop *)
  pose proof (grows_loop3 mainPkgs lm2 w2) as H3.
  destruct (loop3 mainPkgs lm2 w2) as [[c|e|pv] w3]; [|discriminate|discriminate].
  destruct c; cbn; [discriminate|]. intros [= <- <-] k Hk.
  rewrite lookup_fmap in Hk. apply fmap_is_Some in Hk.
  eapply inTree_keeps; [exact H3|]. now apply H2.
Qed.

(** The module [a] under [/gen/src]. *)
Lemma X16_localModules_copies_go_mod_witness :
  path.Clean (filepath.Join ["/gen/src"; "example.com/a"])
    ∈ dirs (fs (@bb.localModules ex.abC "/gen/src" "/gen/src/bb.u-root.com/bb"
                  [ex.cmdA; ex.cmdB] (ex.sources ex.goModA ex.goModB)).2)
  /\ is_Some (files (fs (@bb.localModules ex.abC "/gen/src"
                           "/gen/src/bb.u-root.com/bb" [ex.cmdA; ex.cmdB]
                           (ex.sources ex.goModA ex.goModB)).2)
                !! path.Clean (filepath.Join ["/gen/src"; "example.com/a"; "go.mod"])).
Proof.
  apply (@X16_localModules_copies_go_mod ex.abC "/gen/src"
           "/gen/src/bb.u-root.com/bb" [ex.cmdA; ex.cmdB]
           (ex.sources ex.goModA ex.goModB) _ ex.abModules).
  - vm_compute. reflexivity.
  - exists ex.modA. vm_compute. reflexivity.
Defined.

Section visit_facts.

Lemma depth_import (id pp : string) (mo : option Module_)
    (imports : list (string * Package)) (s : string) (q : Package) :
  (s, q) ∈ imports -> depth q < depth (mkPackage id pp mo imports).
Proof.
  cbn [depth]. induction imports as [|[s' q'] l IH]; intros Hin.
  - now apply elem_of_nil in Hin.
  - apply elem_of_cons in Hin as [[= <- <-]|Hin]; [lia|].
    specialize (IH Hin). lia.
Qed.

Lemma visit_imports_foldl (l : list (string * Package))
    (st : gset string * list Package) :
  (fix visit_imports (l : list (string * Package))
       (st : gset string * list Package) :=
     match l with
     | [] => st
     | (_, q) :: l' => visit_imports l' (visit q st)
     end) l st
  = foldl (fun st x => visit x.2 st) st l.
Proof.
  revert st. induction l as [|[s q] l IH]; intros st; [done|]. cbn. apply IH.
Qed.

Lemma visit_eq (id pp : string) (mo : option Module_)
    (imports : list (string * Package)) (st : gset string * list Package) :
  visit (mkPackage id pp mo imports) st
  = if decide (id ∈ st.1) then st
    else
      let st2 := foldl (fun st x => visit x.2 st) ({[id]} ∪ st.1, st.2) imports in
      (st2.1, (st2.2 ++ [mkPackage id pp mo imports])%list).
Proof.
  cbn [visit]. destruct (decide (id ∈ st.1)); [done|].
  now rewrite visit_imports_foldl.
Qed.

Lemma visited_refl (st : gset string * list Package) : visited st st [].
Proof.
  split; [now rewrite app_nil_r|]. split; [|split; [constructor|]].
  - cbn. symmetry. apply (right_id_L (∅ : gset string) (∪)).
  - intros x Hx. now apply elem_of_nil in Hx.
Qed.

Lemma visited_trans (a b c : gset string * list Package)
    (n1 n2 : list Package) :
  visited a b n1 -> visited b c n2 -> visited a c (n1 ++ n2).
Proof.
  intros (H1 & H2 & H3 & H4) (H5 & H6 & H7 & H8). split; [|split; [|split]].
  - rewrite H5, H1. now rewrite app_assoc.
  - rewrite H6, H2, fmap_app, list_to_set_app_L.
    now rewrite (assoc_L (∪)).
  - rewrite fmap_app. apply NoDup_app. split; [done|]. split; [|done].
    intros i Hi1 (x & -> & Hx)%list_elem_of_fmap. apply (H8 x Hx).
    rewrite H2. apply elem_of_union. right. now apply elem_of_list_to_set.
  - intros x [Hx|Hx]%elem_of_app; [now apply H4|].
    intros Hin. apply (H8 x Hx). rewrite H2. apply elem_of_union. now left.
Qed.

(** [visit] appends packages that were not seen before, no two of them
    with the same ID. *)
Lemma visit_visited (n : nat) :
  forall pkg st, depth pkg <= n -> exists new, visited st (visit pkg st) new.
Proof.
  induction n as [|n IH]; intros [id pp mo imports] st Hd;
    [cbn [depth] in Hd; lia|].
  rewrite visit_eq. destruct (decide (id ∈ st.1)) as [Hin|Hnin].
  { exists []. apply visited_refl. }
  cbv zeta.
  assert (forall l st0, (forall x, x ∈ l -> x ∈ imports) ->
            exists new, visited st0 (foldl (fun st x => visit x.2 st) st0 l) new)
    as Hfold.
  { induction l as [|[s q] l IHl]; intros st0 Hsub.
    - exists []. apply visited_refl.
    - cbn [foldl snd].
      destruct (IH q st0) as [n1 H1].
      { pose proof (depth_import id pp mo imports s q (Hsub _ ltac:(left))). lia. }
      destruct (IHl (visit q st0)) as [n2 H2].
      { intros x Hx. apply Hsub. now right. }
      exists (n1 ++ n2)%list. eapply visited_trans; eauto. }
  destruct (Hfold imports ({[id]} ∪ st.1, st.2) ltac:(auto)) as [new Hnew].
  destruct Hnew as (H1 & H2 & H3 & H4). cbn [fst snd] in *.
  exists (new ++ [mkPackage id pp mo imports])%list. split; [|split; [|split]].
  - cbn [snd]. rewrite H1. now rewrite app_assoc.
  - cbn [fst]. rewrite H2, fmap_app, list_to_set_app_L. cbn.
    apply set_eq. intros i. rewrite !elem_of_union, elem_of_singleton,
      elem_of_list_to_set, elem_of_empty. tauto.
  - rewrite fmap_app. apply NoDup_app. split; [done|]. split.
    + intros i (x & -> & Hx)%list_elem_of_fmap Hi. cbn in Hi.
      apply list_elem_of_singleton in Hi. apply (H4 x Hx).
      apply elem_of_union. left. now apply elem_of_singleton.
    + cbn. apply NoDup_singleton.
  - intros x [Hx|Hx]%elem_of_app.
    + intros Hin. apply (H4 x Hx). apply elem_of_union. now right.
    + apply list_elem_of_singleton in Hx. now subst x.
Qed.

Lemma Visit_NoDup (p : Package) : NoDup (ID <$> Visit [p]).
Proof.
  unfold Visit. cbn [foldl].
  destruct (visit_visited (depth p) p (∅, []) ltac:(lia))
    as (new & H1 & _ & H3 & _).
  rewrite H1. exact H3.
Qed.

End visit_facts.

Section deps_members.

Context `{C : Collaborators}.

Lemma deps_elem (p : Package) (filter : Package -> bool) (pkg : Package) :
  pkg ∈ bb.deps p filter <-> pkg ∈ Visit [p] /\ filter pkg = true.
Proof.
  unfold bb.deps. now rewrite list_elem_of_In, filter_In, <- list_elem_of_In.
Qed.

Lemma existsb_Permutation {A} (f : A -> bool) (l l' : list A) :
  l ≡ₚ l' -> existsb f l = existsb f l'.
Proof.
  induction 1 as [|x l l' _ IH|x y l|l l' l'' _ IH1 _ IH2]; cbn.
  - done.
  - now rewrite IH.
  - destruct (f x), (f y); done.
  - congruence.
Qed.

Lemma existsb_range (lm : gmap string Module_) (pkg : Package) :
  existsb (fun kv => strings.HasPrefix (PkgPath pkg) kv.1) (bb.range lm) = true
  <-> exists modulePath, is_Some (lm !! modulePath)
                         /\ strings.HasPrefix (PkgPath pkg) modulePath = true.
Proof.
  rewrite existsb_exists. split.
  - intros ([k v] & Hin & Hp). apply list_elem_of_In, range_elem in Hin.
    exists k. split; [eauto|done].
  - intros (k & [v Hv] & Hp). exists (k, v). split; [|done].
    apply list_elem_of_In, range_elem. done.
Qed.

End deps_members.

(** X17: [deps] lists no package twice, however often the import graph
    leads to it: the packages it returns have IDs that are pairwise
    distinct; they are the packages of the import graph for which the
    filter holds, the package [p] itself among them. *)
Theorem X17_deps_lists_once (p : Package) (filter : Package -> bool) :
  NoDup (ID <$> bb.deps p filter)
  /\ (forall pkg, pkg ∈ bb.deps p filter
                  <-> pkg ∈ Visit [p] /\ filter pkg = true)
  /\ (filter p = true -> p ∈ bb.deps p filter).
Proof.
  split; [|split; [apply deps_elem|]].
  - unfold bb.deps. eapply sublist_NoDup; [apply (Visit_NoDup p)|].
    apply fmap_sublist. induction (Visit [p]) as [|x l IH]; [done|].
    cbn. destruct (filter x); [now apply sublist_skip|now apply sublist_cons].
  - intros Hf. apply deps_elem. split; [apply Visit_self|done].
Qed.

(** X18: what [collectDeps] collects.  For a command in a module: the
    packages of its import graph whose module is replaced by a local
    path, or whose import path has the path of a local module as a
    prefix (as a string: no slash is asked for after it).  For a
    command in no module: the packages whose import path has a dot in
    its first element, whatever the local modules are.  The order in
    which the map of local modules is walked makes no difference to
    the result. *)
Theorem X18_collectDeps_members `{C : Collaborators} (p : Package)
    (localModules : gmap string Module_) :
  (forall pkg,
      pkg ∈ bb.collectDeps p localModules <->
      pkg ∈ Visit [p]
      /\ match Module p with
         | Some _ => inLocalModule localModules pkg
         | None => firstCompHasDot pkg = true
         end)
  /\ (forall order order_perm,
        @bb.collectDeps (withOrder C order order_perm) p localModules
        = bb.collectDeps p localModules).
Proof.
  split.
  - intros pkg. unfold bb.collectDeps.
    destruct (Module p) as [pm|]; [|apply deps_elem].
    etrans; [apply deps_elem|]. cbv beta.
    unfold inLocalModule. now rewrite orb_true_iff, existsb_range.
  - intros order order_perm. unfold bb.collectDeps.
    destruct (Module p) as [pm|]; [|reflexivity].
    unfold bb.deps. apply filter_ext. intros pkg. f_equal.
    apply existsb_Permutation. unfold bb.range.
    etrans; [apply (@rangeOrder_perm (withOrder C order order_perm))|].
    symmetry. apply rangeOrder_perm.
Qed.

Section write_once.

Context `{C : Collaborators}.

Lemma firstByID_spec (l : list Package) (seen : gset string) :
  NoDup (ID <$> firstByID seen l)
  /\ (forall p, p ∈ firstByID seen l -> p ∈ l /\ ID p ∉ seen)
  /\ (forall p, p ∈ l -> ID p ∈ seen \/ ID p ∈ ID <$> firstByID seen l).
Proof.
  revert seen. induction l as [|x l IH]; intros seen.
  - cbn. split; [constructor|]. split; intros p Hp; now apply elem_of_nil in Hp.
  - cbn [firstByID]. destruct (decide (ID x ∈ seen)) as [Hin|Hnin].
    + destruct (IH seen) as (Hnd & Hsub & Hall). split; [done|]. split.
      * intros p Hp. destruct (Hsub p Hp). split; [now right|done].
      * intros p [->|Hp]%elem_of_cons; [now left|now apply Hall].
    + destruct (IH ({[ID x]} ∪ seen)) as (Hnd & Hsub & Hall).
      split; [|split].
      * cbn [fmap list_fmap]. apply NoDup_cons. split; [|done].
        intros (p & Hid & Hp)%list_elem_of_fmap. destruct (Hsub p Hp) as [_ Hn].
        apply Hn. rewrite <- Hid. apply elem_of_union. left.
        now apply elem_of_singleton.
      * intros p [->|Hp]%elem_of_cons; [split; [left|done]|].
        destruct (Hsub p Hp) as [H1 H2]. split; [now right|].
        intros Hs. apply H2, elem_of_union. now right.
      * intros p [->|Hp]%elem_of_cons.
        -- right. cbn [fmap list_fmap]. left.
        -- destruct (Hall p Hp) as [[Hs|Hs]%elem_of_union|Hs].
           ++ apply elem_of_singleton in Hs. right. rewrite Hs.
              cbn [fmap list_fmap]. left.
           ++ now left.
           ++ right. cbn [fmap list_fmap]. now right.
Qed.

(** The loop over [localDepPkgs] with its set [seenIDs] calls
    [WritePkg] once for each ID, at the first package that has it. *)
Lemma writePkgs_firstByID (pkgDir : string) (l : list Package)
    (seenIDs : gset string) (w : World) :
  (foldM (fun (seenIDs : gset string) p =>
            if decide (ID p ∈ seenIDs) then ret seenIDs
            else
              orReturn (WritePkg p (filepath.Join [pkgDir; PkgPath p]))
                (fun err => bb.Errorf ("writing package " ++ ID p ++ " failed: "
                                         ++ Error err));;
              ret ({[ID p]} ∪ seenIDs))
         seenIDs l;; ret tt) w
  = writeEach pkgDir (firstByID seenIDs l) w.
Proof.
  revert seenIDs w. induction l as [|p l IH]; intros seenIDs w; [reflexivity|].
  cbn [foldM firstByID]. destruct (decide (ID p ∈ seenIDs)) as [Hin|Hnin].
  - apply IH.
  - specialize (IH ({[ID p]} ∪ seenIDs)).
    unfold writeEach, writePkg in IH |- *. cbn [foldM].
    unfold mbind, M_bind, bind in IH |- *.
    destruct (orReturn _ _ w) as [[[]|e|v] w1]; [|reflexivity|reflexivity].
    cbn. apply IH.
Qed.

Lemma dealWithDeps_eq (env : golang.Environ) (bbDir tmpDir pkgDir : string)
    (mainPkgs : list bbinternal.Package) (w : World) :
  bb.dealWithDeps env bbDir tmpDir pkgDir mainPkgs w
  = (lm ← bb.localModules pkgDir bbDir mainPkgs;
     writeEach pkgDir (firstByID ∅ (localDepPkgs mainPkgs lm));;
     writeGoMod env bbDir lm) w.
Proof.
  unfold bb.dealWithDeps.
  destruct (bb.localModules pkgDir bbDir mainPkgs w) as [[lm|e|v] w1] eqn:E.
  2:{ now rewrite !(bind_Err _ _ _ _ _ E). }
  2:{ now rewrite !(bind_Panic _ _ _ _ _ E). }
  rewrite !(bind_Ok _ _ _ _ _ E). cbv zeta.
  pose proof (writePkgs_firstByID pkgDir (localDepPkgs mainPkgs lm) ∅ w1) as H.
  unfold localDepPkgs in H at 1.
  match goal with
  | |- (?c ≫= _) w1 = _ => destruct (c w1) as [[s|e|v] w2] eqn:E2
  end.
  - rewrite (bind_Ok _ _ _ _ _ E2) in H. symmetry in H.
    rewrite (bind_Ok _ _ _ _ _ E2), (bind_Ok _ _ _ _ _ H). reflexivity.
  - rewrite (bind_Err _ _ _ _ _ E2) in H. symmetry in H.
    rewrite (bind_Err _ _ _ _ _ E2), (bind_Err _ _ _ _ _ H). reflexivity.
  - rewrite (bind_Panic _ _ _ _ _ E2) in H. symmetry in H.
    rewrite (bind_Panic _ _ _ _ _ E2), (bind_Panic _ _ _ _ _ H). reflexivity.
Qed.

Lemma foldM_id {A B} (f : B -> A -> M B) (l : list A) (b : B) (w : World) :
  (forall x, x ∈ l -> f b x w = (Ok b, w)) -> foldM f b l w = (Ok b, w).
Proof.
  induction l as [|x l IH]; intros Hf; [reflexivity|].
  cbn [foldM]. unfold mbind, M_bind, bind. rewrite Hf by left.
  apply IH. intros y Hy. apply Hf. now right.
Qed.

End write_once.

(** X19: [dealWithDeps] is [localModules], then one call of
    [bbinternal.WritePkg] for every ID among the local dependency
    packages of the commands, at the first package with that ID, in
    the order of the list, and then the [go.mod]: no package is written
    twice, and none is left out. *)
Theorem X19_dealWithDeps_writes_once `{C : Collaborators}
    (env : golang.Environ) (bbDir tmpDir pkgDir : string)
    (mainPkgs : list bbinternal.Package) (w : World) :
  bb.dealWithDeps env bbDir tmpDir pkgDir mainPkgs w
  = (lm ← bb.localModules pkgDir bbDir mainPkgs;
     writeEach pkgDir (firstByID ∅ (localDepPkgs mainPkgs lm));;
     writeGoMod env bbDir lm) w
  /\ forall lm,
       NoDup (ID <$> firstByID ∅ (localDepPkgs mainPkgs lm))
       /\ (forall p, p ∈ firstByID ∅ (localDepPkgs mainPkgs lm) ->
                     p ∈ localDepPkgs mainPkgs lm)
       /\ (forall p, p ∈ localDepPkgs mainPkgs lm ->
                     ID p ∈ ID <$> firstByID ∅ (localDepPkgs mainPkgs lm)).
Proof.
  split; [apply dealWithDeps_eq|].
  intros lm. destruct (firstByID_spec (localDepPkgs mainPkgs lm) ∅)
    as (Hnd & Hsub & Hall).
  split; [done|]. split.
  - intros p Hp. now apply Hsub.
  - intros p Hp. destruct (Hall p Hp) as [Hin|Hin]; [|done].
    now apply not_elem_of_empty in Hin.
Qed.

(** X20: when no command is in a module, [localModules] returns the
    empty map and leaves the world as it is: nothing is copied and
    nothing logged.  When also [GO111MODULE] is not [on],
    [dealWithDeps] writes the dependency packages, each once, and
    nothing else: it reads no [go.mod] and writes none. *)
Theorem X20_dealWithDeps_without_modules `{C : Collaborators}
    (pkgDir bbDir : string) (mainPkgs : list bbinternal.Package)
    (env : golang.Environ) (tmpDir : string) (w : World) :
  (forall p, p ∈ mainPkgs -> Module (bbinternal.Pkg p) = None) ->
  bb.localModules pkgDir bbDir mainPkgs w = (Ok ∅, w)
  /\ (golang.GO111MODULE env <> "on" ->
      bb.dealWithDeps env bbDir tmpDir pkgDir mainPkgs w
      = writeEach pkgDir (firstByID ∅ (localDepPkgs mainPkgs ∅)) w).
Proof.
  intros Hnone.
  assert (bb.localModules pkgDir bbDir mainPkgs w = (Ok ∅, w)) as Hlm.
  { rewrite localModules_loops. unfold mbind, M_bind, bind.
    assert (loop1 mainPkgs pkgDir bbDir w = (Ok ∅, w)) as ->.
    { apply foldM_id. intros p Hp. unfold bb.topLevelModule.
      now rewrite (Hnone p Hp). }
    assert (loop2 mainPkgs pkgDir bbDir ∅ w = (Ok ∅, w)) as ->.
    { apply foldM_id. intros p Hp. unfold bb.locallyReplacedModules.
      rewrite (Hnone p Hp), range_empty. reflexivity. }
    assert (loop3 mainPkgs ∅ w = (Ok false, w)) as ->.
    { apply foldM_id. intros p Hp. apply foldM_id. intros pkg Hpkg.
      unfold bb.remoteConflict. destruct (Module pkg) as [pmod|]; [|done].
      now rewrite lookup_empty. }
    cbn. now rewrite fmap_empty. }
  split; [exact Hlm|]. intros Hon.
  rewrite dealWithDeps_eq.
  unfold mbind at 1, M_bind at 1, bind at 1. rewrite Hlm.
  unfold writeGoMod. apply String.eqb_neq in Hon. rewrite Hon, map_size_empty.
  cbn [orb Nat.ltb Nat.leb]. unfold mbind, M_bind, bind.
  now destruct (writeEach _ _ w) as [[[]|e|v] w1].
Qed.

(** The command [foo/ls], which is in no module. *)
Lemma X20_dealWithDeps_without_modules_witness :
  @bb.localModules ex.dupC "/gen/src" "/gen/src/bb.u-root.com/bb" [ex.fooLs]
     ex.emptyGen
  = (Ok ∅, ex.emptyGen).
Proof.
  apply (@X20_dealWithDeps_without_modules ex.dupC "/gen/src"
           "/gen/src/bb.u-root.com/bb" [ex.fooLs]
           (golang.mkEnviron "off" "") "/gen" ex.emptyGen).
  intros p Hp. apply list_elem_of_singleton in Hp as ->. reflexivity.
Defined.

Section base_facts.

Lemma list_ascii_of_string_app (a b : string) :
  list_ascii_of_string (a ++ b)
  = (list_ascii_of_string a ++ list_ascii_of_string b)%list.
Proof.
  induction a as [|c a IH]; [done|].
  change (c :: list_ascii_of_string (a ++ b)
          = c :: (list_ascii_of_string a ++ list_ascii_of_string b)%list).
  now rewrite IH.
Qed.

Lemma Contains1_false (e : string) (c : ascii) :
  strings.Contains1 e c = false ->
  Forall (fun d => Ascii.eqb d c = false) (list_ascii_of_string e).
Proof.
  induction e as [|d e IH]; cbn; [constructor|].
  intros [H1 H2]%orb_false_iff. constructor; auto.
Qed.

Lemma take_elem_app (l rest : list ascii) :
  Forall (fun d => Ascii.eqb d path.slash = false) l ->
  path.take_elem (l ++ path.slash :: rest) = l.
Proof.
  induction 1 as [|d l Hd _ IH]; cbn.
  - reflexivity.
  - rewrite Hd. now rewrite IH.
Qed.

(** [Base] of a path that ends in a slash and an element [e]. *)
Lemma Base_last (dir e : string) :
  e <> "" -> strings.Contains1 e path.slash = false ->
  path.Base (dir ++ "/" ++ e) = e.
Proof.
  intros Hne Hns. unfold path.Base.
  destruct (String.eqb_spec (dir ++ "/" ++ e) "") as [He|_].
  { destruct dir; discriminate He. }
  unfold path.rbytes. rewrite !list_ascii_of_string_app, !rev_app_distr.
  cbn [list_ascii_of_string rev app]. rewrite <- app_assoc. cbn [app].
  apply Contains1_false in Hns. apply Forall_rev in Hns.
  assert (rev (list_ascii_of_string e) <> []) as Hnil.
  { destruct e; [done|]. cbn. intros H. now apply app_eq_nil in H as [_ H]. }
  destruct (rev (list_ascii_of_string e)) as [|c l] eqn:E; [done|].
  pose proof (Forall_inv Hns) as Hc. cbn [app path.drop_slashes]. rewrite Hc.
  pose proof (take_elem_app (c :: l) (rev (list_ascii_of_string dir)) Hns) as Ht.
  cbn [app] in Ht. unfold path.slash in Ht. rewrite Ht.
  change (string_of_list_ascii (rev (c :: l)) = e).
  rewrite <- E, rev_involutive.
  now rewrite string_of_list_ascii_of_string.
Qed.

Lemma matchVersion_app (a s : string) :
  bb.matchVersion s = true -> bb.matchVersion (a ++ s) = true.
Proof.
  intros H. induction a as [|c a IH]; [done|].
  change (bb.matchVersion (String c (a ++ s)) = true).
  cbn [bb.matchVersion]. rewrite IH. apply orb_true_r.
Qed.

End base_facts.

(** X21: for a module path that ends in a slash and a last element,
    [versionNum] returns that element when the pattern [v[0-9]+]
    matches it, and [v0] otherwise.  The pattern is not anchored: any
    last element with a [v] directly before a digit somewhere in it is
    returned as it is, also one that is no major version (as the
    element [dev2tools]).  The result is never the empty string. *)
Theorem X21_versionNum_last_element (dir e : string) :
  e <> "" -> strings.Contains1 e path.slash = false ->
  bb.versionNum (dir ++ "/" ++ e) = (if bb.matchVersion e then e else "v0")
  /\ (forall a d b, e = a ++ String "v" (String d b) -> bb.isDigit d = true ->
                    bb.versionNum (dir ++ "/" ++ e) = e)
  /\ bb.versionNum (dir ++ "/" ++ e) <> "".
Proof.
  intros Hne Hns.
  assert (bb.versionNum (dir ++ "/" ++ e)
          = (if bb.matchVersion e then e else "v0")) as Hv.
  { unfold bb.versionNum. rewrite (Base_last dir e Hne Hns). cbv zeta.
    destruct e; [done|]. reflexivity. }
  split; [exact Hv|]. split.
  - intros a d b -> Hd. rewrite Hv. rewrite matchVersion_app; [done|].
    cbn [bb.matchVersion]. now rewrite Hd.
  - rewrite Hv. destruct (bb.matchVersion e); [done|discriminate].
Qed.

(** The module paths [example.com/m/v2] and [example.com/m/dev2tools]. *)
Lemma X21_versionNum_last_element_witness :
  bb.versionNum ("example.com/m" ++ "/" ++ "v2") = "v2"
  /\ bb.versionNum ("example.com/m" ++ "/" ++ "dev2tools") = "dev2tools".
Proof.
  split.
  - apply (proj1 (X21_versionNum_last_element "example.com/m" "v2"
                    ltac:(discriminate) eq_refl)).
  - apply (proj1 (proj2 (X21_versionNum_last_element "example.com/m" "dev2tools"
                           ltac:(discriminate) eq_refl)) "de" "2"%char "tools");
      reflexivity.
Defined.

(** * The files that [copyGoMod] leaves *)

Section last_element.

Lemma splitc_app (c : ascii) (s t cur : string) :
  strings.splitc c cur (s ++ String c t)
  = (strings.splitc c cur s ++ strings.splitc c "" t)%list.
Proof.
  revert cur. induction s as [|d s IH]; intros cur.
  - change ("" ++ String c t) with (String c t).
    cbn [strings.splitc app]. now rewrite Ascii.eqb_refl.
  - change (String d s ++ String c t) with (String d (s ++ String c t)).
    cbn [strings.splitc]. destruct (Ascii.eqb d c); [|apply IH].
    cbn [app]. now rewrite IH.
Qed.

Lemma splitc_plain (c : ascii) (e cur : string) :
  strings.Contains1 e c = false -> strings.splitc c cur e = [cur ++ e].
Proof.
  revert cur. induction e as [|d e IH]; intros cur; cbn.
  - intros _. now rewrite string_app_nil_r.
  - intros [H1 H2]%orb_false_iff. rewrite H1, IH by done.
    now rewrite string_app_assoc.
Qed.

Lemma Join_snoc (l : list string) (e sep : string) :
  strings.Join (l ++ [e]) sep
  = match l with [] => e | _ => strings.Join l sep ++ sep ++ e end.
Proof.
  induction l as [|x l IH]; [done|].
  cbn [app]. destruct l as [|y l]; [done|].
  change (strings.Join (x :: (y :: l) ++ [e]) sep)
    with (x ++ sep ++ strings.Join ((y :: l) ++ [e]) sep).
  rewrite IH. change (strings.Join (x :: y :: l) sep)
    with (x ++ sep ++ strings.Join (y :: l) sep).
  now rewrite !string_app_assoc.
Qed.

Lemma isFileName_spec (e : string) :
  isFileName e = true ->
  isRealElem e = true /\ strings.Contains1 e path.slash = false /\ e <> "".
Proof.
  unfold isFileName. intros [H1 H2]%andb_true_iff.
  apply negb_true_iff in H2. split; [done|]. split; [done|].
  intros ->. discriminate H1.
Qed.

Lemma clean_step_real (rooted : bool) (out : list string) (dd : nat)
    (e : string) :
  isRealElem e = true ->
  path.clean_step rooted (out, dd) e = (e :: out, dd).
Proof.
  unfold isRealElem. intros [[H1 H2]%andb_true_iff H3]%andb_true_iff.
  unfold path.clean_step.
  destruct (String.eqb e ""); [discriminate|].
  destruct (String.eqb e "."); [discriminate|].
  destruct (String.eqb e ".."); [discriminate|]. reflexivity.
Qed.

Lemma HasPrefix_plain (e : string) :
  strings.Contains1 e path.slash = false -> strings.HasPrefix e "/" = false.
Proof.
  destruct e as [|c e]; [done|]. cbn [strings.Contains1].
  intros [H _]%orb_false_iff.
  unfold strings.HasPrefix. cbn [String.prefix].
  destruct (ascii_dec "/" c) as [<-|]; [|done].
  unfold path.slash in H. rewrite Ascii.eqb_refl in H. discriminate H.
Qed.

Lemma Clean_fileName (e : string) : isFileName e = true -> path.Clean e = e.
Proof.
  intros (Hr & Hs & Hne)%isFileName_spec. unfold path.Clean.
  apply String.eqb_neq in Hne. rewrite Hne, (HasPrefix_plain e Hs).
  unfold strings.Split1. rewrite (splitc_plain _ _ _ Hs).
  cbn [foldl]. now rewrite (clean_step_real _ _ _ _ Hr).
Qed.

Lemma take_elem_plain (l : list ascii) :
  Forall (fun d => Ascii.eqb d path.slash = false) l -> path.take_elem l = l.
Proof.
  induction 1 as [|d l Hd _ IH]; cbn; [done|]. now rewrite Hd, IH.
Qed.

End last_element.

Section prefix_facts.

Lemma Clean_snoc_prefix (s : string) :
  exists pfx, isDirPrefix pfx
    /\ forall e, isFileName e = true -> path.Clean (s ++ "/" ++ e) = pfx ++ e.
Proof.
  set (rooted := strings.HasPrefix (s ++ "/") "/").
  destruct (foldl (path.clean_step rooted) ([], 0)
              (strings.splitc path.slash "" s)) as [out dd] eqn:Ef.
  exists ((if rooted then "/" else "")
            ++ match rev out with
               | [] => ""
               | l => strings.Join l "/" ++ "/"
               end).
  split.
  - destruct rooted, (rev out) as [|x l].
    + right. now exists "".
    + right. exists ("/" ++ strings.Join (x :: l) "/").
      now rewrite !string_app_assoc.
    + now left.
    + right. now exists (strings.Join (x :: l) "/").
  - intros e (Hr & Hs & Hne)%isFileName_spec. unfold path.Clean.
    destruct (String.eqb_spec (s ++ "/" ++ e) "") as [He|_].
    { destruct s; discriminate He. }
    assert (strings.HasPrefix (s ++ "/" ++ e) "/" = rooted) as ->.
    { subst rooted. destruct s as [|c s].
      - transitivity true; [|symmetry]; apply HasPrefix_slash; eexists;
          reflexivity.
      - change (String c s ++ "/" ++ e) with (String c (s ++ "/" ++ e)).
        change (String c s ++ "/") with (String c (s ++ "/")).
        unfold strings.HasPrefix. cbn [String.prefix].
        destruct (ascii_dec "/" c); [|done].
        now destruct (s ++ "/" ++ e), (s ++ "/"). }
    unfold strings.Split1.
    change (s ++ "/" ++ e) with (s ++ String path.slash e).
    rewrite splitc_app, (splitc_plain _ _ _ Hs), foldl_app, Ef. cbn [foldl].
    rewrite (clean_step_real _ _ _ _ Hr). cbn [rev].
    rewrite (Join_snoc (rev out) e "/").
    destruct rooted, (rev out) as [|x l]; try reflexivity.
    + now rewrite !string_app_assoc.
    + now rewrite !string_app_assoc.
Qed.

Lemma Clean_prefix (pfx : string) :
  isDirPrefix pfx ->
  exists pfx', isDirPrefix pfx'
    /\ forall e, isFileName e = true -> path.Clean (pfx ++ e) = pfx' ++ e.
Proof.
  intros [->|[q ->]].
  - exists "". split; [now left|]. intros e He. now apply Clean_fileName.
  - destruct (Clean_snoc_prefix q) as (pfx' & Hp & Heq). exists pfx'.
    split; [done|]. intros e He. rewrite string_app_assoc. now apply Heq.
Qed.

Lemma Join_prefix (l : list string) :
  exists pfx, isDirPrefix pfx
    /\ forall e, isFileName e = true -> path.Join (l ++ [e]) = pfx ++ e.
Proof.
  induction l as [|x l IH].
  - exists "". split; [now left|]. intros e He. cbn.
    destruct (isFileName_spec e He) as (_ & _ & Hne).
    apply String.eqb_neq in Hne. rewrite Hne. now apply Clean_fileName.
  - cbn [app path.Join]. destruct (String.eqb x ""); [exact IH|].
    destruct (Clean_snoc_prefix (strings.Join (x :: l) "/")) as (pfx & Hp & Heq).
    exists pfx. split; [done|]. intros e He.
    change (x :: l ++ [e])%list with ((x :: l) ++ [e])%list.
    rewrite Join_snoc. now apply Heq.
Qed.

(** The cleaned path of a file in a directory given by its elements:
    a prefix that the elements decide, and the name of the file. *)
Lemma file_in_dir (l : list string) :
  exists pfx, isDirPrefix pfx
    /\ forall e, isFileName e = true ->
                 path.Clean (filepath.Join (l ++ [e])) = pfx ++ e.
Proof.
  destruct (Join_prefix l) as (pfx & Hp & Heq).
  destruct (Clean_prefix pfx Hp) as (pfx' & Hp' & Heq').
  exists pfx'. split; [done|]. intros e He.
  unfold filepath.Join. rewrite (Heq e He). now apply Heq'.
Qed.

Lemma string_of_list_ascii_app (a b : list ascii) :
  string_of_list_ascii (a ++ b) = string_of_list_ascii a ++ string_of_list_ascii b.
Proof.
  induction a as [|c a IH]; [done|].
  change (String c (string_of_list_ascii (a ++ b))
          = String c (string_of_list_ascii a ++ string_of_list_ascii b)).
  now rewrite IH.
Qed.

Lemma drop_elem_plain (l rest : list ascii) :
  Forall (fun d => Ascii.eqb d path.slash = false) l ->
  path.drop_elem (l ++ rest) = path.drop_elem rest.
Proof. induction 1 as [|d l Hd _ IH]; cbn; [done|]. now rewrite Hd. Qed.

Lemma Dir_prefix (pfx e : string) :
  isDirPrefix pfx -> isFileName e = true -> path.Dir (pfx ++ e) = path.Clean pfx.
Proof.
  intros Hp (_ & Hs & _)%isFileName_spec. unfold path.Dir, path.rbytes.
  rewrite list_ascii_of_string_app, rev_app_distr.
  apply Contains1_false, Forall_rev in Hs. rewrite (drop_elem_plain _ _ Hs).
  f_equal. destruct Hp as [->|[q ->]]; [done|].
  rewrite list_ascii_of_string_app, rev_app_distr. cbn [list_ascii_of_string rev app].
  cbn [path.drop_elem]. unfold path.slash. rewrite Ascii.eqb_refl.
  cbn [rev]. rewrite rev_involutive, string_of_list_ascii_app.
  now rewrite string_of_list_ascii_of_string.
Qed.

Lemma Base_prefix (pfx e : string) :
  isDirPrefix pfx -> isFileName e = true -> path.Base (pfx ++ e) = e.
Proof.
  intros Hp (_ & Hs & Hne)%isFileName_spec. destruct Hp as [->|[q ->]].
  - unfold path.Base. apply String.eqb_neq in Hne as Hne'.
    change ("" ++ e) with e. rewrite Hne'. unfold path.rbytes.
    apply Contains1_false, Forall_rev in Hs.
    destruct (rev (list_ascii_of_string e)) as [|c l] eqn:E.
    { destruct e; [done|]. cbn in E. now apply app_eq_nil in E as [_ E]. }
    pose proof (Forall_inv Hs) as Hc. cbn [path.drop_slashes]. rewrite Hc.
    rewrite (take_elem_plain _ Hs).
    change (string_of_list_ascii (rev (c :: l)) = e).
    now rewrite <- E, rev_involutive, string_of_list_ascii_of_string.
  - rewrite string_app_assoc. now apply Base_last.
Qed.

End prefix_facts.

Section copy_go_mod.

Lemma fileName_go_mod : isFileName "go.mod" = true.
Proof. reflexivity. Qed.

Lemma fileName_go_sum : isFileName "go.sum" = true.
Proof. reflexivity. Qed.

Lemma prefix_names_ne (p1 p2 e1 e2 : string) :
  isDirPrefix p1 -> isDirPrefix p2 ->
  isFileName e1 = true -> isFileName e2 = true -> e1 <> e2 ->
  p1 ++ e1 <> p2 ++ e2.
Proof.
  intros H1 H2 He1 He2 Hne Heq. apply Hne.
  rewrite <- (Base_prefix p1 e1 H1 He1), <- (Base_prefix p2 e2 H2 He2).
  now rewrite Heq.
Qed.

End copy_go_mod.

(** X22: the files after [copyGoMod] has succeeded for a module.  The
    [go.mod] of the module was there and is now also at [go.mod] in the
    directory of the module under [pkgDir], which was created with the
    directories above it.  When there is no [go.sum] beside the
    module's [go.mod], no other file has changed.  When there is one,
    it is now also at [go.sum] in that directory, and its text was
    appended to the [go.sum] under [bbDir] (which is created when it
    is not there); no other file has changed.  Nothing is logged.  (The
    [go.sum] under [bbDir] is taken to be another file than the copy of
    the module's.) *)
Theorem X22_copyGoMod_files (pkgDir bbDir : string) (md : Module_) (w w' : World) :
  bb.copyGoMod pkgDir bbDir (Some md) w = (Ok tt, w') ->
  path.Clean (filepath.Join [bbDir; "go.sum"])
    <> path.Clean (filepath.Join [pkgDir; Path md; "go.sum"]) ->
  exists data,
    files (fs w) !! path.Clean (GoMod md) = Some data
    /\ dirs (fs w')
       = list_to_set (fsys.ancestors (filepath.Join [pkgDir; Path md])) ∪ dirs (fs w)
    /\ stderr w' = stderr w
    /\ files (fs w')
       = match files (fs w)
                 !! path.Clean (filepath.Join [filepath.Dir (GoMod md); "go.sum"]) with
         | None =>
             <[path.Clean (filepath.Join [pkgDir; Path md; "go.mod"]) := data]>
               (files (fs w))
         | Some s =>
             <[path.Clean (filepath.Join [bbDir; "go.sum"])
                 := default "" (files (fs w)
                                  !! path.Clean (filepath.Join [bbDir; "go.sum"]))
                    ++ s]>
               (<[path.Clean (filepath.Join [pkgDir; Path md; "go.sum"]) := s]>
                  (<[path.Clean (filepath.Join [pkgDir; Path md; "go.mod"]) := data]>
                     (files (fs w))))
         end.
Proof.
  destruct (file_in_dir [pkgDir; Path md]) as (pd & Hpd & Hd).
  destruct (file_in_dir [filepath.Dir (GoMod md)]) as (ps & Hps & Hs).
  destruct (file_in_dir [bbDir]) as (pb & Hpb & Hb).
  pose proof (Hd _ fileName_go_mod) as Hdm. pose proof (Hd _ fileName_go_sum) as Hds.
  pose proof (Hs _ fileName_go_sum) as Hss. pose proof (Hb _ fileName_go_sum) as Hbs.
  cbn [app] in Hdm, Hds, Hss, Hbs.
  unfold bb.copyGoMod, fsys.Copy.
  set (dstMod := filepath.Join [pkgDir; Path md; "go.mod"]) in *.
  set (dstSum := filepath.Join [pkgDir; Path md; "go.sum"]) in *.
  set (srcSum := filepath.Join [filepath.Dir (GoMod md); "go.sum"]) in *.
  set (bbSum := filepath.Join [bbDir; "go.sum"]) in *.
  intros Hrun Hne.
  unfold fsys.MkdirAll, fsys.ReadFile, fsys.WriteFile, fsys.AppendFile, errOf,
    mbind, M_bind, bind, getFS, putFS, fail, mret, M_ret, ret in Hrun.
  cbn [fs files dirs stderr] in Hrun.
  destruct (existsb _ _); cbn [os.IsExist] in Hrun; [discriminate|].
  cbn [fs files dirs stderr] in Hrun.
  destruct (files (fs w) !! path.Clean (GoMod md)) as [data|] eqn:Hsrc.
  2:{ destruct (fsys.isDir _ (GoMod md)); discriminate. }
  exists data. split; [done|].
  assert (path.Clean dstMod <> path.Clean srcSum) as Hms.
  { rewrite Hdm, Hss. now apply prefix_names_ne. }
  assert (path.Clean dstMod <> path.Clean bbSum) as Hmb.
  { rewrite Hdm, Hbs. now apply prefix_names_ne. }
  assert (path.Dir (path.Clean dstSum) = path.Dir (path.Clean dstMod)) as Hdir.
  { rewrite Hds, Hdm. now rewrite !Dir_prefix. }
  destruct (fsys.isDir _ dstMod); [discriminate|].
  destruct (negb (fsys.isDir _ (path.Dir (path.Clean dstMod)))) eqn:HdirM;
    [discriminate|].
  cbn [fs files dirs stderr] in Hrun.
  rewrite lookup_insert_ne in Hrun by done.
  destruct (files (fs w) !! path.Clean srcSum) as [s|] eqn:Hsum.
  - cbn [fs files dirs stderr] in Hrun.
    destruct (fsys.isDir _ dstSum); [discriminate|].
    rewrite Hdir in Hrun. unfold fsys.isDir in HdirM, Hrun.
    cbn [fs dirs files stderr] in HdirM, Hrun. rewrite HdirM in Hrun.
    cbn [fs files dirs stderr] in Hrun.
    assert ((<[path.Clean dstSum := s]>
               (<[path.Clean dstMod := data]> (files (fs w))))
              !! path.Clean srcSum = Some s) as Hagain.
    { destruct (decide (path.Clean dstSum = path.Clean srcSum)) as [->|Hn].
      - apply lookup_insert_eq.
      - now rewrite !lookup_insert_ne by done. }
    rewrite Hagain in Hrun.
    destruct (bool_decide (path.Clean bbSum ∈ _)); [discriminate|].
    destruct (negb (bool_decide (path.Clean (path.Dir (path.Clean bbSum)) ∈ _)));
      [discriminate|].
    injection Hrun as <-. cbn [fs files dirs stderr].
    split; [done|]. split; [done|].
    rewrite !lookup_insert_ne by done. reflexivity.
  - destruct (fsys.isDir _ srcSum); [discriminate|].
    cbn [os.IsNotExist] in Hrun. injection Hrun as <-. done.
Qed.

(** The module [a], with a [go.sum], and a [go.sum] of the busybox that
    has a line already. *)
Lemma X22_copyGoMod_files_witness :
  files (fs (bb.copyGoMod "/gen/src" "/gen/src/bb.u-root.com/bb"
               (Some ex.modA) ex.sumSources).2)
    !! "/gen/src/example.com/a/go.mod" = Some ex.goModA
  /\ files (fs (bb.copyGoMod "/gen/src" "/gen/src/bb.u-root.com/bb"
                  (Some ex.modA) ex.sumSources).2)
       !! "/gen/src/example.com/a/go.sum" = Some ex.goSumA
  /\ files (fs (bb.copyGoMod "/gen/src" "/gen/src/bb.u-root.com/bb"
                  (Some ex.modA) ex.sumSources).2)
       !! "/gen/src/bb.u-root.com/bb/go.sum" = Some (ex.goSumB ++ ex.goSumA).
Proof.
  destruct (X22_copyGoMod_files "/gen/src" "/gen/src/bb.u-root.com/bb" ex.modA
              ex.sumSources
              (bb.copyGoMod "/gen/src" "/gen/src/bb.u-root.com/bb"
                 (Some ex.modA) ex.sumSources).2
              ltac:(vm_compute; reflexivity)
              ltac:(vm_compute; discriminate))
    as (data & Hdata & _ & _ & Hfiles).
  vm_compute in Hdata. injection Hdata as <-.
  rewrite Hfiles. repeat split; vm_compute; reflexivity.
Defined.
